(** * Smart-Shopper: categorization, text parsing, preference fan-out and
    backup import, embedded from the TypeScript sources.

    JavaScript strings are modelled as Rocq strings whose characters stand
    for the UTF-16 code units U+0000..U+00FF (the Latin-1 range); every
    string operation below is the restriction of the JavaScript built-in to
    that range. *)

From Stdlib Require Import String Ascii List ZArith NArith Bool Lia.
From Stdlib Require Import DecimalString DecimalPos DecimalZ.
From stdpp Require Import base option list strings gmap fin_maps.

Local Open Scope string_scope.
Local Open Scope list_scope.

(** ** JavaScript string built-ins *)

Module JSString.

Definition code (c : ascii) : N := N_of_ascii c.

(** WhiteSpace and LineTerminator code points below U+0100: what
    [String.prototype.trim] strips and what the class [\s] matches. *)
Definition isWhiteSpace (c : ascii) : bool :=
  match code c with
  | 9 | 10 | 11 | 12 | 13 | 32 | 160 => true
  | _ => false
  end%N.

Definition isDigit (c : ascii) : bool :=
  let n := code c in (48 <=? n)%N && (n <=? 57)%N.

(** The word characters of [\b]: [A-Za-z0-9_]. *)
Definition isWordChar (c : ascii) : bool :=
  let n := code c in
  ((65 <=? n)%N && (n <=? 90)%N) || ((97 <=? n)%N && (n <=? 122)%N)
  || isDigit c || (n =? 95)%N.

(** [String.prototype.toLowerCase] on one Latin-1 code unit: A-Z and the
    accented capitals U+00C0..U+00DE (except the multiplication sign). *)
Definition toLowerCaseChar (c : ascii) : ascii :=
  let n := code c in
  if ((65 <=? n)%N && (n <=? 90)%N)
     || ((192 <=? n)%N && (n <=? 222)%N && negb (n =? 215)%N)
  then ascii_of_N (n + 32) else c.

Fixpoint toLowerCase (s : string) : string :=
  match s with
  | EmptyString => EmptyString
  | String c s' => String (toLowerCaseChar c) (toLowerCase s')
  end.

Definition isEmpty (s : string) : bool :=
  match s with EmptyString => true | String _ _ => false end.

Fixpoint trimStart (s : string) : string :=
  match s with
  | EmptyString => EmptyString
  | String c s' => if isWhiteSpace c then trimStart s' else s
  end.

Fixpoint trimEnd (s : string) : string :=
  match s with
  | EmptyString => EmptyString
  | String c s' =>
      let t := trimEnd s' in
      if isWhiteSpace c && isEmpty t then EmptyString else String c t
  end.

Definition trim (s : string) : string := trimEnd (trimStart s).

(** [s.startsWith(p)] *)
Fixpoint startsWith (p s : string) : bool :=
  match p, s with
  | EmptyString, _ => true
  | String a p', String b s' => Ascii.eqb a b && startsWith p' s'
  | String _ _, EmptyString => false
  end.

(** [s.includes(k)] *)
Fixpoint includes (s k : string) : bool :=
  startsWith k s ||
  match s with
  | EmptyString => false
  | String _ s' => includes s' k
  end.

(** [arr.join(sep)] on an array of strings. *)
Fixpoint join (sep : string) (l : list string) : string :=
  match l with
  | [] => ""
  | [x] => x
  | x :: r => x +:+ sep +:+ join sep r
  end.

(** Template-literal rendering of an integer. *)
Definition showZ (n : Z) : string := NilZero.string_of_int (Z.to_int n).

(** [[...new Set(items)]]: first occurrences, in insertion order. *)
Fixpoint setAddAll (seen items : list string) : list string :=
  match items with
  | [] => seen
  | x :: r =>
      setAddAll (if existsb (String.eqb x) seen then seen else seen ++ [x]) r
  end.

Definition arrayFromSet (items : list string) : list string := setAddAll [] items.

End JSString.

(** ** A backtracking matcher for the regular expressions of the sources *)

Module JSRegExp.
Import JSString.

(** The constructs that occur in [categorization.ts] and in the category
    store: literals, classes, [\b], [^], sequence, alternation, [r?] and
    the greedy [c+] over a class. *)
Inductive regex : Type :=
| REmpty
| RChar (c : ascii)
| RSet (p : ascii -> bool)
| RWordB
| RBol
| RSeq (r1 r2 : regex)
| RAlt (r1 r2 : regex)
| ROpt (r : regex)
| RPlus (p : ascii -> bool).

(** Canonicalize of the [i] flag (no [u] flag): the upper-case mapping of
    a code unit when that is one code unit and does not send a non-ASCII
    unit into ASCII. *)
Definition canonicalize (c : ascii) : N :=
  let n := code c in
  if (97 <=? n)%N && (n <=? 122)%N then (n - 32)%N
  else if (224 <=? n)%N && (n <=? 254)%N && negb (n =? 247)%N then (n - 32)%N
  else if (n =? 255)%N then 376%N
  else if (n =? 181)%N then 924%N
  else n.

Definition charMatches (ignoreCase : bool) (c d : ascii) : bool :=
  if ignoreCase then (canonicalize c =? canonicalize d)%N else Ascii.eqb c d.

Definition isWordAt (o : option ascii) : bool :=
  match o with Some c => isWordChar c | None => false end.

Definition headChar (s : string) : option ascii :=
  match s with EmptyString => None | String c _ => Some c end.

Section Matcher.
Context {A : Type}.
Variable ignoreCase : bool.

(** Greedy [p+]: take as many as possible, give back one at a time. *)
Fixpoint plusK (p : ascii -> bool) (s : string)
    (k : option ascii -> string -> option A) : option A :=
  match s with
  | EmptyString => None
  | String c s' =>
      if p c then
        match plusK p s' k with
        | Some x => Some x
        | None => k (Some c) s'
        end
      else None
  end.

(** [prev] is the code unit before the current position ([None] at
    index 0), [s] the rest of the input, [k] the continuation. *)
Fixpoint rmatch (r : regex) (prev : option ascii) (s : string)
    (k : option ascii -> string -> option A) : option A :=
  match r with
  | REmpty => k prev s
  | RChar c =>
      match s with
      | String d s' => if charMatches ignoreCase c d then k (Some d) s' else None
      | EmptyString => None
      end
  | RSet p =>
      match s with
      | String d s' => if p d then k (Some d) s' else None
      | EmptyString => None
      end
  | RWordB =>
      if xorb (isWordAt prev) (isWordAt (headChar s)) then k prev s else None
  | RBol => match prev with None => k prev s | Some _ => None end
  | RSeq r1 r2 => rmatch r1 prev s (fun p' s' => rmatch r2 p' s' k)
  | RAlt r1 r2 =>
      match rmatch r1 prev s k with
      | Some x => Some x
      | None => rmatch r2 prev s k
      end
  | ROpt r1 =>
      match rmatch r1 prev s k with
      | Some x => Some x
      | None => k prev s
      end
  | RPlus p => plusK p s k
  end.
End Matcher.

(** A match attempt at the current position: the input left after the
    match, if any. *)
Definition exec (ic : bool) (r : regex) (prev : option ascii) (s : string)
    : option string :=
  rmatch ic r prev s (fun _ rest => Some rest).

(** [re.test(s)] for a non-sticky expression: a match at some position. *)
Fixpoint testFrom (ic : bool) (r : regex) (prev : option ascii) (s : string) : bool :=
  match exec ic r prev s with
  | Some _ => true
  | None =>
      match s with
      | EmptyString => false
      | String c s' => testFrom ic r (Some c) s'
      end
  end.

Definition test (ic : bool) (r : regex) (s : string) : bool := testFrom ic r None s.

(** [s.replace(re, rep)] with the [g] flag and a replacement free of [$]
    patterns. [skip] counts the code units of the current match that are
    still to be dropped. An empty match inserts [rep] and moves on by
    one. *)
Fixpoint replaceFrom (ic : bool) (r : regex) (rep : string)
    (prev : option ascii) (s : string) (skip : nat) : string :=
  match s with
  | EmptyString =>
      match skip, exec ic r prev s with
      | O, Some _ => rep
      | _, _ => EmptyString
      end
  | String c s' =>
      match skip with
      | S n => replaceFrom ic r rep (Some c) s' n
      | O =>
          match exec ic r prev s with
          | Some rest =>
              match String.length s - String.length rest with
              | O => rep +:+ String c (replaceFrom ic r rep (Some c) s' 0)
              | S m => rep +:+ replaceFrom ic r rep (Some c) s' m
              end
          | None => String c (replaceFrom ic r rep (Some c) s' 0)
          end
      end
  end.

Definition replaceAll (ic : bool) (r : regex) (rep : string) (s : string) : string :=
  replaceFrom ic r rep None s 0.

Definition consHead (c : ascii) (l : list string) : list string :=
  match l with
  | [] => [String c EmptyString]
  | seg :: segs => String c seg :: segs
  end.

(** [s.split(re)] for an expression without capture groups. [fresh] says
    that the segment being built is still empty (q = p in the
    specification of split), where an empty match is ignored. *)
Fixpoint splitFrom (ic : bool) (r : regex) (prev : option ascii) (s : string)
    (skip : nat) (fresh : bool) : list string :=
  match s with
  | EmptyString => [EmptyString]
  | String c s' =>
      match skip with
      | S n => splitFrom ic r (Some c) s' n true
      | O =>
          match exec ic r prev s with
          | Some rest =>
              match String.length s - String.length rest with
              | O =>
                  if fresh then consHead c (splitFrom ic r (Some c) s' 0 false)
                  else EmptyString :: consHead c (splitFrom ic r (Some c) s' 0 false)
              | S m => EmptyString :: splitFrom ic r (Some c) s' m true
              end
          | None => consHead c (splitFrom ic r (Some c) s' 0 false)
          end
      end
  end.

Definition split (ic : bool) (r : regex) (s : string) : list string :=
  match s with
  | EmptyString =>
      match exec ic r None s with Some _ => [] | None => [EmptyString] end
  | _ => splitFrom ic r None s 0 true
  end.

(** Regular-expression literals. *)
Fixpoint lit (s : string) : regex :=
  match s with
  | EmptyString => REmpty
  | String c EmptyString => RChar c
  | String c s' => RSeq (RChar c) (lit s')
  end.

Fixpoint alts (l : list regex) : regex :=
  match l with
  | [] => REmpty
  | [r] => r
  | r :: l' => RAlt r (alts l')
  end.

Fixpoint seqs (l : list regex) : regex :=
  match l with
  | [] => REmpty
  | [r] => r
  | r :: l' => RSeq r (seqs l')
  end.

End JSRegExp.

(** ** src/utils/categorization.ts *)

Module Categorization.
Import JSString JSRegExp.

(** [categoryKeywords]; [Object.entries] lists the keys in insertion
    order. *)
Definition categoryKeywords : list (string * list string) :=
  [ ("produce",
      ["tomato"; "lettuce"; "cucumber"; "carrot"; "potato"; "onion"; "garlic";
       "apple"; "banana"; "orange"; "grape"; "berry"; "lemon"; "lime";
       "avocado"; "spinach"; "broccoli"; "pepper"; "mushroom"; "salad";
       "fruit"; "vegetable"]);
    ("dairy",
      ["milk"; "cheese"; "yogurt"; "butter"; "cream"; "eggs"; "ice cream";
       "sour cream"; "cottage cheese"; "mozzarella"; "cheddar"; "parmesan"]);
    ("meat",
      ["chicken"; "beef"; "pork"; "fish"; "salmon"; "tuna"; "shrimp"; "turkey";
       "ham"; "bacon"; "sausage"; "steak"; "ground beef"; "lamb"]);
    ("bakery",
      ["bread"; "baguette"; "roll"; "bagel"; "croissant"; "muffin"; "cake";
       "pastry"; "donut"]);
    ("frozen",
      ["frozen"; "popsicle"; "frozen pizza"; "frozen vegetables"; "frozen meals"]);
    ("pantry",
      ["pasta"; "rice"; "flour"; "sugar"; "salt"; "pepper"; "oil"; "vinegar";
       "sauce"; "can"; "jar"; "cereal"; "oatmeal"; "beans"; "soup";
       "tomato sauce"]);
    ("beverages",
      ["water"; "juice"; "soda"; "coffee"; "tea"; "beer"; "wine"; "drink";
       "beverage"; "cola"]);
    ("snacks",
      ["chips"; "cookie"; "candy"; "chocolate"; "popcorn"; "crackers"; "nuts";
       "pretzels"; "snack"]);
    ("household",
      ["soap"; "shampoo"; "toothpaste"; "paper towel"; "toilet paper";
       "detergent"; "cleaner"; "dish soap"; "trash bags"; "tissue"]) ].

(** The inner loop: does some keyword of the list occur in the name? *)
Fixpoint anyKeyword (normalized : string) (keywords : list string) : bool :=
  match keywords with
  | [] => false
  | keyword :: rest =>
      if includes normalized keyword then true else anyKeyword normalized rest
  end.

(** The outer loop with its early return, and the final ['other']. *)
Fixpoint scanCategories (normalized : string)
    (entries : list (string * list string)) : string :=
  match entries with
  | [] => "other"
  | (category, keywords) :: rest =>
      if anyKeyword normalized keywords then category
      else scanCategories normalized rest
  end.

(** [if (preferredCategory)]: [undefined], [null] and the empty string
    are falsy. [None] stands for [undefined] and [null]. *)
Definition truthy (preferredCategory : option string) : bool :=
  match preferredCategory with
  | Some p => negb (isEmpty p)
  | None => false
  end.

(** The fall-back of [categorizeItem]: keyword matching on the
    normalized name. *)
Definition keywordCategory (itemName : string) : string :=
  let normalized := trim (toLowerCase itemName) in
  scanCategories normalized categoryKeywords.

Definition categorizeItem (itemName : string) (preferredCategory : option string)
    : string :=
  if truthy preferredCategory then default "" preferredCategory
  else keywordCategory itemName.

(** [/\b(a\s+)?dozen\s+/gi] *)
Definition reDozen : regex :=
  seqs [RWordB; ROpt (RSeq (RChar "a") (RPlus isWhiteSpace)); lit "dozen";
        RPlus isWhiteSpace].

(** [/\b\d+\s+(bottles?|cans?|boxes?|bags?|jars?)\s+of\s+/gi] *)
Definition reCountedContainer : regex :=
  seqs [RWordB; RPlus isDigit; RPlus isWhiteSpace;
        alts [RSeq (lit "bottle") (ROpt (RChar "s"));
              RSeq (lit "can") (ROpt (RChar "s"));
              RSeq (lit "boxe") (ROpt (RChar "s"));
              RSeq (lit "bag") (ROpt (RChar "s"));
              RSeq (lit "jar") (ROpt (RChar "s"))];
        RPlus isWhiteSpace; lit "of"; RPlus isWhiteSpace].

(** [/\b(a|an|the)\s+(bottle|can|box|bag|jar)\s+of\s+/gi] *)
Definition reArticleContainer : regex :=
  seqs [RWordB; alts [lit "a"; lit "an"; lit "the"]; RPlus isWhiteSpace;
        alts [lit "bottle"; lit "can"; lit "box"; lit "bag"; lit "jar"];
        RPlus isWhiteSpace; lit "of"; RPlus isWhiteSpace].

Definition isCommaOrNewline (c : ascii) : bool :=
  match code c with 44 | 10 => true | _ => false end%N.

(** [/[,\n]|(?:\s+and\s+)/gi] *)
Definition reSeparator : regex :=
  RAlt (RSet isCommaOrNewline)
       (seqs [RPlus isWhiteSpace; lit "and"; RPlus isWhiteSpace]).

(** [/^(add|get|buy|need|want|purchase|pick up|grab)\s+/gi] *)
Definition reVerbPrefix : regex :=
  seqs [RBol;
        alts [lit "add"; lit "get"; lit "buy"; lit "need"; lit "want";
              lit "purchase"; lit "pick up"; lit "grab"];
        RPlus isWhiteSpace].

(** [/^(i need|i want|i'm getting|im getting|i'd like|id like|please add|please get)\s+/gi] *)
Definition rePhrasePrefix : regex :=
  seqs [RBol;
        alts [lit "i need"; lit "i want"; lit "i'm getting"; lit "im getting";
              lit "i'd like"; lit "id like"; lit "please add"; lit "please get"];
        RPlus isWhiteSpace].

(** [/^(a|an|the|some)\s+/gi] *)
Definition reArticlePrefix : regex :=
  seqs [RBol; alts [lit "a"; lit "an"; lit "the"; lit "some"];
        RPlus isWhiteSpace].

(** The callback of [.map] in [parseItemsFromText]. *)
Definition cleanItem (item : string) : string :=
  let trimmed := trim item in
  let trimmed := replaceAll true reVerbPrefix "" trimmed in
  let trimmed := replaceAll true rePhrasePrefix "" trimmed in
  let trimmed := replaceAll true reArticlePrefix "" trimmed in
  trimmed.

Definition parseItemsFromText (input : string) : list string :=
  if isEmpty (trim input) then []
  else
    let processedInput := input in
    let processedInput := replaceAll true reDozen "" processedInput in
    let processedInput := replaceAll true reCountedContainer "" processedInput in
    let processedInput := replaceAll true reArticleContainer "" processedInput in
    let items :=
      List.filter (fun item => negb (isEmpty item))
        (List.map cleanItem (split true reSeparator processedInput)) in
    arrayFromSet items.

(** [name.trim().replace(/\s+/g, ' ')] *)
Definition sanitizeItemName (name : string) : string :=
  replaceAll false (RPlus isWhiteSpace) " " (trim name).

End Categorization.


(** ** Run-time values, exceptions and the entities of src/db

    Numbers (timestamps, quantities, sort orders) are integers. *)

Module Data.
Import JSString.

(** The values a parsed backup file can hold ([unknown] in the sources). *)
#[local] Unset Elimination Schemes.
Inductive jsval : Type :=
| VUndefined
| VNull
| VBool (b : bool)
| VNum (n : Z)
| VNaN
| VStr (s : string)
| VArr (elems : list jsval)
| VObj (fields : list (string * jsval)).
#[local] Set Elimination Schemes.

(** [!v] is [negb (truthyV v)]. *)
Definition truthyV (v : jsval) : bool :=
  match v with
  | VUndefined | VNull | VNaN => false
  | VBool b => b
  | VNum n => negb (n =? 0)%Z
  | VStr s => negb (isEmpty s)
  | VArr _ | VObj _ => true
  end.

(** [typeof v === 'object'] *)
Definition typeofObject (v : jsval) : bool :=
  match v with VNull | VArr _ | VObj _ => true | _ => false end.

(** [typeof v === 'number'] *)
Definition typeofNumber (v : jsval) : bool :=
  match v with VNum _ | VNaN => true | _ => false end.

Definition isArray (v : jsval) : bool :=
  match v with VArr _ => true | _ => false end.

Fixpoint lookupField (k : string) (fields : list (string * jsval)) : jsval :=
  match fields with
  | [] => VUndefined
  | (k', v) :: rest => if String.eqb k k' then v else lookupField k rest
  end.

(** [v.k] for a named (non-index, non-length) property of an object. *)
Definition getProp (v : jsval) (k : string) : jsval :=
  match v with
  | VObj fields => lookupField k fields
  | _ => VUndefined
  end.

Inductive exn : Type :=
| Error (message : string)
| TypeError (message : string)
| ConstraintError (message : string).

Definition message (e : exn) : string :=
  match e with Error m | TypeError m | ConstraintError m => m end.

Inductive result (A : Type) : Type :=
| Ok (a : A)
| Throw (e : exn).
Arguments Ok {A} a.
Arguments Throw {A} e.

Record ShoppingList : Type := mkShoppingList {
  l_id : string;
  l_name : string;
  l_createdAt : Z;
  l_updatedAt : Z;
  l_archived : bool;
  l_color : option string }.

Record ShoppingItem : Type := mkShoppingItem {
  i_id : string;
  i_listId : string;
  i_name : string;
  i_quantity : Z;
  i_unit : option string;
  i_category : string;
  i_completed : bool;
  i_addedAt : Z;
  i_completedAt : option Z;
  i_barcode : option string;
  i_notes : option string }.

Record Category : Type := mkCategory {
  c_id : string;
  c_name : string;
  c_icon : option string;
  c_sortOrder : Z }.

Record Product : Type := mkProduct {
  p_barcode : string;
  p_name : string;
  p_category : string;
  p_lastUsed : Z }.

Record CategoryPreference : Type := mkCategoryPreference {
  cp_itemName : string;
  cp_category : string;
  cp_learnedAt : Z }.

(** [BackupData] as it reaches [importBackup] at run time: the file may
    lack a field or hold something else in its place, so [version] and
    [timestamp] are raw values and an array field is [None] when the
    value there is not an array (for the two optional-checked fields:
    when it is falsy). A snapshot is a value read from a file; it shares
    no array with the live stores. *)
Record BackupData : Type := mkBackupData {
  version : jsval;
  timestamp : jsval;
  lists : option (list ShoppingList);
  items : option (list ShoppingItem);
  customCategories : option (list Category);
  products : option (list Product);
  categoryPreferences : option (list (string * string));
  categoryOrder : option (list string) }.

Definition optField (k : string) (o : option jsval) : list (string * jsval) :=
  match o with Some v => [(k, v)] | None => [] end.

Definition jsOfList (l : ShoppingList) : jsval :=
  VObj ([("id", VStr (l_id l)); ("name", VStr (l_name l));
         ("createdAt", VNum (l_createdAt l)); ("updatedAt", VNum (l_updatedAt l));
         ("archived", VBool (l_archived l))]
        ++ optField "color" (VStr <$> l_color l)).

Definition jsOfItem (i : ShoppingItem) : jsval :=
  VObj ([("id", VStr (i_id i)); ("listId", VStr (i_listId i));
         ("name", VStr (i_name i)); ("quantity", VNum (i_quantity i))]
        ++ optField "unit" (VStr <$> i_unit i)
        ++ [("category", VStr (i_category i)); ("completed", VBool (i_completed i));
            ("addedAt", VNum (i_addedAt i))]
        ++ optField "completedAt" (VNum <$> i_completedAt i)
        ++ optField "barcode" (VStr <$> i_barcode i)
        ++ optField "notes" (VStr <$> i_notes i)).

Definition jsOfCategory (c : Category) : jsval :=
  VObj ([("id", VStr (c_id c)); ("name", VStr (c_name c))]
        ++ optField "icon" (VStr <$> c_icon c)
        ++ [("sortOrder", VNum (c_sortOrder c))]).

Definition jsOfProduct (p : Product) : jsval :=
  VObj [("barcode", VStr (p_barcode p)); ("name", VStr (p_name p));
        ("category", VStr (p_category p)); ("lastUsed", VNum (p_lastUsed p))].

Definition jsOfArray {A} (f : A -> jsval) (o : option (list A)) : jsval :=
  match o with Some l => VArr (List.map f l) | None => VUndefined end.

(** The object [validateBackup] inspects when handed a [BackupData]. *)
Definition jsOfBackup (b : BackupData) : jsval :=
  VObj [("version", version b); ("timestamp", timestamp b);
        ("lists", jsOfArray jsOfList (lists b));
        ("items", jsOfArray jsOfItem (items b));
        ("customCategories", jsOfArray jsOfCategory (customCategories b));
        ("products", jsOfArray jsOfProduct (products b));
        ("categoryPreferences",
           match categoryPreferences b with
           | Some kv => VObj (List.map (fun p => (fst p, VStr (snd p))) kv)
           | None => VUndefined
           end);
        ("categoryOrder", jsOfArray VStr (categoryOrder b))].

End Data.

(** ** composables/useBackup: validateBackup *)

Module Validate.
Import JSString Data.

Record BackupValidationResult : Type := mkValidation {
  valid : bool;
  errors : list string }.

(** [errors.push(msg)] under a condition. *)
Definition pushIf (cond : bool) (msg : string) (errors : list string) : list string :=
  if cond then errors ++ [msg] else errors.

(** The six field checks before the version-compatibility check. *)
Definition shapeErrors (backup : jsval) : list string :=
  let errors := [] in
  let errors := pushIf (negb (truthyV (getProp backup "version")))
                  "Missing version field" errors in
  let errors := pushIf (negb (typeofNumber (getProp backup "timestamp")))
                  "Missing or invalid timestamp field" errors in
  let errors := pushIf (negb (isArray (getProp backup "lists")))
                  "Missing or invalid lists array" errors in
  let errors := pushIf (negb (isArray (getProp backup "items")))
                  "Missing or invalid items array" errors in
  let errors := pushIf (negb (isArray (getProp backup "customCategories")))
                  "Missing or invalid customCategories array" errors in
  let errors := pushIf (negb (isArray (getProp backup "products")))
                  "Missing or invalid products array" errors in
  errors.

(** [validateBackup]. A truthy [version] that is not a string has no
    [startsWith] method, and calling it raises a TypeError. *)
Definition validateBackup (data : jsval) : result BackupValidationResult :=
  if negb (truthyV data) || negb (typeofObject data) then
    Ok {| valid := false; errors := ["Backup data must be an object"] |}
  else
    let backup := data in
    let errors := shapeErrors backup in
    let v := getProp backup "version" in
    if truthyV v then
      match v with
      | VStr s =>
          let errors :=
            pushIf (negb (startsWith "1." s))
                   ("Incompatible backup version: " +:+ s) errors in
          Ok {| valid := (length errors =? 0)%nat; errors := errors |}
      | _ => Throw (TypeError "backup.version.startsWith is not a function")
      end
    else Ok {| valid := (length errors =? 0)%nat; errors := errors |}.

End Validate.


(** ** The persisted tables, the Pinia stores and the effect monad *)

Module State.
Import JSString Data.

(** The Dexie database: one table per entity, keyed by its primary key. *)
Record DB : Type := mkDB {
  db_lists : gmap string ShoppingList;
  db_items : gmap string ShoppingItem;
  db_categories : gmap string Category;
  db_products : gmap string Product;
  db_categoryPreferences : gmap string CategoryPreference }.

Record ListsStore : Type := mkListsStore {
  ls_lists : list ShoppingList;
  ls_loading : bool;
  ls_error : option string }.

Record ItemsStore : Type := mkItemsStore {
  is_items : gmap string (list ShoppingItem);
  is_loading : bool;
  is_error : option string }.

Record CategoriesStore : Type := mkCategoriesStore {
  cs_customCategories : list Category;
  cs_categoryOrder : list string;
  cs_loading : bool;
  cs_error : option string }.

Record ProductsStore : Type := mkProductsStore {
  ps_products : list Product }.

Record PreferencesStore : Type := mkPreferencesStore {
  pf_preferences : gmap string string;
  pf_loading : bool;
  pf_error : option string }.

(** Everything an action can read or write. [uuidCalls] and [clockReads]
    count the calls of [uuidv4()] and [Date.now()] made so far. *)
Record World : Type := mkWorld {
  db : DB;
  listsStore : ListsStore;
  itemsStore : ItemsStore;
  categoriesStore : CategoriesStore;
  productsStore : ProductsStore;
  preferencesStore : PreferencesStore;
  localStorage : gmap string string;
  uuidCalls : nat;
  clockReads : nat }.

Definition updDb (f : DB -> DB) (w : World) : World :=
  mkWorld (f (db w)) (listsStore w) (itemsStore w) (categoriesStore w)
    (productsStore w) (preferencesStore w) (localStorage w) (uuidCalls w)
    (clockReads w).
Definition updListsStore (f : ListsStore -> ListsStore) (w : World) : World :=
  mkWorld (db w) (f (listsStore w)) (itemsStore w) (categoriesStore w)
    (productsStore w) (preferencesStore w) (localStorage w) (uuidCalls w)
    (clockReads w).
Definition updItemsStore (f : ItemsStore -> ItemsStore) (w : World) : World :=
  mkWorld (db w) (listsStore w) (f (itemsStore w)) (categoriesStore w)
    (productsStore w) (preferencesStore w) (localStorage w) (uuidCalls w)
    (clockReads w).
Definition updCategoriesStore (f : CategoriesStore -> CategoriesStore) (w : World)
    : World :=
  mkWorld (db w) (listsStore w) (itemsStore w) (f (categoriesStore w))
    (productsStore w) (preferencesStore w) (localStorage w) (uuidCalls w)
    (clockReads w).
Definition updProductsStore (f : ProductsStore -> ProductsStore) (w : World) : World :=
  mkWorld (db w) (listsStore w) (itemsStore w) (categoriesStore w)
    (f (productsStore w)) (preferencesStore w) (localStorage w) (uuidCalls w)
    (clockReads w).
Definition updPreferencesStore (f : PreferencesStore -> PreferencesStore) (w : World)
    : World :=
  mkWorld (db w) (listsStore w) (itemsStore w) (categoriesStore w)
    (productsStore w) (f (preferencesStore w)) (localStorage w) (uuidCalls w)
    (clockReads w).
Definition updLocalStorage (f : gmap string string -> gmap string string) (w : World)
    : World :=
  mkWorld (db w) (listsStore w) (itemsStore w) (categoriesStore w)
    (productsStore w) (preferencesStore w) (f (localStorage w)) (uuidCalls w)
    (clockReads w).
Definition tickUuid (w : World) : World :=
  mkWorld (db w) (listsStore w) (itemsStore w) (categoriesStore w)
    (productsStore w) (preferencesStore w) (localStorage w) (S (uuidCalls w))
    (clockReads w).
Definition tickClock (w : World) : World :=
  mkWorld (db w) (listsStore w) (itemsStore w) (categoriesStore w)
    (productsStore w) (preferencesStore w) (localStorage w) (uuidCalls w)
    (S (clockReads w)).

Definition updDbLists (f : gmap string ShoppingList -> gmap string ShoppingList)
    (d : DB) : DB :=
  mkDB (f (db_lists d)) (db_items d) (db_categories d) (db_products d)
    (db_categoryPreferences d).
Definition updDbItems (f : gmap string ShoppingItem -> gmap string ShoppingItem)
    (d : DB) : DB :=
  mkDB (db_lists d) (f (db_items d)) (db_categories d) (db_products d)
    (db_categoryPreferences d).
Definition updDbCategories (f : gmap string Category -> gmap string Category)
    (d : DB) : DB :=
  mkDB (db_lists d) (db_items d) (f (db_categories d)) (db_products d)
    (db_categoryPreferences d).
Definition updDbProducts (f : gmap string Product -> gmap string Product)
    (d : DB) : DB :=
  mkDB (db_lists d) (db_items d) (db_categories d) (f (db_products d))
    (db_categoryPreferences d).
Definition updDbPreferences
    (f : gmap string CategoryPreference -> gmap string CategoryPreference)
    (d : DB) : DB :=
  mkDB (db_lists d) (db_items d) (db_categories d) (db_products d)
    (f (db_categoryPreferences d)).

(** An asynchronous action, awaited in sequence: a state transformer that
    returns or throws. What was written before a throw stays written. *)
Definition M (A : Type) : Type := World -> result A * World.

Definition ret {A} (a : A) : M A := fun w => (Ok a, w).
Definition bind {A B} (m : M A) (k : A -> M B) : M B :=
  fun w =>
    match m w with
    | (Ok a, w') => k a w'
    | (Throw e, w') => (Throw e, w')
    end.
Definition throw {A} (e : exn) : M A := fun w => (Throw e, w).
Definition gets {A} (f : World -> A) : M A := fun w => (Ok (f w), w).
Definition modify (f : World -> World) : M unit := fun w => (Ok tt, f w).
Definition lift {A} (r : result A) : M A := fun w => (r, w).
(** [try { m } catch (e) { h(e) }] *)
Definition tryCatch {A} (m : M A) (h : exn -> M A) : M A :=
  fun w =>
    match m w with
    | (Ok a, w') => (Ok a, w')
    | (Throw e, w') => h e w'
    end.

Declare Scope action_scope.
Notation "x ← y ; z" := (bind y (fun x => z))
  (at level 20, y at level 100, z at level 200, only parsing) : action_scope.
Notation "x ;; z" := (bind x (fun _ => z))
  (at level 100, z at level 200, only parsing, right associativity) : action_scope.

(** [for (const x of xs) { await body(x) }] *)
Fixpoint forOf {A} (xs : list A) (body : A -> M unit) : M unit :=
  match xs with
  | [] => ret tt
  | x :: rest => bind (body x) (fun _ => forOf rest body)
  end.

(** Iterating a value that is not an array throws. *)
Definition iterable {A} (field : string) (o : option (list A)) : M (list A) :=
  match o with
  | Some l => ret l
  | None => throw (TypeError (field +:+ " is not iterable"))
  end.

(** The frame every store action shares:
    [loading = true; error = null; try { body } catch (e) { error =
    e.message; throw e } finally { loading = false }].
    With [rethrow = false] the catch block swallows the exception and the
    action yields [dflt]. *)
Definition action {A} (setLoading : bool -> World -> World)
    (setError : option string -> World -> World) (rethrow : bool) (dflt : A)
    (body : M A) : M A :=
  fun w =>
    match body (setError None (setLoading true w)) with
    | (Ok a, w') => (Ok a, setLoading false w')
    | (Throw e, w') =>
        (if rethrow then Throw e else Ok dflt,
         setLoading false (setError (Some (message e)) w'))
    end.

(** Dexie table primitives. [toArray] yields the rows of a table; Dexie
    returns them in primary-key order, and no property below depends on
    the order chosen here. The message of the ConstraintError is worded
    by the browser's IndexedDB, not by this repository: the text below
    stands for it, and no property states it. *)
Definition tableAdd {V} (k : string) (v : V) (t : gmap string V)
    : result (gmap string V) :=
  match t !! k with
  | Some _ => Throw (ConstraintError "Key already exists in the object store.")
  | None => Ok (<[k := v]> t)
  end.

Definition toArray {V} (t : gmap string V) : list V := (map_to_list t).*2.

(** [arr.find(p)] followed by a mutation of the element found. *)
Fixpoint updateFirst {A} (p : A -> bool) (f : A -> A) (l : list A) : list A :=
  match l with
  | [] => []
  | x :: rest => if p x then f x :: rest else x :: updateFirst p f rest
  end.

(** An action whose final world is related to its initial one by [R],
    whether it returns or throws. *)
Definition ensures {A} (R : relation World) (m : M A) : Prop :=
  forall w, R w (m w).2.

(** The relation of two worlds that agree on an observation. *)
Definition same {X} (f : World -> X) : relation World :=
  fun w w' => f w' = f w.

(** An action that never throws a plain [Error]. *)
Definition noError {A} (m : M A) : Prop :=
  forall w msg, (m w).1 <> Throw (Error msg).

End State.

(** ** The application: database composables, stores, backup import and
    category changes *)

Module App.
Import JSString JSRegExp Data Validate State.
Local Open Scope action_scope.

(** constants/categories.ts *)
Definition DEFAULT_CATEGORIES : list Category :=
  [ mkCategory "produce" "Produce" (Some "🥬") 1;
    mkCategory "dairy" "Dairy" (Some "🥛") 2;
    mkCategory "meat" "Meat & Seafood" (Some "🥩") 3;
    mkCategory "bakery" "Bakery" (Some "🍞") 4;
    mkCategory "frozen" "Frozen Foods" (Some "🧊") 5;
    mkCategory "pantry" "Pantry" (Some "🥫") 6;
    mkCategory "beverages" "Beverages" (Some "🥤") 7;
    mkCategory "snacks" "Snacks" (Some "🍪") 8;
    mkCategory "household" "Household" (Some "🧹") 9;
    mkCategory "other" "Other" (Some "📦") 10 ].

Definition listsSetLoading (b : bool) : World -> World :=
  updListsStore (fun s => mkListsStore (ls_lists s) b (ls_error s)).
Definition listsSetError (e : option string) : World -> World :=
  updListsStore (fun s => mkListsStore (ls_lists s) (ls_loading s) e).
Definition listsSet (f : list ShoppingList -> list ShoppingList) : World -> World :=
  updListsStore (fun s => mkListsStore (f (ls_lists s)) (ls_loading s) (ls_error s)).

Definition itemsSetLoading (b : bool) : World -> World :=
  updItemsStore (fun s => mkItemsStore (is_items s) b (is_error s)).
Definition itemsSetError (e : option string) : World -> World :=
  updItemsStore (fun s => mkItemsStore (is_items s) (is_loading s) e).
Definition itemsSet
    (f : gmap string (list ShoppingItem) -> gmap string (list ShoppingItem))
    : World -> World :=
  updItemsStore (fun s => mkItemsStore (f (is_items s)) (is_loading s) (is_error s)).

Definition categoriesSetLoading (b : bool) : World -> World :=
  updCategoriesStore (fun s =>
    mkCategoriesStore (cs_customCategories s) (cs_categoryOrder s) b (cs_error s)).
Definition categoriesSetError (e : option string) : World -> World :=
  updCategoriesStore (fun s =>
    mkCategoriesStore (cs_customCategories s) (cs_categoryOrder s) (cs_loading s) e).
Definition customCategoriesSet (f : list Category -> list Category) : World -> World :=
  updCategoriesStore (fun s =>
    mkCategoriesStore (f (cs_customCategories s)) (cs_categoryOrder s)
      (cs_loading s) (cs_error s)).
Definition categoryOrderSet (o : list string) : World -> World :=
  updCategoriesStore (fun s =>
    mkCategoriesStore (cs_customCategories s) o (cs_loading s) (cs_error s)).

Definition productsSet (f : list Product -> list Product) : World -> World :=
  updProductsStore (fun s => mkProductsStore (f (ps_products s))).

Definition preferencesSetLoading (b : bool) : World -> World :=
  updPreferencesStore (fun s =>
    mkPreferencesStore (pf_preferences s) b (pf_error s)).
Definition preferencesSetError (e : option string) : World -> World :=
  updPreferencesStore (fun s =>
    mkPreferencesStore (pf_preferences s) (pf_loading s) e).
Definition preferencesSet (f : gmap string string -> gmap string string)
    : World -> World :=
  updPreferencesStore (fun s =>
    mkPreferencesStore (f (pf_preferences s)) (pf_loading s) (pf_error s)).

(** [table.add(row)]: rejects with a ConstraintError when the key is taken. *)
Definition tableAddM {V} (get : DB -> gmap string V)
    (upd : (gmap string V -> gmap string V) -> DB -> DB) (k : string) (v : V)
    : M unit :=
  fun w =>
    match tableAdd k v (get (db w)) with
    | Ok t => (Ok tt, updDb (upd (fun _ => t)) w)
    | Throw e => (Throw e, w)
    end.

(** Stable sort of the custom categories by [sortOrder]. *)
Fixpoint insertBySortOrder (c : Category) (l : list Category) : list Category :=
  match l with
  | [] => [c]
  | x :: rest =>
      if (c_sortOrder x <? c_sortOrder c)%Z then x :: insertBySortOrder c rest
      else c :: l
  end.

Definition sortBySortOrder (l : list Category) : list Category :=
  foldr insertBySortOrder [] l.

(** [name.toLowerCase().trim()], the normalized item name. *)
Definition normalizeItemName (name : string) : string := trim (toLowerCase name).

Definition sameId (id : string) (i : ShoppingItem) : bool := String.eqb (i_id i) id.

Definition setCategory (category : string) (i : ShoppingItem) : ShoppingItem :=
  mkShoppingItem (i_id i) (i_listId i) (i_name i) (i_quantity i) (i_unit i)
    category (i_completed i) (i_addedAt i) (i_completedAt i) (i_barcode i)
    (i_notes i).

Definition setCompleted (completed : bool) (completedAt : option Z)
    (i : ShoppingItem) : ShoppingItem :=
  mkShoppingItem (i_id i) (i_listId i) (i_name i) (i_quantity i) (i_unit i)
    (i_category i) completed (i_addedAt i) completedAt (i_barcode i) (i_notes i).

Definition setArchived (archived : bool) (updatedAt : Z) (l : ShoppingList)
    : ShoppingList :=
  mkShoppingList (l_id l) (l_name l) (l_createdAt l) updatedAt archived (l_color l).

(** [`custom_${name.toLowerCase().replace(/\s+/g, '_')}_${now}`] *)
Definition categoryId (name : string) (now : Z) : string :=
  "custom_" +:+ replaceAll false (RPlus isWhiteSpace) "_" (toLowerCase name)
  +:+ "_" +:+ showZ now.

Section Oracles.
(** The [n]-th result of [uuidv4()] and of [Date.now()], and the JSON
    codec on the two kinds of text kept in localStorage. A stored
    category order is taken to be either unparsable or the text of an
    array of strings. *)
Variable uuidv4 : nat -> string.
Variable Date_now : nat -> Z.
Variable JSON_stringify_order : list string -> string.
Variable JSON_parse_order : string -> option (list string).
Variable JSON_stringify_preferences : list (string * string) -> string.

Definition uuid : M string :=
  fun w => (Ok (uuidv4 (uuidCalls w)), tickUuid w).
Definition now : M Z :=
  fun w => (Ok (Date_now (clockReads w)), tickClock w).

(** *** composables/useDB: useListsDB *)

Definition listsDB_getAll : M (list ShoppingList) :=
  gets (fun w => toArray (db_lists (db w))).

Definition listsDB_create (name : string) (color : option string)
    : M ShoppingList :=
  id ← uuid;
  createdAt ← now;
  updatedAt ← now;
  let list := mkShoppingList id name createdAt updatedAt false color in
  tableAddM db_lists updDbLists (l_id list) list;;
  ret list.

Definition listsDB_archive (id : string) : M unit :=
  updatedAt ← now;
  modify (updDb (updDbLists (alter (setArchived true updatedAt) id))).

Definition listsDB_remove (id : string) : M unit :=
  modify (updDb (updDbLists (delete id)));;
  modify (updDb (updDbItems
    (filter (fun kv : string * ShoppingItem => i_listId kv.2 ≠ id)))).

(** *** composables/useDB: useItemsDB *)

Definition itemsDB_create (listId name category : string) (quantity : Z)
    (unit : option string) : M ShoppingItem :=
  id ← uuid;
  addedAt ← now;
  let item := mkShoppingItem id listId name quantity unit category false
                addedAt None None None in
  tableAddM db_items updDbItems (i_id item) item;;
  ret item.

Definition itemsDB_toggleComplete (id : string) : M unit :=
  item ← gets (fun w => db_items (db w) !! id);
  match item with
  | None => ret tt
  | Some item =>
      completedAt ←
        (if negb (i_completed item) then t ← now; ret (Some t) else ret None);
      modify (updDb (updDbItems
        (alter (setCompleted (negb (i_completed item)) completedAt) id)))
  end.

Definition itemsDB_updateByName (itemName : string)
    (updates : ShoppingItem -> ShoppingItem) : M nat :=
  let normalizedName := trim (toLowerCase itemName) in
  itemsToUpdate ← gets (fun w =>
    List.filter
      (fun kv : string * ShoppingItem =>
         String.eqb (trim (toLowerCase (i_name kv.2))) normalizedName)
      (map_to_list (db_items (db w))));
  modify (updDb (updDbItems (fun t =>
    foldr (fun (kv : string * ShoppingItem) t => alter updates kv.1 t) t
      itemsToUpdate)));;
  ret (length itemsToUpdate).

(** *** composables/useDB: useProductsDB *)

Definition productsDB_getAll : M (list Product) :=
  gets (fun w => toArray (db_products (db w))).
Definition productsDB_save (product : Product) : M unit :=
  modify (updDb (updDbProducts (<[p_barcode product := product]>))).
Definition productsDB_clear : M unit :=
  modify (updDb (updDbProducts (fun _ => ∅))).

(** *** stores/lists *)

Definition loadLists : M unit :=
  action listsSetLoading listsSetError false tt
    (all ← listsDB_getAll;
     modify (listsSet (fun _ => all))).

Definition createList (name : string) (color : option string) : M ShoppingList :=
  action listsSetLoading listsSetError true
    (mkShoppingList "" "" 0 0 false None)
    (list ← listsDB_create name color;
     modify (listsSet (fun ls => ls ++ [list]));;
     ret list).

Definition archiveList (id : string) : M unit :=
  action listsSetLoading listsSetError true tt
    (listsDB_archive id;;
     found ← gets (fun w =>
       List.find (fun l => String.eqb (l_id l) id) (ls_lists (listsStore w)));
     match found with
     | Some _ =>
         updatedAt ← now;
         modify (listsSet
           (updateFirst (fun l => String.eqb (l_id l) id)
              (setArchived true updatedAt)))
     | None => ret tt
     end).

Definition deleteList (id : string) : M unit :=
  action listsSetLoading listsSetError true tt
    (listsDB_remove id;;
     modify (listsSet (List.filter (fun l => negb (String.eqb (l_id l) id))))).

(** *** stores/items *)

Definition createItem (listId name category : string) (quantity : Z)
    (unit : option string) : M ShoppingItem :=
  action itemsSetLoading itemsSetError true
    (mkShoppingItem "" "" "" 0 None "" false 0 None None None)
    (item ← itemsDB_create listId name category quantity unit;
     modify (itemsSet (fun m =>
       let listItems := default [] (m !! listId) in
       <[listId := listItems ++ [item]]> m));;
     ret item).

Definition toggleItemComplete (listId id : string) : M unit :=
  action itemsSetLoading itemsSetError true tt
    (itemsDB_toggleComplete id;;
     listItems ← gets (fun w => default [] (is_items (itemsStore w) !! listId));
     match List.find (sameId id) listItems with
     | Some item =>
         let completed := negb (i_completed item) in
         completedAt ← (if completed then t ← now; ret (Some t) else ret None);
         modify (itemsSet
           (alter (updateFirst (sameId id) (setCompleted completed completedAt))
              listId))
     | None => ret tt
     end).

Definition updateItemsByName (itemName : string)
    (updates : ShoppingItem -> ShoppingItem) : M nat :=
  action itemsSetLoading itemsSetError true 0
    (count ← itemsDB_updateByName itemName updates;
     let normalizedName := trim (toLowerCase itemName) in
     modify (itemsSet (fmap (List.map (fun item =>
       if String.eqb (trim (toLowerCase (i_name item))) normalizedName
       then updates item else item))));;
     ret count).

(** *** stores/categories *)

Definition allCategories (w : World) : list Category :=
  DEFAULT_CATEGORIES ++ cs_customCategories (categoriesStore w).

Definition getCategoryById (w : World) (id : string) : option Category :=
  List.find (fun cat => String.eqb (c_id cat) id) (allCategories w).

Definition loadCustomCategories : M unit :=
  action categoriesSetLoading categoriesSetError false tt
    (categories ← gets (fun w => toArray (db_categories (db w)));
     modify (customCategoriesSet (fun _ => sortBySortOrder categories)));;
  savedOrder ← gets (fun w => localStorage w !! "categoryOrder");
  match savedOrder with
  | Some text =>
      if isEmpty text then ret tt
      else
        match JSON_parse_order text with
        | Some order => modify (categoryOrderSet order)
        | None => modify (categoryOrderSet [])
        end
  | None => ret tt
  end.

Definition saveCategoryOrder (newOrder : list string) : M unit :=
  modify (categoryOrderSet newOrder);;
  modify (updLocalStorage (<["categoryOrder" := JSON_stringify_order newOrder]>)).

Definition createCategory (name icon : string) : M Category :=
  action categoriesSetLoading categoriesSetError true
    (mkCategory "" "" None 0)
    (t ← now;
     let id := categoryId name t in
     maxSortOrder ← gets (fun w =>
       foldr Z.max (Z.of_nat (length DEFAULT_CATEGORIES))
         (List.map c_sortOrder (allCategories w)));
     let category := mkCategory id name (Some icon) (maxSortOrder + 1) in
     tableAddM db_categories updDbCategories (c_id category) category;;
     modify (customCategoriesSet (fun cs => cs ++ [category]));;
     ret category).

Definition deleteCategory (id : string) : M unit :=
  action categoriesSetLoading categoriesSetError true tt
    (modify (updDb (updDbCategories (delete id)));;
     modify (customCategoriesSet
       (List.filter (fun cat => negb (String.eqb (c_id cat) id))))).

(** *** stores/products *)

Definition loadProducts : M unit :=
  all ← productsDB_getAll;
  modify (productsSet (fun _ => all)).

Fixpoint replaceOrPush (newProduct : Product) (l : list Product) : list Product :=
  match l with
  | [] => [newProduct]
  | p :: rest =>
      if String.eqb (p_barcode p) (p_barcode newProduct) then newProduct :: rest
      else p :: replaceOrPush newProduct rest
  end.

Definition saveProduct (barcode name category : string) : M Product :=
  lastUsed ← now;
  let newProduct := mkProduct barcode name category lastUsed in
  productsDB_save newProduct;;
  modify (productsSet (replaceOrPush newProduct));;
  ret newProduct.

Definition clearProducts : M unit :=
  productsDB_clear;;
  modify (productsSet (fun _ => [])).

(** *** stores/preferences *)

Definition getPreferredCategory (w : World) (itemName : string) : option string :=
  match pf_preferences (preferencesStore w) !! normalizeItemName itemName with
  | Some c => if isEmpty c then None else Some c
  | None => None
  end.

Definition savePreference (itemName category : string) : M unit :=
  action preferencesSetLoading preferencesSetError true tt
    (let normalized := normalizeItemName itemName in
     learnedAt ← now;
     let preference := mkCategoryPreference normalized category learnedAt in
     modify (updDb (updDbPreferences (<[normalized := preference]>)));;
     modify (preferencesSet (<[normalized := category]>))).

(** *** composables/useBackup: importBackup *)

(** [category.icon || '📦'] *)
Definition iconOrDefault (category : Category) : string :=
  match c_icon category with
  | Some icon => if isEmpty icon then "📦" else icon
  | None => "📦"
  end.

(** The body of the inner loop: one item of the list being restored. *)
Definition restoreItem (newList : ShoppingList) (item : ShoppingItem) : M unit :=
  newItem ← createItem (l_id newList) (i_name item) (i_category item) 1 None;
  if i_completed item then toggleItemComplete (l_id newList) (i_id newItem)
  else ret tt.

(** The body of the outer loop: one list and its items. *)
Definition restoreList (backupData : BackupData) (list : ShoppingList) : M unit :=
  newList ← createList (l_name list) (l_color list);
  (if l_archived list then archiveList (l_id newList) else ret tt);;
  allItems ← iterable "backupData.items.filter(...)" (items backupData);
  let listItems :=
    List.filter (fun item => String.eqb (i_listId item) (l_id list)) allItems in
  forOf listItems (restoreItem newList).

(** The destructive phase of a replace import. *)
Definition clearExisting : M unit :=
  listIds ← gets (fun w => List.map l_id (ls_lists (listsStore w)));
  forOf listIds deleteList;;
  clearProducts;;
  categoryIds ← gets (fun w =>
    List.map c_id (cs_customCategories (categoriesStore w)));
  forOf categoryIds deleteCategory.

(** What [importBackup] does once validation has passed. *)
Definition restore (backupData : BackupData) (merge : bool) : M unit :=
  (if negb merge then clearExisting else ret tt);;
  categories ← iterable "backupData.customCategories"
                 (customCategories backupData);
  forOf categories (fun category =>
    createCategory (c_name category) (iconOrDefault category);; ret tt);;
  prods ← iterable "backupData.products" (products backupData);
  forOf prods (fun product =>
    saveProduct (p_barcode product) (p_name product) (p_category product);;
    ret tt);;
  ls ← iterable "backupData.lists" (lists backupData);
  forOf ls (restoreList backupData);;
  match categoryPreferences backupData with
  | Some prefs =>
      modify (updLocalStorage
        (<["categoryPreferences" := JSON_stringify_preferences prefs]>))
  | None => ret tt
  end;;
  match categoryOrder backupData with
  | Some order =>
      if (0 <? length order)%nat then saveCategoryOrder order else ret tt
  | None => ret tt
  end;;
  loadLists;;
  loadProducts;;
  loadCustomCategories.

(** [options] is the [merge] flag when given; it defaults to [false]. *)
Definition importBackup (backupData : BackupData) (options : option bool)
    : M unit :=
  let merge := default false options in
  validation ← lift (validateBackup (jsOfBackup backupData));
  if negb (valid validation) then
    throw (Error ("Invalid backup: " +:+ join ", " (errors validation)))
  else restore backupData merge.

(** *** composables/useListCategories: handleChangeCategory

    The toast shown at the end is a display effect outside the state
    and is left out. *)
Definition handleChangeCategory (listId itemId newCategory : string) : M unit :=
  tryCatch
    (items ← gets (fun w => default [] (is_items (itemsStore w) !! listId));
     match List.find (sameId itemId) items with
     | None => ret tt
     | Some item =>
         savePreference (i_name item) newCategory;;
         count ← updateItemsByName (i_name item) (setCategory newCategory);
         ret tt
     end)
    (fun _ => ret tt).

End Oracles.
End App.


(** ** Definitions used to state the properties *)

Module SpecDefs.
Import JSString JSRegExp Categorization Data Validate State App.

(** A keyword that neither starts nor ends with white space. *)
Definition firstNonWs (kw : string) : bool :=
  match kw with
  | EmptyString => false
  | String c _ => negb (isWhiteSpace c)
  end.

Fixpoint lastNonWs (kw : string) : bool :=
  match kw with
  | EmptyString => false
  | String c EmptyString => negb (isWhiteSpace c)
  | String _ rest => lastNonWs rest
  end.

Definition keywordsTight (entries : list (string * list string)) : bool :=
  forallb (fun e => forallb (fun kw => firstNonWs kw && lastNonWs kw) (snd e)) entries.

(** The iteration order of the keyword index named by the specification. *)
Definition indexOrder : list string :=
  ["produce"; "dairy"; "meat"; "bakery"; "frozen"; "pantry"; "beverages";
   "snacks"; "household"].

Definition keywordsOf (category : string) : list string :=
  match List.find (fun e => String.eqb (fst e) category) categoryKeywords with
  | Some e => snd e
  | None => []
  end.

(** The resolver in the words of the specification: lower-case the name,
    take the first category of the index order one of whose keywords is
    a substring of it, else "other". *)
Definition categorizeSpec (itemName : string) : string :=
  let lowered := toLowerCase itemName in
  match List.find
          (fun category =>
             existsb (fun kw => includes lowered kw) (keywordsOf category))
          indexOrder with
  | Some category => category
  | None => "other"
  end.

(** The text has no separator and nothing [parseItemsFromText] strips:
    none of its seven expressions matches. *)
Definition plainText (s : string) : bool :=
  negb (test true reDozen s) && negb (test true reCountedContainer s)
  && negb (test true reArticleContainer s) && negb (test true reSeparator s)
  && negb (test true reVerbPrefix (trim s))
  && negb (test true rePhrasePrefix (trim s))
  && negb (test true reArticlePrefix (trim s)).

(** [final] is [base] with the rows [new] added under fresh, pairwise
    distinct keys, and nothing else changed. *)
Definition extends {V} (key : V -> string) (base final : gmap string V)
    (new : list V) : Prop :=
  NoDup (key <$> new) /\
  (forall v, v ∈ new -> base !! key v = None /\ final !! key v = Some v) /\
  (forall k v, final !! k = Some v ->
     (v ∈ new /\ key v = k) \/ base !! k = Some v) /\
  (forall k v, base !! k = Some v -> final !! k = Some v).

(** What the import keeps of a snapshot list: name, colour and archived
    flag. *)
Definition restoredList (l l' : ShoppingList) : Prop :=
  l_name l' = l_name l /\ l_color l' = l_color l /\ l_archived l' = l_archived l.

(** What the import keeps of a snapshot item, placed in the list
    [newListId]: name, category and completed flag; the quantity is 1
    and unit, barcode and notes are absent. *)
Definition restoredItem (newListId : string) (i i' : ShoppingItem) : Prop :=
  i_listId i' = newListId /\ i_name i' = i_name i /\
  i_category i' = i_category i /\ i_completed i' = i_completed i /\
  i_quantity i' = 1%Z /\ i_unit i' = None /\ i_barcode i' = None /\
  i_notes i' = None.

(** A restored list together with its restored items, in the order of
    the snapshot items that belong to the snapshot list. *)
Definition restoredGroup (its : list ShoppingItem) (l : ShoppingList)
    (g : ShoppingList * list ShoppingItem) : Prop :=
  restoredList l g.1 /\
  Forall2 (restoredItem (l_id g.1))
    (List.filter (fun item => String.eqb (i_listId item) (l_id l)) its) g.2.



(** The world in which the restoration starts. *)
Definition afterClear (merge : bool) (w : World) : World :=
  if merge then w else (clearExisting w).2.

(** The list and item tables of the database. *)
Definition listTables (w : World)
    : gmap string ShoppingList * gmap string ShoppingItem :=
  (db_lists (db w), db_items (db w)).

(** The lists held by the list store next to the list table. *)
Definition listViews (w : World) : list ShoppingList * gmap string ShoppingList :=
  (ls_lists (listsStore w), db_lists (db w)).

(** The custom categories: the table and what the store holds. *)
Definition categoryViews (w : World) : gmap string Category * list Category :=
  (db_categories (db w), cs_customCategories (categoriesStore w)).


(** What a category change does to one item: it takes the new category
    when its normalized name is [key]. *)
Definition recategorize (key newCategory : string) (item : ShoppingItem)
    : ShoppingItem :=
  if String.eqb (normalizeItemName (i_name item)) key
  then setCategory newCategory item else item.

(** The category display order as persisted in localStorage and as held
    by the category store. *)
Definition persistedOrder (w : World) : option string :=
  localStorage w !! "categoryOrder".

Definition loadedOrder (w : World) : list string :=
  cs_categoryOrder (categoriesStore w).

(** [w'] has the persisted order of [w], and its in-memory order is
    either that of [w] or what loading the persisted text gives. *)
Definition reloads (parse : string -> option (list string)) : relation World :=
  fun w w' =>
    persistedOrder w' = persistedOrder w /\
    (loadedOrder w' = loadedOrder w \/
     exists text, persistedOrder w = Some text /\ isEmpty text = false /\
                  loadedOrder w' = default [] (parse text)).

(** The store holds the order that loading would give. *)
Definition orderInSync (parse : string -> option (list string)) (w : World) : Prop :=
  match persistedOrder w with
  | Some text => isEmpty text = true \/ parse text = Some (loadedOrder w)
  | None => True
  end.

End SpecDefs.

(** ** Sample data for concrete runs *)

Module Samples.
Import JSString Data Validate State App.

(** The n-th identifier and the n-th clock reading of the sample runs. *)
Definition sampleUuid (n : nat) : string := "uuid-" +:+ showZ (Z.of_nat n).
Definition sampleClock (n : nat) : Z := 1700000000000 + Z.of_nat n.
Definition sampleStringifyOrder (l : list string) : string :=
  "[" +:+ join "," l +:+ "]".
Definition sampleParseOrder (text : string) : option (list string) :=
  if String.eqb text "[dairy,produce]" then Some ["dairy"; "produce"] else None.
Definition sampleStringifyPreferences (kv : list (string * string)) : string :=
  "{" +:+ join "," (List.map (fun p => fst p +:+ ":" +:+ snd p) kv) +:+ "}".

Definition emptyWorld : World :=
  mkWorld (mkDB ∅ ∅ ∅ ∅ ∅) (mkListsStore [] false None)
    (mkItemsStore ∅ false None) (mkCategoriesStore [] [] false None)
    (mkProductsStore []) (mkPreferencesStore ∅ false None) ∅ 0 0.

(** A snapshot with one archived list, two items (one completed, with
    quantity 6 and a unit; one in a custom category), one custom
    category and one product. *)
Definition sampleBackup : BackupData :=
  mkBackupData (VStr "1.0.0") (VNum 1690000000000)
    (Some [mkShoppingList "L1" "Groceries" 1 2 true (Some "red")])
    (Some [mkShoppingItem "I1" "L1" "Eggs" 6 (Some "pcs") "dairy" true 1
             (Some 2%Z) None None;
           mkShoppingItem "I2" "L1" "Treats" 1 None "custom_pets_1680000000000"
             false 1 None None None])
    (Some [mkCategory "custom_pets_1680000000000" "Pets" (Some "P") 11])
    (Some [mkProduct "123" "Eggs" "dairy" 4])
    (Some [("eggs", "dairy")]) (Some []).

(** A file with an unsupported version and no [items] array. *)
Definition brokenBackup : BackupData :=
  mkBackupData (VStr "2.0.0") (VNum 1690000000000) (Some []) None (Some [])
    (Some []) None None.

(** A store that already holds the custom category of [sampleBackup],
    loaded, and a saved category order. *)
Definition petsCategory : Category :=
  mkCategory "custom_pets_1680000000000" "Pets" (Some "P") 11.

Definition usedWorld : World :=
  mkWorld (mkDB ∅ ∅ {["custom_pets_1680000000000" := petsCategory]} ∅ ∅)
    (mkListsStore [] false None) (mkItemsStore ∅ false None)
    (mkCategoriesStore [petsCategory] ["dairy"; "produce"] false None)
    (mkProductsStore []) (mkPreferencesStore ∅ false None)
    {["categoryOrder" := "[dairy,produce]"]} 0 0.



(** Two loaded lists that both hold milk, spelled differently, and one
    other item. *)
Definition milkA : ShoppingItem :=
  mkShoppingItem "i1" "A" "Milk" 1 None "dairy" false 10 None None None.
Definition milkB : ShoppingItem :=
  mkShoppingItem "i2" "B" " milk " 2 None "dairy" true 11 (Some 12%Z) None None.
Definition breadB : ShoppingItem :=
  mkShoppingItem "i3" "B" "Bread" 1 None "bakery" false 13 None None None.

Definition milkWorld : World :=
  mkWorld
    (mkDB ∅ (<["i1" := milkA]> (<["i2" := milkB]> {["i3" := breadB]})) ∅ ∅ ∅)
    (mkListsStore [] false None)
    (mkItemsStore (<["A" := [milkA]]> {["B" := [milkB; breadB]]}) false None)
    (mkCategoriesStore [] [] false None)
    (mkProductsStore []) (mkPreferencesStore ∅ false None) ∅ 0 0.

Definition sampleImport (b : BackupData) (options : option bool) (w : World)
    : result unit * World :=
  importBackup sampleUuid sampleClock sampleStringifyOrder sampleParseOrder
    sampleStringifyPreferences b options w.

End Samples.

(** ** Shapes of item names *)

Module TextShapes.
Import JSString JSRegExp Categorization SpecDefs.

(** No white space at either end: the strings [trim] leaves alone. *)
Definition trimmed (s : string) : bool :=
  isEmpty s || (firstNonWs s && lastNonWs s).

(** Every white-space character is a space and is followed by a
    character that is not white space. *)
Fixpoint singleSpaced (s : string) : bool :=
  match s with
  | EmptyString => true
  | String c s' =>
      if isWhiteSpace c then Ascii.eqb c " " && firstNonWs s' && singleSpaced s'
      else singleSpaced s'
  end.

(** Each maximal run of white space replaced by [rep]; [inRun] says that
    the character before [s] belongs to a run already replaced. *)
Fixpoint collapseFrom (rep : string) (inRun : bool) (s : string) : string :=
  match s with
  | EmptyString => EmptyString
  | String c s' =>
      if isWhiteSpace c then
        if inRun then collapseFrom rep true s' else rep +:+ collapseFrom rep true s'
      else String c (collapseFrom rep false s')
  end.

(** [s] ends with [suffix]. *)
Definition endsWith (suffix s : string) : Prop := exists pre, s = pre +:+ suffix.

(** The next character, if any, is not in the class [p]. *)
Definition headNot (p : ascii -> bool) (s : string) : bool :=
  match s with
  | EmptyString => true
  | String c _ => negb (p c)
  end.

End TextShapes.

(** ** The other actions of the database composables and of the stores,
    the backup export, the list exchange format and the handlers of the
    list view *)

Module Stores.
Import JSString JSRegExp Categorization Data Validate State App.
Local Open Scope action_scope.

Definition setUpdatedAt (updatedAt : Z) (l : ShoppingList) : ShoppingList :=
  mkShoppingList (l_id l) (l_name l) (l_createdAt l) updatedAt (l_archived l)
    (l_color l).

Definition setLastUsed (lastUsed : Z) (p : Product) : Product :=
  mkProduct (p_barcode p) (p_name p) (p_category p) lastUsed.

Definition sameListId (id : string) (l : ShoppingList) : bool :=
  String.eqb (l_id l) id.

Definition sameBarcode (barcode : string) (p : Product) : bool :=
  String.eqb (p_barcode p) barcode.

Definition inList (listId : string) (i : ShoppingItem) : bool :=
  String.eqb (i_listId i) listId.

(** [arr.map(f)] with a callback that reads the oracles. *)
Fixpoint mapM {A B} (f : A -> M B) (xs : list A) : M (list B) :=
  match xs with
  | [] => ret []
  | x :: rest => y ← f x; ys ← mapM f rest; ret (y :: ys)
  end.

(** [table.bulkAdd(rows)] outside a transaction: every row whose key is
    free is added, in order; the rows whose key is taken are counted. *)
Fixpoint bulkAddRows {V} (key : V -> string) (rows : list V) (t : gmap string V)
    : gmap string V * nat :=
  match rows with
  | [] => (t, 0)
  | r :: rest =>
      match t !! key r with
      | Some _ =>
          let '(t', failures) := bulkAddRows key rest t in (t', S failures)
      | None => bulkAddRows key rest (<[key r := r]> t)
      end
  end.

(** [{ list: ..., items: ... }] *)
Record ListExport : Type := mkListExport {
  le_list : jsval;
  le_items : jsval }.

(** What a handler of the list view leaves on the screen. *)
Inductive ScanOutcome : Type :=
| ScanAdded
| ScanNotFound
| ScanFailed.

Inductive VoiceOutcome : Type :=
| VoiceAdded (itemCount : nat)
| VoiceNothing
| VoiceFailed.

(** [`${category.icon} ${category.name}`] *)
Definition displayOf (category : Category) : string :=
  default "undefined" (c_icon category) +:+ " " +:+ c_name category.

(** [new Map(categoryOrder.map((id, index) => [id, index]))]: a later
    occurrence of an id replaces the index of an earlier one. *)
Fixpoint orderMapFrom (index : Z) (order : list string) (m : gmap string Z)
    : gmap string Z :=
  match order with
  | [] => m
  | id :: rest => orderMapFrom (index + 1) rest (<[id := index]> m)
  end.

Definition orderMap (order : list string) : gmap string Z :=
  orderMapFrom 0 order ∅.

(** [arr.sort((a, b) => key(a) - key(b))]: the sort is stable. *)
Fixpoint insertByKey {A} (key : A -> Z) (x : A) (l : list A) : list A :=
  match l with
  | [] => [x]
  | y :: rest =>
      if (key y <? key x)%Z then y :: insertByKey key x rest else x :: l
  end.

Definition sortByKey {A} (key : A -> Z) (l : list A) : list A :=
  foldr (insertByKey key) [] l.

(** *** stores/lists: getListById *)

Definition getListById (w : World) (id : string) : option ShoppingList :=
  List.find (sameListId id) (ls_lists (listsStore w)).

(** *** stores/items: getters *)

Definition getItemsByListId (w : World) (listId : string) : list ShoppingItem :=
  default [] (is_items (itemsStore w) !! listId).

Definition getCompletedCount (w : World) (listId : string) : nat :=
  length (List.filter i_completed (getItemsByListId w listId)).

Definition getTotalCount (w : World) (listId : string) : nat :=
  length (getItemsByListId w listId).

(** *** stores/categories: getters *)

Definition sortedCategories (w : World) : list Category :=
  let order := cs_categoryOrder (categoriesStore w) in
  if (length order =? 0)%nat then sortByKey c_sortOrder (allCategories w)
  else
    let orderMap := orderMap order in
    sortByKey (fun a => default 9999%Z (orderMap !! c_id a)) (allCategories w).

Definition getCategoryDisplay (w : World) (categoryId : string) : string :=
  match getCategoryById w categoryId with
  | None =>
      match getCategoryById w "other" with
      | Some otherCat => displayOf otherCat
      | None => "📦 Other"
      end
  | Some category => displayOf category
  end.

(** *** composables/useShare: the list exchange format *)

(** The object [exportListAsJSON] serializes. *)
Definition exportData (exportedAt : string) (shoppingList : ShoppingList)
    (items : list ShoppingItem) : jsval :=
  VObj [("version", VStr "1.0"); ("exportedAt", VStr exportedAt);
        ("list", jsOfList shoppingList);
        ("items", VArr (List.map jsOfItem items))].

Section Actions.
(** The oracles of [App], the JSON codec on arbitrary values ([None]
    stands for a SyntaxError), the parser of the stored preferences text,
    taken to be either unparsable or the text of an object of strings,
    and the message of the BulkError, an Error, with which Dexie rejects
    a [bulkAdd] some of whose rows could not be added (given the number
    of failures and the number of rows). [JSON_parse_backup] is
    [JSON.parse(content) as BackupData], the parsed value taken at the
    type the source casts it to; [None] stands for a SyntaxError, whose
    message is [syntaxErrorMessage content]. *)
Variable uuidv4 : nat -> string.
Variable Date_now : nat -> Z.
Variable JSON_stringify_order : list string -> string.
Variable JSON_parse_order : string -> option (list string).
Variable JSON_stringify_preferences : list (string * string) -> string.
Variable JSON_parse_preferences : string -> option (list (string * string)).
Variable JSON_stringify : jsval -> string.
Variable JSON_parse : string -> option jsval.
Variable JSON_parse_backup : string -> option BackupData.
Variable syntaxErrorMessage : string -> string.
Variable bulkAddMessage : nat -> nat -> string.

Local Abbreviation uuid := (App.uuid uuidv4).
Local Abbreviation now := (App.now Date_now).

(** *** composables/useDB: useListsDB *)

Definition listsDB_getById (id : string) : M (option ShoppingList) :=
  gets (fun w => db_lists (db w) !! id).

Definition listsDB_update (id : string) (updates : ShoppingList -> ShoppingList)
    : M unit :=
  updatedAt ← now;
  modify (updDb (updDbLists
    (alter (fun l => setUpdatedAt updatedAt (updates l)) id))).

Definition listsDB_unarchive (id : string) : M unit :=
  updatedAt ← now;
  modify (updDb (updDbLists (alter (setArchived false updatedAt) id))).

Definition itemsDB_getByListId (listId : string) : M (list ShoppingItem) :=
  gets (fun w => List.filter (inList listId) (toArray (db_items (db w)))).

Definition itemsDB_bulkAdd (rows : list ShoppingItem) : M unit :=
  fun w =>
    let '(t, failures) := bulkAddRows i_id rows (db_items (db w)) in
    (if (failures =? 0)%nat then Ok tt
     else Throw (Error (bulkAddMessage failures (length rows))),
     updDb (updDbItems (fun _ => t)) w).

(** The callback of [items.map] in [duplicate]. *)
Definition copyItem (newListId : string) (item : ShoppingItem) : M ShoppingItem :=
  id ← uuid;
  addedAt ← now;
  ret (mkShoppingItem id newListId (i_name item) (i_quantity item) (i_unit item)
         (i_category item) false addedAt None (i_barcode item) (i_notes item)).

Definition listsDB_duplicate (id : string) : M ShoppingList :=
  original ← listsDB_getById id;
  match original with
  | None => throw (Error "List not found")
  | Some original =>
      newId ← uuid;
      createdAt ← now;
      updatedAt ← now;
      let newList :=
        mkShoppingList newId (l_name original +:+ " (copy)") createdAt updatedAt
          false (l_color original) in
      tableAddM db_lists updDbLists (l_id newList) newList;;
      items ← itemsDB_getByListId id;
      newItems ← mapM (copyItem (l_id newList)) items;
      itemsDB_bulkAdd newItems;;
      ret newList
  end.

(** *** composables/useDB: useItemsDB *)

Definition itemsDB_remove (id : string) : M unit :=
  modify (updDb (updDbItems (delete id))).

Definition itemsDB_removeCompleted (listId : string) : M unit :=
  modify (updDb (updDbItems
    (filter (fun kv : string * ShoppingItem =>
       ¬ (i_listId kv.2 = listId /\ i_completed kv.2 = true))))).

(** *** composables/useDB: useProductsDB *)

Definition productsDB_getByBarcode (barcode : string) : M (option Product) :=
  gets (fun w => db_products (db w) !! barcode).

Definition productsDB_delete (barcode : string) : M unit :=
  modify (updDb (updDbProducts (delete barcode))).

(** *** stores/lists *)

Definition updateList (id : string) (updates : ShoppingList -> ShoppingList)
    : M unit :=
  action listsSetLoading listsSetError true tt
    (listsDB_update id updates;;
     found ← gets (fun w => getListById w id);
     match found with
     | Some _ =>
         updatedAt ← now;
         modify (listsSet
           (updateFirst (sameListId id)
              (fun l => setUpdatedAt updatedAt (updates l))))
     | None => ret tt
     end).

(** The [updates] object of [renameList]: the name, and the colour when
    one is given and it is not the empty string. *)
Definition renameUpdates (name : string) (color : option string)
    (l : ShoppingList) : ShoppingList :=
  mkShoppingList (l_id l) name (l_createdAt l) (l_updatedAt l) (l_archived l)
    (if truthy color then color else l_color l).

Definition renameList (id name : string) (color : option string) : M unit :=
  updateList id (renameUpdates name color).

Definition unarchiveList (id : string) : M unit :=
  action listsSetLoading listsSetError true tt
    (listsDB_unarchive id;;
     found ← gets (fun w => getListById w id);
     match found with
     | Some _ =>
         updatedAt ← now;
         modify (listsSet
           (updateFirst (sameListId id) (setArchived false updatedAt)))
     | None => ret tt
     end).

Definition duplicateList (id : string) : M ShoppingList :=
  action listsSetLoading listsSetError true
    (mkShoppingList "" "" 0 0 false None)
    (newList ← listsDB_duplicate id;
     modify (listsSet (fun ls => ls ++ [newList]));;
     ret newList).

(** *** stores/items *)

Definition loadItems (listId : string) : M unit :=
  action itemsSetLoading itemsSetError false tt
    (listItems ← itemsDB_getByListId listId;
     modify (itemsSet (<[listId := listItems]>))).

Definition deleteItem (listId id : string) : M unit :=
  action itemsSetLoading itemsSetError true tt
    (itemsDB_remove id;;
     listItems ← gets (fun w => getItemsByListId w listId);
     modify (itemsSet
       (<[listId := List.filter (fun item => negb (sameId id item)) listItems]>))).

Definition removeCompletedItems (listId : string) : M unit :=
  action itemsSetLoading itemsSetError true tt
    (itemsDB_removeCompleted listId;;
     listItems ← gets (fun w => getItemsByListId w listId);
     modify (itemsSet
       (<[listId := List.filter (fun item => negb (i_completed item)) listItems]>))).

(** *** stores/products *)

Definition getProductByBarcode (barcode : string) : M (option Product) :=
  localProduct ← gets (fun w =>
    List.find (sameBarcode barcode) (ps_products (productsStore w)));
  match localProduct with
  | Some localProduct => ret (Some localProduct)
  | None =>
      dbProduct ← productsDB_getByBarcode barcode;
      match dbProduct with
      | Some product =>
          again ← gets (fun w =>
            List.find (sameBarcode barcode) (ps_products (productsStore w)));
          match again with
          | None => modify (productsSet (fun ps => ps ++ [product]))
          | Some _ => ret tt
          end
      | None => ret tt
      end;;
      ret dbProduct
  end.

Definition updateLastUsed (barcode : string) : M unit :=
  product ← getProductByBarcode barcode;
  match product with
  | Some product =>
      lastUsed ← now;
      let updated := setLastUsed lastUsed product in
      productsDB_save updated;;
      modify (productsSet (updateFirst (sameBarcode barcode) (fun _ => updated)))
  | None => ret tt
  end.

Definition deleteProduct (barcode : string) : M unit :=
  productsDB_delete barcode;;
  modify (productsSet (List.filter (fun p => negb (sameBarcode barcode p)))).

(** *** stores/categories *)

Definition resetCategoryOrder : M unit :=
  modify (categoryOrderSet []);;
  modify (updLocalStorage (delete "categoryOrder")).

(** *** stores/preferences *)

Definition loadPreferences : M unit :=
  action preferencesSetLoading preferencesSetError false tt
    (prefs ← gets (fun w => toArray (db_categoryPreferences (db w)));
     modify (preferencesSet (fun _ => ∅));;
     forOf prefs (fun pref =>
       modify (preferencesSet (<[cp_itemName pref := cp_category pref]>)))).

Definition removePreference (itemName : string) : M unit :=
  action preferencesSetLoading preferencesSetError true tt
    (let normalized := normalizeItemName itemName in
     modify (updDb (updDbPreferences (delete normalized)));;
     modify (preferencesSet (delete normalized))).

Definition clearAll : M unit :=
  action preferencesSetLoading preferencesSetError true tt
    (modify (updDb (updDbPreferences (fun _ => ∅)));;
     modify (preferencesSet (fun _ => ∅))).

(** *** composables/useBackup: exportBackup *)

(** The loop that loads and collects the items of every list. *)
Fixpoint collectItems (lists : list ShoppingList) (allItems : list ShoppingItem)
    : M (list ShoppingItem) :=
  match lists with
  | [] => ret allItems
  | shoppingList :: rest =>
      loadItems (l_id shoppingList);;
      listItems ← gets (fun w => getItemsByListId w (l_id shoppingList));
      collectItems rest (allItems ++ listItems)
  end.

(** The object returned holds the arrays of the list, category and
    product stores themselves, not copies of them. The record gives
    their contents at the moment [exportBackup] returns: what the
    snapshot is until a store next changes, and what [downloadBackup]
    writes to the file. *)
Definition exportBackup : M BackupData :=
  loadLists;;
  loadProducts;;
  loadCustomCategories JSON_parse_order;;
  lists ← gets (fun w => ls_lists (listsStore w));
  allItems ← collectItems lists [];
  storedPreferences ← gets (fun w => localStorage w !! "categoryPreferences");
  let categoryPreferences :=
    match storedPreferences with
    | Some text =>
        if isEmpty text then [] else default [] (JSON_parse_preferences text)
    | None => []
    end in
  storedOrder ← gets (fun w => localStorage w !! "categoryOrder");
  let categoryOrder :=
    match storedOrder with
    | Some text => if isEmpty text then [] else default [] (JSON_parse_order text)
    | None => []
    end in
  timestamp ← now;
  lists ← gets (fun w => ls_lists (listsStore w));
  customCategories ← gets (fun w => cs_customCategories (categoriesStore w));
  products ← gets (fun w => ps_products (productsStore w));
  ret (mkBackupData (VStr "1.0.0") (VNum timestamp) (Some lists) (Some allItems)
         (Some customCategories) (Some products) (Some categoryPreferences)
         (Some categoryOrder)).

(** *** composables/useBackup: the backup file *)

(** [downloadBackup] up to the text of the file,
    [JSON.stringify(backup, null, 2)], taken as soon as [exportBackup]
    has returned. Handing the text to the browser as a download is left
    out. *)
Definition downloadBackup : M string :=
  backup ← exportBackup;
  ret (JSON_stringify (jsOfBackup backup)).

(** [importBackupFromFile], from what the FileReader delivers: the text
    of the file, or nothing when the file cannot be read. Whatever the
    parse or the import throws is an Error object, so the promise is
    rejected with 'Failed to import backup: ' and its message. *)
Definition importBackupFromFile (content : option string)
    (options : option bool) : M unit :=
  match content with
  | None => throw (Error "Failed to read backup file")
  | Some content =>
      tryCatch
        (backupData ←
           match JSON_parse_backup content with
           | Some data => ret data
           | None => throw (Error (syntaxErrorMessage content))
           end;
         importBackup uuidv4 Date_now JSON_stringify_order JSON_parse_order
           JSON_stringify_preferences backupData options)
        (fun error =>
           throw (Error ("Failed to import backup: " +:+ message error)))
  end.

(** *** composables/useShare *)

Definition exportListAsJSON (exportedAt : string) (shoppingList : ShoppingList)
    (items : list ShoppingItem) : string :=
  JSON_stringify (exportData exportedAt shoppingList items).

(** [importListFromJSON]: whatever is thrown inside the [try] block (the
    SyntaxError of [JSON.parse], the TypeError of reading a property of
    [null], the Error 'Invalid JSON format') is caught and replaced by
    the Error 'Invalid JSON file'. *)
Definition importListFromJSON (jsonContent : string) : result ListExport :=
  match JSON_parse jsonContent with
  | None => Throw (Error "Invalid JSON file")
  | Some VNull => Throw (Error "Invalid JSON file")
  | Some data =>
      if negb (truthyV (getProp data "version"))
         || negb (truthyV (getProp data "list"))
         || negb (truthyV (getProp data "items"))
      then Throw (Error "Invalid JSON file")
      else Ok (mkListExport (getProp data "list") (getProp data "items"))
  end.

(** *** The list view: handleQuickAdd, handleScan, handleVoiceInput

    [listId] is the list shown. The toasts are display effects; the
    handlers return what they leave on the screen. [handleQuickAdd]
    returns the content of the input field. *)

Local Abbreviation createItem := (App.createItem uuidv4 Date_now).
Local Abbreviation saveProduct := (App.saveProduct Date_now).

Definition handleQuickAdd (listId : string) (quickAddInput : string) : M string :=
  let input := trim quickAddInput in
  if isEmpty input then ret quickAddInput
  else
    tryCatch
      (let itemNames := parseItemsFromText input in
       forOf itemNames (fun name =>
         let sanitized := sanitizeItemName name in
         preferredCategory ← gets (fun w => getPreferredCategory w sanitized);
         let category := categorizeItem sanitized preferredCategory in
         createItem listId sanitized category 1 None;;
         ret tt);;
       ret "")
      (fun _ => ret quickAddInput).

Definition handleScan (listId : string) (barcode : string) : M ScanOutcome :=
  tryCatch
    (product ← getProductByBarcode barcode;
     match product with
     | Some product =>
         preferredCategory ← gets (fun w =>
           getPreferredCategory w (p_name product));
         let categoryToUse := default (p_category product) preferredCategory in
         createItem listId (p_name product) categoryToUse 1 None;;
         updateLastUsed (p_barcode product);;
         match preferredCategory with
         | Some preferred =>
             if negb (String.eqb preferred (p_category product)) then
               saveProduct (p_barcode product) (p_name product) preferred;;
               ret tt
             else ret tt
         | None => ret tt
         end;;
         ret ScanAdded
     | None => ret ScanNotFound
     end)
    (fun _ => ret ScanFailed).

Definition handleVoiceInput (listId : string) (transcript : string)
    : M VoiceOutcome :=
  tryCatch
    (let parsedItems := parseItemsFromText transcript in
     if (length parsedItems =? 0)%nat then ret VoiceNothing
     else
       forOf parsedItems (fun itemText =>
         let sanitized := sanitizeItemName itemText in
         let category := categorizeItem sanitized None in
         createItem listId sanitized category 1 None;;
         ret tt);;
       ret (VoiceAdded (length parsedItems)))
    (fun _ => ret VoiceFailed).

End Actions.
End Stores.

(** ** Definitions used to state the properties of the stores *)

Module StoreShapes.
Import JSString Categorization Data State App Stores.

(** The preference store mirrors the preference table. *)
Definition preferencesInSync (w : World) : Prop :=
  forall k, pf_preferences (preferencesStore w) !! k
            = cp_category <$> db_categoryPreferences (db w) !! k.

(** Every row of a table sits under its primary key, as Dexie keeps it
    for a table with a key path. *)
Definition keyedBy {V} (key : V -> string) (t : gmap string V) : Prop :=
  forall k v, t !! k = Some v -> key v = k.

(** The learned preferences: the store and the table. *)
Definition preferenceViews (w : World)
    : PreferencesStore * gmap string CategoryPreference :=
  (preferencesStore w, db_categoryPreferences (db w)).

(** Everything but the item store. *)
Definition outsideItemStore (w : World) :=
  (db w, listsStore w, categoriesStore w, productsStore w, preferencesStore w,
   localStorage w, uuidCalls w, clockReads w).

(** The rows of the item table that belong to the given lists, list by
    list. *)
Definition itemsOfLists (d : DB) (ls : list ShoppingList) : list ShoppingItem :=
  concat (List.map
    (fun l => List.filter (inList (l_id l)) (toArray (db_items d))) ls).

(** What [exportBackup] reads from a text kept in localStorage. *)
Definition storedOr {A} (parse : string -> option (list A)) (w : World)
    (key : string) : list A :=
  match localStorage w !! key with
  | Some text => if isEmpty text then [] else default [] (parse text)
  | None => []
  end.

(** Everything but the item table and the item store, the clock and the
    id counter. *)
Definition besideItems (w : World) :=
  (db_lists (db w), db_categories (db w), db_products (db w),
   db_categoryPreferences (db w), listsStore w, categoriesStore w,
   productsStore w, preferencesStore w, localStorage w).

(** An item as the quick-add field creates it in list [listId]: one
    piece, open, named by a sanitized name, in the category preferred
    for that name in [w] or else in its keyword category. *)
Definition quickAdded (w : World) (listId : string) (it : ShoppingItem) : Prop :=
  i_listId it = listId /\
  sanitizeItemName (i_name it) = i_name it /\
  i_category it = categorizeItem (i_name it) (getPreferredCategory w (i_name it)) /\
  i_quantity it = 1%Z /\ i_unit it = None /\ i_completed it = false.

(** Such an item, named after one of the parsed [names]. *)
Definition quickRow (names : list string) (listId : string) (w : World)
    (it : ShoppingItem) : Prop :=
  quickAdded w listId it /\
  exists name, name ∈ names /\ i_name it = sanitizeItemName name.

(** An item as the voice input creates it: as above, but always in the
    keyword category of its name. *)
Definition voiceAdded (listId : string) (it : ShoppingItem) : Prop :=
  i_listId it = listId /\
  sanitizeItemName (i_name it) = i_name it /\
  i_category it = categorizeItem (i_name it) None /\
  i_quantity it = 1%Z /\ i_unit it = None /\ i_completed it = false.

(** The preferences stay, and every row of the item table afterwards is
    a row from before or satisfies [P] of the world before. *)
Definition addsOnly (P : World -> ShoppingItem -> Prop) : relation World :=
  fun w w' =>
    besideItems w' = besideItems w /\
    forall k it, db_items (db w') !! k = Some it ->
      db_items (db w) !! k = Some it \/ P w it.

(** What [duplicate] keeps of an item, placed in the list [newListId]:
    everything but the id and the time it was added, with the item open
    again. *)
Definition copyOf (newListId : string) (i i' : ShoppingItem) : Prop :=
  i_listId i' = newListId /\ i_name i' = i_name i /\
  i_quantity i' = i_quantity i /\ i_unit i' = i_unit i /\
  i_category i' = i_category i /\ i_barcode i' = i_barcode i /\
  i_notes i' = i_notes i /\ i_completed i' = false /\ i_completedAt i' = None.

(** The sort key of a category id under a saved order. *)
Definition rankIn (order : list string) (id : string) : Z :=
  default 9999%Z (orderMap order !! id).

(** Ascending sort order. *)
Definition bySortOrder (a b : Category) : Prop :=
  (c_sortOrder a <= c_sortOrder b)%Z.

(** An action that can only throw exceptions satisfying [P]. *)
Definition onlyThrows {A} (P : exn -> Prop) (m : M A) : Prop :=
  forall w e, (m w).1 = Throw e -> P e.

Definition isConstraintError (e : exn) : Prop :=
  exists msg, e = ConstraintError msg.

End StoreShapes.

(** ** More sample data *)

Module StoreSamples.
Import JSString Data State App Stores Samples.

(** A loaded store with one product and a learned preference for its
    name that differs from the category of the product. *)
Definition oatMilk : Product := mkProduct "4001" "Oat Milk" "dairy" 3.

Definition scanWorld : World :=
  mkWorld (mkDB ∅ ∅ ∅ {["4001" := oatMilk]} ∅)
    (mkListsStore [] false None) (mkItemsStore ∅ false None)
    (mkCategoriesStore [] [] false None)
    (mkProductsStore [oatMilk])
    (mkPreferencesStore {["oat milk" := "beverages"]} false None) ∅ 0 0.

(** The message of a failed [bulkAdd] in the sample runs. *)
Definition sampleBulkAddMessage (failures total : nat) : string :=
  "items.bulkAdd(): " +:+ showZ (Z.of_nat failures) +:+ " of "
  +:+ showZ (Z.of_nat total) +:+ " operations failed".

(** A database with the list B of [milkWorld] and its two items. *)
Definition weekendList : ShoppingList :=
  mkShoppingList "B" "Weekend" 1 2 true (Some "blue").

Definition weekendWorld : World :=
  mkWorld
    (mkDB {["B" := weekendList]}
       (<["i1" := milkA]> (<["i2" := milkB]> {["i3" := breadB]})) ∅ ∅ ∅)
    (mkListsStore [weekendList] false None)
    (mkItemsStore ∅ false None)
    (mkCategoriesStore [] [] false None)
    (mkProductsStore []) (mkPreferencesStore ∅ false None) ∅ 0 0.

(** A database with one learned preference, not loaded yet. *)
Definition milkPreference : CategoryPreference :=
  mkCategoryPreference "oat milk" "beverages" 1690000000000.

Definition learnedWorld : World :=
  mkWorld (mkDB ∅ ∅ ∅ ∅ {["oat milk" := milkPreference]})
    (mkListsStore [] false None) (mkItemsStore ∅ false None)
    (mkCategoriesStore [] [] false None)
    (mkProductsStore []) (mkPreferencesStore ∅ false None) ∅ 0 0.

(** A store with a list, two items, a custom category, a product and
    stored preferences: what the import of [sampleBackup] leaves. *)
Definition stockedWorld : World :=
  (sampleImport sampleBackup None emptyWorld).2.

Definition sampleParsePreferences (text : string)
    : option (list (string * string)) :=
  if String.eqb text "{eggs:dairy}" then Some [("eggs", "dairy")] else None.

(** A file system with one file: the text "backup.json" stands for the
    backup of [stockedWorld], and nothing else parses. *)
Definition sampleStringify (v : jsval) : string := "backup.json".

Definition sampleParseBackup (text : string) : option BackupData :=
  if String.eqb text "backup.json" then
    match (exportBackup sampleClock sampleParseOrder sampleParsePreferences
             stockedWorld).1 with
    | Ok b => Some b
    | Throw _ => None
    end
  else None.

End StoreSamples.

(** * Properties *)

(** ** String and regular-expression facts *)

Module StringFacts.
Import JSString JSRegExp SpecDefs.

Lemma startsWith_empty_r kw : startsWith kw "" = isEmpty kw.
Proof. by destruct kw. Qed.

Lemma lastNonWs_nonempty kw : lastNonWs kw = true -> isEmpty kw = false.
Proof. by destruct kw. Qed.

Lemma lastNonWs_cons c kw :
  lastNonWs (String c kw) = true ->
  (kw = "" /\ isWhiteSpace c = false) \/ (isEmpty kw = false /\ lastNonWs kw = true).
Proof.
  destruct kw as [|d kw]; simpl.
  - intros H. left. split; [done|]. by destruct (isWhiteSpace c).
  - intros H. by right.
Qed.

Lemma eqb_ws_false k c :
  isWhiteSpace k = false -> isWhiteSpace c = true -> Ascii.eqb k c = false.
Proof.
  intros Hk Hc. destruct (Ascii.eqb_spec k c) as [->|]; [congruence|done].
Qed.

(** Trimming the end does not change whether a keyword that ends in a
    non-space character is a prefix. *)
Lemma startsWith_trimEnd s : forall kw,
  lastNonWs kw = true -> startsWith kw (trimEnd s) = startsWith kw s.
Proof.
  induction s as [|c s IH]; intros kw Hkw; [done|].
  destruct kw as [|k kw]; [done|].
  apply lastNonWs_cons in Hkw as [[-> Hk]|[Hne Hl]].
  - simpl. destruct (isWhiteSpace c) eqn:Hc; simpl.
    + destruct (isEmpty (trimEnd s)); [|done].
      by rewrite (eqb_ws_false _ _ Hk Hc).
    + done.
  - specialize (IH kw Hl). simpl.
    destruct (isWhiteSpace c && isEmpty (trimEnd s)) eqn:E; simpl.
    + apply andb_true_iff in E as [_ E].
      destruct (trimEnd s); [|done].
      rewrite startsWith_empty_r, Hne in IH. rewrite <- IH.
      by rewrite andb_false_r.
    + by rewrite IH.
Qed.

Lemma includes_trimEnd kw s :
  lastNonWs kw = true -> includes (trimEnd s) kw = includes s kw.
Proof.
  intros Hkw. induction s as [|c s IH]; [done|].
  pose proof (startsWith_trimEnd (String c s) kw Hkw) as Hsw.
  cbn [includes]. rewrite <- Hsw, <- IH. simpl.
  destruct (isWhiteSpace c && isEmpty (trimEnd s)) eqn:E.
  - apply andb_true_iff in E as [_ E].
    destruct (trimEnd s); [|done]. simpl. by destruct (startsWith kw "").
  - done.
Qed.

Lemma includes_trimStart kw s :
  firstNonWs kw = true -> includes (trimStart s) kw = includes s kw.
Proof.
  intros Hkw. induction s as [|c s IH]; [done|].
  simpl trimStart. destruct (isWhiteSpace c) eqn:Hc; [|done].
  rewrite IH. destruct kw as [|k kw]; [done|].
  simpl in Hkw. apply negb_true_iff in Hkw.
  cbn [includes startsWith]. by rewrite (eqb_ws_false _ _ Hkw Hc).
Qed.

Lemma includes_trim kw s :
  firstNonWs kw && lastNonWs kw = true -> includes (trim s) kw = includes s kw.
Proof.
  intros [H1 H2]%andb_true_iff. unfold trim.
  by rewrite includes_trimEnd, includes_trimStart.
Qed.

Lemma toLowerCaseChar_idem c :
  toLowerCaseChar (toLowerCaseChar c) = toLowerCaseChar c.
Proof. destruct c as [[] [] [] [] [] [] [] []]; reflexivity. Qed.

Lemma toLowerCase_idem s : toLowerCase (toLowerCase s) = toLowerCase s.
Proof.
  induction s as [|c s IH]; [done|]. simpl. by rewrite toLowerCaseChar_idem, IH.
Qed.

End StringFacts.

Module RegExpFacts.
Import JSString JSRegExp.

Lemma testFrom_false_inv ic r prev s :
  testFrom ic r prev s = false ->
  exec ic r prev s = None /\
  match s with
  | EmptyString => True
  | String c s' => testFrom ic r (Some c) s' = false
  end.
Proof.
  destruct s as [|c s']; simpl; destruct (exec ic r prev _); by auto.
Qed.

(** Where the expression matches nowhere, a global replace returns its
    input. *)
Lemma replaceFrom_no_match ic r rep s : forall prev,
  testFrom ic r prev s = false -> replaceFrom ic r rep prev s 0 = s.
Proof.
  induction s as [|c s IH]; intros prev H;
    apply testFrom_false_inv in H as [He Ht]; simpl; rewrite He; [done|].
  by rewrite IH.
Qed.

Lemma replaceAll_no_match ic r rep s :
  test ic r s = false -> replaceAll ic r rep s = s.
Proof. apply replaceFrom_no_match. Qed.

(** Where the expression matches nowhere, split returns the input as its
    only segment. *)
Lemma splitFrom_no_match ic r s : forall prev fresh,
  testFrom ic r prev s = false -> splitFrom ic r prev s 0 fresh = [s].
Proof.
  induction s as [|c s IH]; intros prev fresh H; [done|].
  apply testFrom_false_inv in H as [He Ht]. simpl. rewrite He.
  by rewrite IH.
Qed.

Lemma split_no_match ic r s : test ic r s = false -> split ic r s = [s].
Proof.
  intros H. destruct s as [|c s].
  - apply testFrom_false_inv in H as [He _]. unfold split. by rewrite He.
  - by apply splitFrom_no_match.
Qed.

End RegExpFacts.

(** ** src/utils/categorization.ts *)

Module CategorizationSpec.
Import JSString JSRegExp Categorization SpecDefs StringFacts RegExpFacts.

(** C4. [parseItemsFromText] on "2 bottles of milk, a dozen eggs and
    bread": the quantity phrases are removed from the whole string first
    ("a dozen ", then "2 bottles of "), the rest is split at the comma
    and at " and ", and the cleaned, non-empty, de-duplicated segments
    are exactly milk, eggs, bread. *)
Theorem parse_quantity_phrases_scenario :
  let input := "2 bottles of milk, a dozen eggs and bread" in
  let afterDozen := replaceAll true reDozen "" input in
  let afterCounted := replaceAll true reCountedContainer "" afterDozen in
  let afterArticle := replaceAll true reArticleContainer "" afterCounted in
  afterDozen = "2 bottles of milk, eggs and bread" /\
  afterCounted = "milk, eggs and bread" /\
  afterArticle = "milk, eggs and bread" /\
  split true reSeparator afterArticle = ["milk"; " eggs"; "bread"] /\
  parseItemsFromText input = ["milk"; "eggs"; "bread"] /\
  parseItemsFromText "milk, milk,, and bread" = ["milk"; "bread"].
Proof. vm_compute. repeat split. Qed.

(** C5 as stated fails: a text without separators or filler but with a
    run of two spaces inside is returned trimmed only, while
    [sanitizeItemName] collapses the run. *)
Lemma parse_single_not_sanitized :
  let s := "milk  bread" in
  s <> "" /\ plainText s = true /\
  parseItemsFromText s = ["milk  bread"] /\
  sanitizeItemName s = "milk bread" /\
  parseItemsFromText s <> [sanitizeItemName s].
Proof. vm_compute. repeat split; discriminate. Qed.

(** C5, amended. For every text that is not only white space, has no
    separator and nothing the parser strips, [parseItemsFromText]
    returns the one-element sequence holding the trimmed text; interior
    white space is kept as it is. *)
Theorem parse_single_is_trimmed (s : string) :
  isEmpty (trim s) = false ->
  plainText s = true ->
  parseItemsFromText s = [trim s].
Proof.
  intros Hne Hplain. unfold plainText in Hplain.
  repeat (apply andb_true_iff in Hplain as [Hplain ?]).
  repeat match goal with H : negb _ = true |- _ => apply negb_true_iff in H end.
  unfold parseItemsFromText. rewrite Hne.
  rewrite (replaceAll_no_match true reDozen "" s) by assumption.
  rewrite (replaceAll_no_match true reCountedContainer "" s) by assumption.
  rewrite (replaceAll_no_match true reArticleContainer "" s) by assumption.
  rewrite split_no_match by assumption.
  simpl List.map. unfold cleanItem.
  rewrite (replaceAll_no_match true reVerbPrefix "" (trim s)) by assumption.
  rewrite (replaceAll_no_match true rePhrasePrefix "" (trim s)) by assumption.
  rewrite (replaceAll_no_match true reArticlePrefix "" (trim s)) by assumption.
  simpl. by rewrite Hne.
Qed.

Lemma parse_single_is_trimmed_witness :
  parseItemsFromText "  uh um  er mmm " = ["uh um  er mmm"].
Proof. apply (parse_single_is_trimmed "  uh um  er mmm "); reflexivity. Defined.

Lemma keywords_tight : keywordsTight categoryKeywords = true.
Proof. reflexivity. Qed.

Lemma anyKeyword_existsb n kws :
  anyKeyword n kws = existsb (fun kw => includes n kw) kws.
Proof.
  induction kws as [|kw kws IH]; [done|]. simpl.
  rewrite IH. by destruct (includes n kw).
Qed.

Lemma existsb_includes_trim n kws :
  forallb (fun kw => firstNonWs kw && lastNonWs kw) kws = true ->
  existsb (fun kw => includes (trim n) kw) kws
  = existsb (fun kw => includes n kw) kws.
Proof.
  induction kws as [|kw kws IH]; [done|]. simpl.
  intros [H1 H2]%andb_true_iff. by rewrite includes_trim, IH.
Qed.

(** Scanning the trimmed name and scanning the untrimmed one agree on
    any index whose keywords have no white space at either end. *)
Lemma scanCategories_trim n entries :
  keywordsTight entries = true ->
  scanCategories (trim n) entries = scanCategories n entries.
Proof.
  induction entries as [|[cat kws] entries IH]; [done|]. simpl.
  intros [H1 H2]%andb_true_iff.
  rewrite !anyKeyword_existsb, existsb_includes_trim by done.
  by rewrite IH.
Qed.

Lemma scanCategories_spec lowered :
  scanCategories lowered categoryKeywords
  = match List.find
            (fun category =>
               existsb (fun kw => includes lowered kw) (keywordsOf category))
            indexOrder with
    | Some category => category
    | None => "other"
    end.
Proof.
  unfold categoryKeywords, indexOrder. cbn [scanCategories List.find].
  rewrite !anyKeyword_existsb.
  change (keywordsOf "produce") with (snd (nth 0 categoryKeywords ("", []))).
  change (keywordsOf "dairy") with (snd (nth 1 categoryKeywords ("", []))).
  change (keywordsOf "meat") with (snd (nth 2 categoryKeywords ("", []))).
  change (keywordsOf "bakery") with (snd (nth 3 categoryKeywords ("", []))).
  change (keywordsOf "frozen") with (snd (nth 4 categoryKeywords ("", []))).
  change (keywordsOf "pantry") with (snd (nth 5 categoryKeywords ("", []))).
  change (keywordsOf "beverages") with (snd (nth 6 categoryKeywords ("", []))).
  change (keywordsOf "snacks") with (snd (nth 7 categoryKeywords ("", []))).
  change (keywordsOf "household") with (snd (nth 8 categoryKeywords ("", []))).
  cbn [nth snd categoryKeywords].
  repeat match goal with |- context [if ?b then _ else _] => destruct b; [done|] end.
  done.
Qed.

(** C6. Without a preferred category, [categorizeItem] returns the first
    category, in the order produce, dairy, meat, bakery, frozen, pantry,
    beverages, snacks, household, one of whose keywords is a substring of
    the lower-cased name, and "other" when there is none; the key order
    of the index is that order; the result depends on the name only
    through its lower-casing; Milk in any case is dairy and the empty
    name is other. *)
Theorem categorize_first_match :
  (forall itemName, categorizeItem itemName None = categorizeSpec itemName) /\
  List.map fst categoryKeywords = indexOrder /\
  (forall itemName,
     categorizeItem (toLowerCase itemName) None = categorizeItem itemName None) /\
  categorizeItem "Milk" None = "dairy" /\
  categorizeItem "milk" None = "dairy" /\
  categorizeItem "MILK" None = "dairy" /\
  categorizeItem "MiLk" None = "dairy" /\
  categorizeItem "Low-fat milk" None = "dairy" /\
  categorizeItem "Unknown Item XYZ" None = "other" /\
  categorizeItem "" None = "other".
Proof.
  split; [|split; [reflexivity|split]].
  - intros itemName. unfold categorizeItem, keywordCategory, categorizeSpec.
    cbn [truthy]. cbv iota zeta.
    rewrite scanCategories_trim by apply keywords_tight.
    apply scanCategories_spec.
  - intros itemName. unfold categorizeItem, keywordCategory.
    by rewrite toLowerCase_idem.
  - vm_compute. repeat split.
Qed.

(** C7 as stated fails for the empty string, a non-null preferred
    category that the truthiness test treats as absent. *)
Lemma categorize_empty_preference_ignored :
  categorizeItem "Eggs" (Some "") = "dairy" /\
  categorizeItem "Eggs" (Some "") <> "".
Proof. vm_compute. split; [reflexivity|discriminate]. Qed.

(** C7, amended. A non-empty preferred category is returned whatever the
    name is; "Eggs" with preference "bakery" gives "bakery" although its
    keyword category is "dairy". *)
Theorem categorize_preference_wins (itemName preferred : string) :
  preferred <> "" ->
  categorizeItem itemName (Some preferred) = preferred /\
  categorizeItem "Eggs" (Some "bakery") = "bakery" /\
  categorizeItem "Eggs" None = "dairy".
Proof.
  intros Hne. split; [|by vm_compute].
  unfold categorizeItem, truthy. by destruct preferred.
Qed.

Lemma categorize_preference_wins_witness :
  categorizeItem "Milk" (Some "custom_drinks_1700000000000")
  = "custom_drinks_1700000000000".
Proof.
  apply (categorize_preference_wins "Milk" "custom_drinks_1700000000000").
  discriminate.
Defined.

End CategorizationSpec.

(** ** composables/useBackup: validateBackup *)

Module ValidateSpec.
Import JSString Data Validate.

Lemma length_eqb_0_nil {A} (l : list A) : (length l =? 0)%nat = true <-> l = [].
Proof. destruct l; simpl; split; intros; congruence. Qed.

(** A returned result is valid exactly when it lists no error. *)
Lemma validate_valid_iff data r :
  validateBackup data = Ok r -> (valid r = true <-> errors r = []).
Proof.
  unfold validateBackup.
  destruct (negb (truthyV data) || negb (typeofObject data)).
  - intros [= <-]. simpl. split; discriminate.
  - destruct (truthyV (getProp data "version")).
    + destruct (getProp data "version"); try discriminate.
      intros [= <-]. apply length_eqb_0_nil.
    + intros [= <-]. apply length_eqb_0_nil.
Qed.

(** The only way not to return: a truthy version that is not a string. *)
Lemma validate_throws_inv data e :
  validateBackup data = Throw e ->
  truthyV (getProp data "version") = true /\
  forall s, getProp data "version" <> VStr s.
Proof.
  unfold validateBackup.
  destruct (negb (truthyV data) || negb (typeofObject data)); [discriminate|].
  destruct (truthyV (getProp data "version")) eqn:Ht; [|discriminate].
  destruct (getProp data "version"); try discriminate; by split.
Qed.

Lemma in_pushIf cond msg errs x :
  In x (pushIf cond msg errs) <-> In x errs \/ (cond = true /\ x = msg).
Proof.
  unfold pushIf. destruct cond.
  - rewrite in_app_iff. simpl. intuition.
  - intuition. discriminate.
Qed.

(** Each of the six field checks contributes its message exactly when the
    field is in violation, whatever the other fields are. *)
Lemma shapeErrors_complete backup :
  let has msg := In msg (shapeErrors backup) in
  (has "Missing version field" <-> truthyV (getProp backup "version") = false) /\
  (has "Missing or invalid timestamp field"
     <-> typeofNumber (getProp backup "timestamp") = false) /\
  (has "Missing or invalid lists array"
     <-> isArray (getProp backup "lists") = false) /\
  (has "Missing or invalid items array"
     <-> isArray (getProp backup "items") = false) /\
  (has "Missing or invalid customCategories array"
     <-> isArray (getProp backup "customCategories") = false) /\
  (has "Missing or invalid products array"
     <-> isArray (getProp backup "products") = false).
Proof.
  unfold shapeErrors. cbv zeta.
  repeat split; rewrite !in_pushIf, !negb_true_iff; simpl;
    intuition (try discriminate; auto).
Qed.

(** What a returned result says about the six field checks. *)
Lemma validate_errors_complete data r :
  validateBackup data = Ok r ->
  truthyV data && typeofObject data = true ->
  let has msg := In msg (errors r) in
  (has "Missing version field" <-> truthyV (getProp data "version") = false) /\
  (has "Missing or invalid timestamp field"
     <-> typeofNumber (getProp data "timestamp") = false) /\
  (has "Missing or invalid lists array"
     <-> isArray (getProp data "lists") = false) /\
  (has "Missing or invalid items array"
     <-> isArray (getProp data "items") = false) /\
  (has "Missing or invalid customCategories array"
     <-> isArray (getProp data "customCategories") = false) /\
  (has "Missing or invalid products array"
     <-> isArray (getProp data "products") = false).
Proof.
  intros E [Ht Ho]%andb_true_iff. revert E. unfold validateBackup.
  rewrite Ht, Ho. simpl negb. cbv iota. simpl orb. cbv iota zeta.
  pose proof (shapeErrors_complete data) as Hs. cbv zeta in Hs.
  destruct (truthyV (getProp data "version")) eqn:Hv.
  - destruct (getProp data "version") eqn:Hg; try discriminate.
    intros [= <-]. cbv zeta. cbn [errors].
    repeat split; rewrite in_pushIf; intros; intuition (try discriminate; auto).
  - intros [= <-]. cbv zeta. cbn [errors]. exact Hs.
Qed.

(** A candidate that is not an object gets the one error and nothing
    else. *)
Lemma validate_non_object data :
  truthyV data && typeofObject data = false ->
  validateBackup data
  = Ok {| valid := false; errors := ["Backup data must be an object"] |}.
Proof.
  intros H. unfold validateBackup.
  destruct (truthyV data), (typeofObject data); try discriminate H; reflexivity.
Qed.

(** C3. The candidate
    {version:1, timestamp:0, lists:[], items:[], customCategories:[],
    products:[]} violates none of the six field checks, and
    [validateBackup] returns no result for it: the version-compatibility
    check calls [startsWith] on the number and raises a TypeError. The
    same candidate with the version "1.0.0" is valid with no error, and a
    time stamp of the wrong type, which the check beside it tests with
    [typeof], is reported as an error. For the candidate
    {version:"1.0.0"} of the claim the validator does return valid=false
    with five pairwise distinct messages, so at least four. *)
Theorem validate_numeric_version_throws :
  let rest := [("timestamp", VNum 0); ("lists", VArr []); ("items", VArr []);
               ("customCategories", VArr []); ("products", VArr [])] in
  let candidate := VObj (("version", VNum 1) :: rest) in
  let r0 := {| valid := false;
               errors := ["Missing or invalid timestamp field";
                          "Missing or invalid lists array";
                          "Missing or invalid items array";
                          "Missing or invalid customCategories array";
                          "Missing or invalid products array"] |} in
  shapeErrors candidate = [] /\
  (exists msg, validateBackup candidate = Throw (TypeError msg)) /\
  (forall r, validateBackup candidate <> Ok r) /\
  validateBackup (VObj (("version", VStr "1.0.0") :: rest))
  = Ok {| valid := true; errors := [] |} /\
  validateBackup
    (VObj [("version", VStr "1.0.0"); ("timestamp", VStr "0");
           ("lists", VArr []); ("items", VArr []);
           ("customCategories", VArr []); ("products", VArr [])])
  = Ok {| valid := false; errors := ["Missing or invalid timestamp field"] |} /\
  validateBackup (VObj [("version", VStr "1.0.0")]) = Ok r0 /\
  NoDup (errors r0) /\ 4 <= length (errors r0).
Proof.
  cbv zeta. split; [reflexivity|]. split; [by eexists|].
  split; [discriminate|]. split; [reflexivity|]. split; [reflexivity|].
  split; [reflexivity|]. split; [|simpl; lia].
  simpl. apply (bool_decide_unpack _). by vm_compute.
Qed.

End ValidateSpec.

(** ** Reasoning about actions *)

Module Effects.
Import Data State.

#[export] Instance same_preorder {X} (f : World -> X) : PreOrder (same f).
Proof.
  split; [by intros w|]. intros w1 w2 w3 H1 H2. unfold same in *. congruence.
Qed.

Lemma bind_ok_inv {A B} (m : M A) (k : A -> M B) w b w' :
  bind m k w = (Ok b, w') ->
  exists a w1, m w = (Ok a, w1) /\ k a w1 = (Ok b, w').
Proof.
  unfold bind. destruct (m w) as [[a|e] w1]; [|discriminate]. eauto.
Qed.

Lemma action_ok_inv {A} sl se re (d : A) body w a w' :
  action sl se re d body w = (Ok a, w') ->
  (exists w1, body (se None (sl true w)) = (Ok a, w1) /\ w' = sl false w1) \/
  (re = false /\ a = d /\
   exists e w1, body (se None (sl true w)) = (Throw e, w1) /\
                w' = sl false (se (Some (message e)) w1)).
Proof.
  unfold action. destruct (body _) as [[a'|e] w1].
  - intros [= -> <-]. left. eauto.
  - destruct re; [discriminate|]. intros [= <- <-]. right. eauto 10.
Qed.

Lemma action_rethrow_ok_inv {A} sl se (d : A) body w a w' :
  action sl se true d body w = (Ok a, w') ->
  exists w1, body (se None (sl true w)) = (Ok a, w1) /\ w' = sl false w1.
Proof. intros [H|[? _]]%action_ok_inv; [done|discriminate]. Qed.

Lemma ret_ok_inv {A} (a b : A) w w' : ret a w = (Ok b, w') -> b = a /\ w' = w.
Proof. by intros [= -> ->]. Qed.

Lemma gets_ok_inv {A} (g : World -> A) w b w' :
  gets g w = (Ok b, w') -> b = g w /\ w' = w.
Proof. by intros [= <- <-]. Qed.

Lemma modify_ok_inv g w b w' : modify g w = (Ok b, w') -> w' = g w.
Proof. by intros [= <-]. Qed.

Lemma iterable_ok_inv {A} field (o : option (list A)) w l w' :
  iterable field o w = (Ok l, w') -> o = Some l /\ w' = w.
Proof. destruct o; [by intros [= -> ->]|discriminate]. Qed.

Lemma ensures_run {A} R (m : M A) w r w' : ensures R m -> m w = (r, w') -> R w w'.
Proof. intros H E. specialize (H w). by rewrite E in H. Qed.

Section Ensures.
Context (R : relation World) `{!PreOrder R}.

Lemma ensures_ret {A} (a : A) : ensures R (ret a).
Proof. by intros w. Qed.
Lemma ensures_throw {A} e : ensures R (@throw A e).
Proof. by intros w. Qed.
Lemma ensures_gets {A} (g : World -> A) : ensures R (gets g).
Proof. by intros w. Qed.
Lemma ensures_lift {A} (r : result A) : ensures R (lift r).
Proof. by intros w. Qed.
Lemma ensures_modify g : (forall w, R w (g w)) -> ensures R (modify g).
Proof. intros H w. apply H. Qed.

Lemma ensures_bind {A B} (m : M A) (k : A -> M B) :
  ensures R m -> (forall a, ensures R (k a)) -> ensures R (bind m k).
Proof.
  intros Hm Hk w. unfold bind. specialize (Hm w).
  destruct (m w) as [[a|e] w1]; simpl in *; [|done].
  by etrans; [|apply Hk].
Qed.

Lemma ensures_forOf {A} (xs : list A) body :
  (forall x, ensures R (body x)) -> ensures R (forOf xs body).
Proof.
  intros H. induction xs as [|x xs IH]; [apply ensures_ret|].
  simpl. apply ensures_bind; [apply H|done].
Qed.

Lemma ensures_iterable {A} field (o : option (list A)) :
  ensures R (iterable field o).
Proof. destruct o; [apply ensures_ret|apply ensures_throw]. Qed.

Lemma ensures_action {A} sl se re (d : A) body :
  (forall b w, R w (sl b w)) -> (forall e w, R w (se e w)) ->
  ensures R body -> ensures R (action sl se re d body).
Proof.
  intros Hsl Hse Hb w. unfold action.
  specialize (Hb (se None (sl true w))).
  destruct (body _) as [[a|e] w1]; simpl in *.
  - etrans; [apply (Hsl true)|]. etrans; [apply (Hse None)|].
    etrans; [apply Hb|]. apply Hsl.
  - etrans; [apply (Hsl true)|]. etrans; [apply (Hse None)|].
    etrans; [apply Hb|]. etrans; [apply Hse|]. apply Hsl.
Qed.

Lemma ensures_tryCatch {A} (m : M A) h :
  ensures R m -> (forall e, ensures R (h e)) -> ensures R (tryCatch m h).
Proof.
  intros Hm Hh w. unfold tryCatch. specialize (Hm w).
  destruct (m w) as [[a|e] w1]; simpl in *; [done|].
  by etrans; [|apply Hh].
Qed.
End Ensures.

Lemma noError_ret {A} (a : A) : noError (ret a).
Proof. intros w msg. discriminate. Qed.
Lemma noError_gets {A} (g : World -> A) : noError (gets g).
Proof. intros w msg. discriminate. Qed.
Lemma noError_modify g : noError (modify g).
Proof. intros w msg. discriminate. Qed.

Lemma noError_bind {A B} (m : M A) (k : A -> M B) :
  noError m -> (forall a, noError (k a)) -> noError (bind m k).
Proof.
  intros Hm Hk w msg. unfold bind. specialize (Hm w msg).
  destruct (m w) as [[a|e] w1]; simpl in *; [apply Hk|].
  intros [= ->]. by apply Hm.
Qed.

Lemma noError_forOf {A} (xs : list A) body :
  (forall x, noError (body x)) -> noError (forOf xs body).
Proof.
  intros H. induction xs as [|x xs IH]; [apply noError_ret|].
  simpl. apply noError_bind; [apply H|done].
Qed.

Lemma noError_iterable {A} field (o : option (list A)) : noError (iterable field o).
Proof. destruct o; intros w msg; discriminate. Qed.

Lemma noError_action {A} sl se re (d : A) body :
  noError body -> noError (action sl se re d body).
Proof.
  intros Hb w msg. unfold action. specialize (Hb (se None (sl true w)) msg).
  destruct (body _) as [[a|e] w1]; simpl in *; [discriminate|].
  by destruct re.
Qed.

End Effects.

(** ** composables/useBackup: importBackup *)

Module BackupSpec.
Import JSString JSRegExp Data Validate State App Effects SpecDefs Samples.

Create HintDb app.
#[export] Hint Unfold listsDB_getAll listsDB_create listsDB_archive
  listsDB_remove itemsDB_create itemsDB_toggleComplete itemsDB_updateByName
  productsDB_getAll productsDB_save productsDB_clear loadLists createList
  archiveList deleteList createItem toggleItemComplete updateItemsByName
  loadCustomCategories saveCategoryOrder createCategory deleteCategory
  loadProducts saveProduct clearProducts savePreference restoreItem
  restoreList clearExisting handleChangeCategory : app.

Lemma ensures_uuid R uuidv4 : (forall w, R w (tickUuid w)) -> ensures R (uuid uuidv4).
Proof. intros H w. apply H. Qed.

Lemma ensures_now R Date_now : (forall w, R w (tickClock w)) -> ensures R (now Date_now).
Proof. intros H w. apply H. Qed.

Lemma ensures_tableAddM {V} R `{!Reflexive R} get upd k (v : V) :
  (forall g w, R w (updDb (upd g) w)) -> ensures R (tableAddM get upd k v).
Proof.
  intros H w. unfold tableAddM. destruct (tableAdd _ _ _); [apply H|done].
Qed.

Lemma noError_uuid uuidv4 : noError (uuid uuidv4).
Proof. intros w msg. discriminate. Qed.
Lemma noError_now Date_now : noError (now Date_now).
Proof. intros w msg. discriminate. Qed.
Lemma noError_tableAddM {V} get upd k (v : V) : noError (tableAddM get upd k v).
Proof.
  intros w msg. unfold tableAddM, tableAdd.
  destruct (get (db w) !! k); discriminate.
Qed.

(** Walks the structure of an action; [side] closes the conditions on
    the elementary writes. *)
Ltac ensures_walk side :=
  repeat first
    [ match goal with
      | |- PreOrder _ => apply _
      | |- Reflexive _ => apply _
      | |- ensures _ (ret _) => apply ensures_ret
      | |- ensures _ (throw _) => apply ensures_throw
      | |- ensures _ (gets _) => apply ensures_gets
      | |- ensures _ (lift _) => apply ensures_lift
      | |- ensures _ (iterable _ _) => apply ensures_iterable
      | |- ensures _ (bind _ _) => apply ensures_bind
      | |- ensures _ (forOf _ _) => apply ensures_forOf
      | |- ensures _ (action _ _ _ _ _) => apply ensures_action
      | |- ensures _ (tryCatch _ _) => apply ensures_tryCatch
      | |- ensures _ (modify _) => apply ensures_modify
      | |- ensures _ (uuid _) => apply ensures_uuid
      | |- ensures _ (now _) => apply ensures_now
      | |- ensures _ (tableAddM _ _ _ _) => apply ensures_tableAddM
      | |- ensures _ (if ?b then _ else _) => destruct b
      | |- ensures _ (match ?o with _ => _ end) => destruct o
      | |- forall _, ensures _ _ => intros ?
      end
    | solve [side]
    | progress autounfold with app ].

Ltac noError_walk :=
  repeat first
    [ apply noError_ret | apply noError_gets | apply noError_modify
    | apply noError_iterable | apply noError_bind | apply noError_forOf
    | apply noError_action | apply noError_uuid | apply noError_now
    | apply noError_tableAddM
    | match goal with
      | |- noError (if ?b then _ else _) => destruct b
      | |- noError (match ?o with _ => _ end) => destruct o
      end
    | progress autounfold with app
    | intros ? ].

Section Rejection.
Variable uuidv4 : nat -> string.
Variable Date_now : nat -> Z.
Variable JSON_stringify_order : list string -> string.
Variable JSON_parse_order : string -> option (list string).
Variable JSON_stringify_preferences : list (string * string) -> string.

Local Abbreviation importBackup :=
  (App.importBackup uuidv4 Date_now JSON_stringify_order JSON_parse_order
     JSON_stringify_preferences).
Local Abbreviation restore :=
  (App.restore uuidv4 Date_now JSON_stringify_order JSON_parse_order
     JSON_stringify_preferences).

Lemma importBackup_unfold backupData options w :
  importBackup backupData options w
  = match validateBackup (jsOfBackup backupData) with
    | Ok validation =>
        if negb (valid validation) then
          (Throw (Error ("Invalid backup: " +:+ join ", " (errors validation))), w)
        else restore backupData (default false options) w
    | Throw e => (Throw e, w)
    end.
Proof.
  unfold App.importBackup, bind at 1, lift.
  destruct (validateBackup _) as [v|e]; [|done].
  by destruct (negb (valid v)).
Qed.

Lemma restore_noError backupData merge : noError (restore backupData merge).
Proof. unfold App.restore. noError_walk. Qed.

(** C2. When [validateBackup] reports valid=false, [importBackup]
    throws an Error whose message is "Invalid backup: " followed by the
    validation errors joined with ", ", and the whole state (database
    tables, stores, localStorage) is left as it was; when it reports
    valid=true, [importBackup] throws no such Error. *)
Theorem import_rejects_invalid backupData options w r :
  validateBackup (jsOfBackup backupData) = Ok r ->
  (valid r = false ->
   importBackup backupData options w
   = (Throw (Error ("Invalid backup: " +:+ join ", " (errors r))), w)) /\
  (valid r = true ->
   forall msg, (importBackup backupData options w).1 <> Throw (Error msg)).
Proof.
  intros Hr. rewrite importBackup_unfold, Hr. split; intros ->; [done|].
  simpl. apply restore_noError.
Qed.

#[local] Instance reloads_preorder : PreOrder (reloads JSON_parse_order).
Proof.
  split.
  - intros w. split; [done|by left].
  - intros w1 w2 w3 [H1 H1'] [H2 H2']. split; [congruence|].
    destruct H2' as [H2'|(text & Ht & Hne & H2')].
    + rewrite H2'. done.
    + right. exists text. by rewrite <- H1.
Qed.

Lemma loadCustomCategories_reloads :
  ensures (reloads JSON_parse_order) (loadCustomCategories JSON_parse_order).
Proof.
  intros w. unfold reloads, persistedOrder, loadedOrder.
  unfold loadCustomCategories, bind, action, gets, modify.
  simpl. destruct (localStorage w !! "categoryOrder") as [text|] eqn:E; simpl.
  - destruct (isEmpty text) eqn:Hne; simpl; [by split; [|left]|].
    destruct (JSON_parse_order text) eqn:Hp; simpl;
      (split; [done|right; exists text; by rewrite Hp]).
  - by split; [|left].
Qed.

Lemma restore_reloads backupData merge :
  categoryOrder backupData = Some [] ->
  ensures (reloads JSON_parse_order) (restore backupData merge).
Proof.
  intros Hempty. unfold App.restore. rewrite Hempty.
  change (0 <? length (@nil string))%nat with false. cbv iota.
  ensures_walk
    ltac:(first
      [ apply loadCustomCategories_reloads
      | intros; split;
        [ unfold persistedOrder; cbn; rewrite ?lookup_insert_ne by done;
          reflexivity
        | left; reflexivity ] ]).
Qed.

(** C10. When the snapshot's categoryOrder is the empty list, an import
    (merge or replace, completed or failed) leaves the category order
    persisted in localStorage exactly as it was; the order held by the
    store is either untouched or the result of loading that persisted
    order, and is untouched whenever the store was in sync with it. *)
Theorem import_empty_order_keeps_order backupData options w :
  categoryOrder backupData = Some [] ->
  let w' := (importBackup backupData options w).2 in
  persistedOrder w' = persistedOrder w /\
  (loadedOrder w' = loadedOrder w \/
   exists text, persistedOrder w = Some text /\ isEmpty text = false /\
                loadedOrder w' = default [] (JSON_parse_order text)) /\
  (orderInSync JSON_parse_order w -> loadedOrder w' = loadedOrder w).
Proof.
  intros Hempty w'.
  assert (reloads JSON_parse_order w w') as [Hp Hl].
  { subst w'. rewrite importBackup_unfold.
    destruct (validateBackup _) as [v|e]; [|reflexivity].
    destruct (negb (valid v)); [reflexivity|].
    by apply restore_reloads. }
  split; [done|]. split; [done|].
  intros Hsync. destruct Hl as [Hl|(text & Ht & Hne & Hl)]; [done|].
  unfold orderInSync in Hsync. rewrite Ht in Hsync.
  destruct Hsync as [Hs|Hs]; [congruence|]. by rewrite Hl, Hs.
Qed.

End Rejection.

Lemma import_rejects_invalid_witness :
  sampleImport brokenBackup (Some true) usedWorld
  = (Throw (Error
       "Invalid backup: Missing or invalid items array, Incompatible backup version: 2.0.0"),
     usedWorld).
Proof.
  pose proof (import_rejects_invalid sampleUuid sampleClock sampleStringifyOrder
                sampleParseOrder sampleStringifyPreferences brokenBackup
                (Some true) usedWorld _ eq_refl) as [H _].
  exact (H eq_refl).
Defined.

Lemma import_empty_order_keeps_order_witness :
  let w' := (sampleImport sampleBackup None usedWorld).2 in
  persistedOrder w' = Some "[dairy,produce]" /\
  loadedOrder w' = ["dairy"; "produce"].
Proof.
  pose proof (import_empty_order_keeps_order sampleUuid sampleClock
                sampleStringifyOrder sampleParseOrder sampleStringifyPreferences
                sampleBackup None usedWorld eq_refl) as (Hp & _ & Hl).
  split; [exact Hp|]. apply Hl. right. reflexivity.
Defined.

End BackupSpec.

(** ** composables/useListCategories: handleChangeCategory *)

Module PreferenceSpec.
Import JSString Data State App Effects SpecDefs Samples.

Lemma NoDup_fst_filter {V} (p : string * V -> bool) (l : list (string * V)) :
  NoDup l.*1 -> NoDup (List.filter p l).*1.
Proof.
  induction l as [|[k v] l IH]; [done|]. intros [Hk Hl]%NoDup_cons.
  simpl. destruct (p (k, v)); [|by apply IH].
  simpl. apply NoDup_cons. split; [|by apply IH].
  intros ([k' v'] & -> & Hin)%list_elem_of_fmap. apply Hk.
  apply list_elem_of_In, filter_In in Hin as [Hin _].
  apply list_elem_of_fmap. exists (k', v'). split; [done|].
  by apply list_elem_of_In.
Qed.

Lemma lookup_foldr_alter {V} (f : V -> V) (l : list (string * V))
    (t : gmap string V) k :
  NoDup l.*1 ->
  foldr (fun (kv : string * V) t => alter f kv.1 t) t l !! k
  = if decide (k ∈ l.*1) then f <$> t !! k else t !! k.
Proof.
  induction l as [|[k1 v1] l IH].
  { intros _. cbn [foldr fmap list_fmap]. by rewrite decide_False by apply not_elem_of_nil. }
  rewrite fmap_cons. intros [Hk Hl]%NoDup_cons. cbn [foldr fst] in *.
  specialize (IH Hl). rewrite lookup_alter.
  destruct (decide (k1 = k)) as [<-|Hne]; rewrite IH.
  - rewrite decide_False by done. by rewrite decide_True by apply list_elem_of_here.
  - destruct (decide (k ∈ l.*1)) as [Hin|Hin].
    + by rewrite decide_True by (by apply list_elem_of_further).
    + rewrite decide_False; [done|].
      intros [?|?]%elem_of_cons; congruence.
Qed.

(** Updating, one key at a time, the rows selected by a filter is the
    same as mapping the conditional update over the table. *)
Lemma lookup_alter_filtered {V} (p : string * V -> bool) (f : V -> V)
    (t : gmap string V) k :
  foldr (fun (kv : string * V) t => alter f kv.1 t) t
    (List.filter p (map_to_list t)) !! k
  = (fun v => if p (k, v) then f v else v) <$> t !! k.
Proof.
  rewrite lookup_foldr_alter
    by apply NoDup_fst_filter, NoDup_fst_map_to_list.
  destruct (t !! k) as [v|] eqn:E; simpl.
  - destruct (p (k, v)) eqn:Hp.
    + rewrite decide_True; [done|].
      apply list_elem_of_fmap. exists (k, v). split; [done|].
      apply list_elem_of_In, filter_In. split; [|done].
      by apply list_elem_of_In, elem_of_map_to_list.
    + rewrite decide_False; [done|].
      intros ([k' v'] & -> & Hin)%list_elem_of_fmap.
      apply list_elem_of_In, filter_In in Hin as [Hin Hp'].
      apply list_elem_of_In, elem_of_map_to_list in Hin. simpl in *.
      congruence.
  - by destruct (decide _).
Qed.

Section ChangeCategory.
Variable Date_now : nat -> Z.

Local Abbreviation handleChangeCategory := (App.handleChangeCategory Date_now).

(** C8. Changing the category of an item found in the loaded list saves
    the preference under the item's normalized name (in the store and
    in the database) and gives the new category to every item, in the
    database and in every loaded list, whose normalized name is that
    name; every other item is left as it was. *)
Theorem change_category_fans_out listId itemId newCategory w item :
  List.find (sameId itemId) (default [] (is_items (itemsStore w) !! listId))
    = Some item ->
  let key := normalizeItemName (i_name item) in
  let out := handleChangeCategory listId itemId newCategory w in
  let w' := out.2 in
  out.1 = Ok tt /\
  pf_preferences (preferencesStore w') !! key = Some newCategory /\
  (exists learnedAt,
     db_categoryPreferences (db w') !! key
     = Some (mkCategoryPreference key newCategory learnedAt)) /\
  (forall id,
     db_items (db w') !! id
     = recategorize key newCategory <$> db_items (db w) !! id) /\
  (forall lid,
     is_items (itemsStore w') !! lid
     = List.map (recategorize key newCategory)
         <$> is_items (itemsStore w) !! lid) /\
  (forall id it, db_items (db w') !! id = Some it ->
     normalizeItemName (i_name it) = key -> i_category it = newCategory) /\
  (forall lid its it, is_items (itemsStore w') !! lid = Some its ->
     In it its ->
     normalizeItemName (i_name it) = key -> i_category it = newCategory).
Proof.
  intros Hfind key out w'.
  assert (Hdb : forall id,
            db_items (db w') !! id
            = recategorize key newCategory <$> db_items (db w) !! id).
  { intros id. subst w' out. unfold App.handleChangeCategory, tryCatch.
    unfold bind at 1, gets at 1. rewrite Hfind.
    unfold savePreference, updateItemsByName, itemsDB_updateByName, action,
      bind, gets, modify, ret, now.
    cbn. rewrite lookup_alter_filtered. done. }
  assert (Hmem : forall lid,
            is_items (itemsStore w') !! lid
            = List.map (recategorize key newCategory)
                <$> is_items (itemsStore w) !! lid).
  { intros lid. subst w' out. unfold App.handleChangeCategory, tryCatch.
    unfold bind at 1, gets at 1. rewrite Hfind.
    unfold savePreference, updateItemsByName, itemsDB_updateByName, action,
      bind, gets, modify, ret, now.
    cbn. by rewrite lookup_fmap. }
  assert (Hcat : forall it, normalizeItemName
                   (i_name (recategorize key newCategory it)) = key ->
                 i_category (recategorize key newCategory it) = newCategory).
  { intros it. unfold recategorize.
    destruct (String.eqb_spec (normalizeItemName (i_name it)) key); [done|].
    by intros. }
  split; [|split; [|split; [|split; [exact Hdb|split; [exact Hmem|split]]]]].
  - subst w' out. unfold App.handleChangeCategory, tryCatch.
    unfold bind at 1, gets at 1. by rewrite Hfind.
  - subst w' out. unfold App.handleChangeCategory, tryCatch.
    unfold bind at 1, gets at 1. rewrite Hfind.
    unfold savePreference, updateItemsByName, itemsDB_updateByName, action,
      bind, gets, modify, ret, now.
    cbn. apply lookup_insert_eq.
  - subst w' out. unfold App.handleChangeCategory, tryCatch.
    unfold bind at 1, gets at 1. rewrite Hfind.
    unfold savePreference, updateItemsByName, itemsDB_updateByName, action,
      bind, gets, modify, ret, now.
    cbn. eexists. apply lookup_insert_eq.
  - intros id it Hit. rewrite Hdb in Hit.
    destruct (db_items (db w) !! id) as [it0|]; [|done].
    injection Hit as <-. apply Hcat.
  - intros lid its it Hits Hin. rewrite Hmem in Hits.
    destruct (is_items (itemsStore w) !! lid) as [its0|]; [|done].
    injection Hits as <-. apply in_map_iff in Hin as (it0 & <- & _).
    apply Hcat.
Qed.

End ChangeCategory.

Lemma change_category_fans_out_witness :
  let w' := (handleChangeCategory sampleClock "A" "i1" "beverages" milkWorld).2 in
  pf_preferences (preferencesStore w') !! "milk" = Some "beverages" /\
  i_category <$> db_items (db w') !! "i1" = Some "beverages" /\
  i_category <$> db_items (db w') !! "i2" = Some "beverages" /\
  i_category <$> db_items (db w') !! "i3" = Some "bakery" /\
  is_items (itemsStore w') !! "B"
  = Some [setCategory "beverages" milkB; breadB].
Proof.
  pose proof (change_category_fans_out sampleClock "A" "i1" "beverages"
                milkWorld milkA eq_refl) as (_ & Hp & _ & Hdb & Hmem & _).
  cbv zeta in *. rewrite !Hdb, Hmem. split; [exact Hp|]. by vm_compute.
Defined.

End PreferenceSpec.

(** ** composables/useBackup: what a completed import restores *)

Module RestoreSpec.
Import JSString JSRegExp Data Validate State App Effects SpecDefs Samples.
Import ValidateSpec BackupSpec.

Section Extends.
Context {V : Type} (key : V -> string).

Lemma extends_nil (m : gmap string V) : extends key m m [].
Proof.
  split; [constructor|]. split; [by intros v ?%elem_of_nil|].
  split; [by right|done].
Qed.

Lemma extends_insert (m : gmap string V) v :
  m !! key v = None -> extends key m (<[key v := v]> m) [v].
Proof.
  intros Hfresh. split; [apply NoDup_singleton|]. split; [|split].
  - intros v' ->%list_elem_of_singleton. by rewrite lookup_insert_eq.
  - intros k v'. rewrite lookup_insert. destruct (decide (key v = k)) as [<-|].
    + intros [= <-]. left. split; [|done]. by apply list_elem_of_singleton.
    + by right.
  - intros k v' Hk. rewrite lookup_insert_ne; [done|]. congruence.
Qed.

Lemma extends_app (a b c : gmap string V) n1 n2 :
  extends key a b n1 -> extends key b c n2 -> extends key a c (n1 ++ n2).
Proof.
  intros (Hd1 & Hn1 & Hf1 & Hb1) (Hd2 & Hn2 & Hf2 & Hb2).
  split; [|split; [|split]].
  - rewrite fmap_app. apply NoDup_app. split; [done|]. split; [|done].
    intros k (v1 & -> & Hv1)%list_elem_of_fmap (v2 & Hk & Hv2)%list_elem_of_fmap.
    destruct (Hn1 v1 Hv1) as [_ Hb]. destruct (Hn2 v2 Hv2) as [Hnone _].
    rewrite <- Hk in Hnone. congruence.
  - intros v [Hv|Hv]%elem_of_app.
    + destruct (Hn1 v Hv) as [Ha Hb]. split; [done|]. by apply Hb2.
    + destruct (Hn2 v Hv) as [Hb Hc]. split; [|done].
      destruct (a !! key v) as [x|] eqn:E; [|done].
      apply Hb1 in E. congruence.
  - intros k v Hc. destruct (Hf2 k v Hc) as [[Hv Hk]|Hb].
    + left. split; [|done]. apply elem_of_app. by right.
    + destruct (Hf1 k v Hb) as [[Hv Hk]|Ha]; [|by right].
      left. split; [|done]. apply elem_of_app. by left.
  - intros k v Ha. by apply Hb2, Hb1.
Qed.

Lemma extends_eq (a b b' : gmap string V) n :
  b = b' -> extends key a b n -> extends key a b' n.
Proof. by intros ->. Qed.
End Extends.

Lemma tableAddM_ok_inv {V} get upd k (v : V) w a w' :
  tableAddM get upd k v w = (Ok a, w') ->
  get (db w) !! k = None /\
  w' = updDb (upd (fun _ => <[k := v]> (get (db w)))) w.
Proof.
  unfold tableAddM, tableAdd. destruct (get (db w) !! k); [discriminate|].
  by intros [= <-].
Qed.

(** Splits a completed run into the runs of its parts. *)
Ltac inv_run :=
  repeat match goal with
  | H : bind _ _ _ = (Ok _, _) |- _ =>
      apply bind_ok_inv in H as (? & ? & ? & ?)
  | H : action _ _ true _ _ _ = (Ok _, _) |- _ =>
      apply action_rethrow_ok_inv in H as (? & ? & ->)
  | H : ret _ _ = (Ok _, _) |- _ =>
      first [ apply ret_ok_inv in H as [-> ->]
            | apply ret_ok_inv in H as [<- ->]
            | apply ret_ok_inv in H as [_ ->] ]
  | H : gets _ _ = (Ok _, _) |- _ => apply gets_ok_inv in H as [-> ->]
  | H : modify _ _ = (Ok _, _) |- _ => apply modify_ok_inv in H as ->
  | H : iterable _ _ _ = (Ok _, _) |- _ => apply iterable_ok_inv in H as [? ->]
  | H : uuid _ _ = (Ok _, _) |- _ => unfold uuid in H; injection H as <- <-
  | H : now _ _ = (Ok _, _) |- _ => unfold now in H; injection H as <- <-
  | H : tableAddM _ _ _ _ _ = (Ok _, _) |- _ =>
      apply tableAddM_ok_inv in H as [? ->]
  end.

Section Restore.
Variable uuidv4 : nat -> string.
Variable Date_now : nat -> Z.

Local Abbreviation createList := (App.createList uuidv4 Date_now).
Local Abbreviation archiveList := (App.archiveList Date_now).
Local Abbreviation createItem := (App.createItem uuidv4 Date_now).
Local Abbreviation toggleItemComplete := (App.toggleItemComplete Date_now).
Local Abbreviation restoreItem := (App.restoreItem uuidv4 Date_now).
Local Abbreviation restoreList := (App.restoreList uuidv4 Date_now).
Local Abbreviation createCategory := (App.createCategory Date_now).

Lemma createItem_ok listId name category quantity unit w item w' :
  createItem listId name category quantity unit w = (Ok item, w') ->
  db_items (db w) !! i_id item = None /\
  db_items (db w') = <[i_id item := item]> (db_items (db w)) /\
  db_lists (db w') = db_lists (db w) /\
  exists id addedAt,
    item = mkShoppingItem id listId name quantity unit category false addedAt
             None None None.
Proof.
  intros H. unfold App.createItem, itemsDB_create in H. inv_run.
  simpl in *. eauto 10.
Qed.

Lemma toggleItemComplete_ok listId id w w' item :
  db_items (db w) !! id = Some item ->
  toggleItemComplete listId id w = (Ok tt, w') ->
  db_lists (db w') = db_lists (db w) /\
  exists completedAt,
    db_items (db w')
    = alter (setCompleted (negb (i_completed item)) completedAt) id
        (db_items (db w)).
Proof.
  intros Hitem H. unfold App.toggleItemComplete, itemsDB_toggleComplete in H.
  inv_run. simpl in *. rewrite Hitem in *.
  destruct (negb (i_completed item)); inv_run;
    repeat match goal with
    | H : context [List.find ?p ?l] |- _ => destruct (List.find p l)
    | H : (if ?b then _ else _) _ = (Ok _, _) |- _ => destruct b
    | _ => progress inv_run
    end; simpl; eauto.
Qed.

Lemma restoreItem_ok newList item w w' :
  restoreItem newList item w = (Ok tt, w') ->
  exists it',
    restoredItem (l_id newList) item it' /\
    db_items (db w) !! i_id it' = None /\
    db_items (db w') = <[i_id it' := it']> (db_items (db w)) /\
    db_lists (db w') = db_lists (db w).
Proof.
  intros H. unfold App.restoreItem in H. inv_run.
  match goal with
  | H : App.createItem _ _ _ _ _ _ _ _ = _ |- _ =>
      apply createItem_ok in H as (Hfresh & Hitems & Hlists & id & addedAt & ->)
  end.
  simpl in *. destruct (i_completed item) eqn:Hc.
  - match goal with
    | H : App.toggleItemComplete _ _ _ _ = _ |- _ =>
        eapply toggleItemComplete_ok in H as (Hlists' & completedAt & Hitems');
          [|rewrite Hitems; apply lookup_insert_eq]
    end.
    simpl in *. rewrite Hitems, alter_insert_eq in Hitems'.
    eexists (mkShoppingItem id _ _ _ _ _ true addedAt completedAt None None).
    simpl. unfold restoredItem. simpl.
    split; [by repeat split|]. split; [done|]. split; [done|]. congruence.
  - inv_run.
    eexists (mkShoppingItem id _ _ _ _ _ false addedAt None None None).
    unfold restoredItem. simpl. by repeat split.
Qed.

Lemma forOf_restoreItem_ok newList its : forall w w',
  forOf its (restoreItem newList) w = (Ok tt, w') ->
  exists new,
    Forall2 (restoredItem (l_id newList)) its new /\
    extends i_id (db_items (db w)) (db_items (db w')) new /\
    db_lists (db w') = db_lists (db w).
Proof.
  induction its as [|it its IH]; intros w w' H; cbn [forOf] in H.
  - inv_run. exists []. split; [constructor|]. split; [apply extends_nil|done].
  - inv_run.
    match goal with
    | H : App.restoreItem _ _ _ _ _ = (Ok ?u, _) |- _ =>
        destruct u;
        apply restoreItem_ok in H as (it' & Hr & Hfresh & Hitems & Hlists)
    end.
    match goal with
    | H : forOf _ _ _ = _ |- _ =>
        apply IH in H as (new & Hnew & Hext & Hlists')
    end.
    exists (it' :: new). split; [by constructor|]. split; [|congruence].
    change (it' :: new) with ([it'] ++ new).
    eapply extends_app; [|exact Hext].
    rewrite Hitems. by apply extends_insert.
Qed.

Lemma createList_ok name color w l w' :
  createList name color w = (Ok l, w') ->
  db_lists (db w) !! l_id l = None /\
  db_lists (db w') = <[l_id l := l]> (db_lists (db w)) /\
  db_items (db w') = db_items (db w) /\
  exists id createdAt updatedAt,
    l = mkShoppingList id name createdAt updatedAt false color.
Proof.
  intros H. unfold App.createList, listsDB_create in H. inv_run.
  simpl in *. eauto 10.
Qed.

Lemma archiveList_ok id w w' :
  archiveList id w = (Ok tt, w') ->
  db_items (db w') = db_items (db w) /\
  exists updatedAt,
    db_lists (db w')
    = alter (setArchived true updatedAt) id (db_lists (db w)).
Proof.
  intros H. unfold App.archiveList, listsDB_archive in H. inv_run.
  repeat match goal with
  | H : context [List.find ?p ?l] |- _ => destruct (List.find p l)
  | _ => progress inv_run
  end; simpl; eauto.
Qed.

Lemma restoreList_ok backupData its l w w' :
  items backupData = Some its ->
  restoreList backupData l w = (Ok tt, w') ->
  exists g,
    restoredGroup its l g /\
    extends l_id (db_lists (db w)) (db_lists (db w')) [g.1] /\
    extends i_id (db_items (db w)) (db_items (db w')) g.2.
Proof.
  intros Hits H. unfold App.restoreList in H. rewrite Hits in H. inv_run.
  match goal with
  | H : App.createList _ _ _ _ _ = _ |- _ =>
      apply createList_ok in H
        as (Hfresh & Hlists & Hitems & id & createdAt & updatedAt & ->)
  end.
  match goal with
  | H : Some _ = Some _ |- _ => injection H as <-
  end.
  match goal with
  | H : forOf _ _ _ = (Ok ?u, _) |- _ =>
      destruct u;
      apply forOf_restoreItem_ok in H as (new & Hnew & Hext & Hlists')
  end.
  simpl in *. destruct (l_archived l) eqn:Ha.
  - match goal with
    | H : App.archiveList _ _ _ = (Ok ?u, _) |- _ =>
        destruct u; apply archiveList_ok in H as (Hitems' & t & Hlists'')
    end.
    rewrite Hlists, alter_insert_eq in Hlists''. simpl in Hlists''.
    exists (mkShoppingList id (l_name l) createdAt t true (l_color l), new).
    split; [|split].
    + split; [by repeat split|]. exact Hnew.
    + rewrite Hlists', Hlists''. by apply (extends_insert l_id).
    + by rewrite <- Hitems, <- Hitems'.
  - inv_run.
    exists (mkShoppingList id (l_name l) createdAt updatedAt false (l_color l), new).
    split; [|split].
    + split; [by repeat split|]. exact Hnew.
    + rewrite Hlists', Hlists. by apply (extends_insert l_id).
    + by rewrite <- Hitems.
Qed.

Lemma forOf_restoreList_ok backupData its ls : forall w w',
  items backupData = Some its ->
  forOf ls (restoreList backupData) w = (Ok tt, w') ->
  exists groups,
    Forall2 (restoredGroup its) ls groups /\
    extends l_id (db_lists (db w)) (db_lists (db w')) groups.*1 /\
    extends i_id (db_items (db w)) (db_items (db w')) (concat groups.*2).
Proof.
  induction ls as [|l ls IH]; intros w w' Hits H; cbn [forOf] in H.
  - inv_run. exists []. split; [constructor|]. split; apply extends_nil.
  - inv_run.
    match goal with
    | H : App.restoreList _ _ _ _ _ = (Ok ?u, _) |- _ =>
        destruct u;
        eapply restoreList_ok in H as (g & Hg & Hl & Hi); [|exact Hits]
    end.
    match goal with
    | H : forOf _ _ _ = _ |- _ =>
        apply IH in H as (groups & Hgs & Hls & His); [|exact Hits]
    end.
    exists (g :: groups). split; [by constructor|]. split.
    + rewrite fmap_cons. change (g.1 :: groups.*1) with ([g.1] ++ groups.*1).
      by eapply extends_app.
    + rewrite fmap_cons. simpl concat. by eapply extends_app.
Qed.

End Restore.

Section Categories.
Variable Date_now : nat -> Z.

Local Abbreviation createCategory := (App.createCategory Date_now).









Lemma elem_of_toArray {V} (t : gmap string V) v :
  v ∈ toArray t -> exists k, t !! k = Some v.
Proof.
  unfold toArray. intros ([k v'] & -> & Hin)%list_elem_of_fmap.
  exists k. by apply elem_of_map_to_list.
Qed.
End Categories.

(** A snapshot that passes validation has its four arrays. *)
Lemma valid_backup_arrays backupData v :
  validateBackup (jsOfBackup backupData) = Ok v -> valid v = true ->
  is_Some (lists backupData) /\ is_Some (items backupData) /\
  is_Some (customCategories backupData) /\ is_Some (products backupData).
Proof.
  intros Hv Hvalid.
  pose proof (validate_valid_iff _ _ Hv) as [Hnil _]. specialize (Hnil Hvalid).
  pose proof (validate_errors_complete _ _ Hv eq_refl) as H. cbv zeta in H.
  rewrite Hnil in H. destruct H as (_ & _ & Hl & Hi & Hc & Hp).
  cbn in Hl, Hi, Hc, Hp.
  destruct (lists backupData), (items backupData),
    (customCategories backupData), (products backupData);
    cbn in *; try (repeat split; by eexists); exfalso;
    first [by apply Hl|by apply Hi|by apply Hc|by apply Hp].
Qed.

Section Restoration.
Variable uuidv4 : nat -> string.
Variable Date_now : nat -> Z.
Variable JSON_stringify_order : list string -> string.
Variable JSON_parse_order : string -> option (list string).
Variable JSON_stringify_preferences : list (string * string) -> string.

Local Abbreviation importBackup :=
  (App.importBackup uuidv4 Date_now JSON_stringify_order JSON_parse_order
     JSON_stringify_preferences).
Local Abbreviation restore :=
  (App.restore uuidv4 Date_now JSON_stringify_order JSON_parse_order
     JSON_stringify_preferences).

Ltac keeps_tables :=
  match goal with
  | H : ?m ?w = (_, ?w') |- _ =>
      lazymatch m with
      | forOf _ (App.restoreList _ _ _) => fail
      | _ =>
        let K := fresh "K" in
        assert (K : same listTables w w')
          by (refine (ensures_run (same listTables) m w _ w' _ H);
              ensures_walk ltac:(intros; reflexivity));
        clear H
      end
  end.

Lemma afterClear_run merge w a w1 :
  (if negb merge then clearExisting else ret tt) w = (Ok a, w1) ->
  w1 = afterClear merge w.
Proof.
  unfold afterClear. destruct merge; simpl.
  - by intros [= <-].
  - by intros ->.
Qed.

Lemma restore_ok backupData merge its w w' :
  items backupData = Some its ->
  restore backupData merge w = (Ok tt, w') ->
  exists ls groups,
    lists backupData = Some ls /\
    Forall2 (restoredGroup its) ls groups /\
    extends l_id (db_lists (db (afterClear merge w))) (db_lists (db w'))
      groups.*1 /\
    extends i_id (db_items (db (afterClear merge w))) (db_items (db w'))
      (concat groups.*2).
Proof.
  intros Hits H. unfold App.restore in H. inv_run.
  match goal with
  | H : (if negb merge then _ else _) _ = _ |- _ =>
      apply afterClear_run in H as ->
  end.
  match goal with
  | H : forOf _ (App.restoreList _ _ _) _ = (Ok ?u, _) |- _ =>
      destruct u;
      eapply forOf_restoreList_ok in H as (groups & Hgs & Hls & His);
        [|exact Hits]
  end.
  repeat keeps_tables.
  unfold same, listTables in *.
  repeat match goal with
  | K : (_, _) = (_, _) |- _ => injection K as ? ?
  end.
  match type of Hls with
  | extends _ (db_lists (db ?a)) (db_lists (db ?b)) _ =>
      assert (E1 : db_lists (db a) = db_lists (db (afterClear merge w)))
        by congruence;
      assert (E2 : db_lists (db b) = db_lists (db w')) by congruence;
      assert (E3 : db_items (db a) = db_items (db (afterClear merge w)))
        by congruence;
      assert (E4 : db_items (db b) = db_items (db w')) by congruence
  end.
  rewrite E1, E2 in Hls. rewrite E3, E4 in His.
  eexists _, groups. split; [eassumption|]. by split.
Qed.

Lemma loadLists_run w :
  loadLists w
  = (Ok tt,
     listsSetLoading false
       (listsSet (fun _ => toArray (db_lists (db w)))
          (listsSetError None (listsSetLoading true w)))).
Proof. reflexivity. Qed.

Lemma restore_loads_lists backupData merge w w' :
  restore backupData merge w = (Ok tt, w') ->
  ls_lists (listsStore w') = toArray (db_lists (db w')).
Proof.
  intros H. unfold App.restore in H. inv_run.
  match goal with
  | H : loadLists _ = _ |- _ => rewrite loadLists_run in H; injection H as _ <-
  end.
  repeat match goal with
  | H : ?m ?w = (_, ?w') |- _ =>
      lazymatch m with
      | loadProducts => idtac
      | loadCustomCategories _ => idtac
      end;
      let K := fresh "K" in
      assert (K : same listViews w w')
        by (refine (ensures_run (same listViews) m w _ w' _ H);
            ensures_walk ltac:(intros; reflexivity));
      clear H
  end.
  unfold same, listViews in *.
  repeat match goal with
  | K : (_, _) = (_, _) |- _ => injection K as ? ?
  end.
  simpl in *. congruence.
Qed.

(** C1, amended. After a completed import, merge or replace, the list
    and item tables are those the restoration started from (the
    existing ones for a merge, what the destructive phase left for a
    replace) plus, under freshly generated ids, one list per snapshot
    list with its name, colour and archived flag and, in it, one item
    per snapshot item of that list with its name, category and
    completed flag; the quantity of a restored item is 1 and its unit,
    barcode and notes are absent. The list store holds the rows of the
    list table. *)
Theorem import_restores_lists_and_items backupData options w w' :
  importBackup backupData options w = (Ok tt, w') ->
  let base := afterClear (default false options) w in
  exists ls its groups,
    lists backupData = Some ls /\ items backupData = Some its /\
    Forall2 (restoredGroup its) ls groups /\
    extends l_id (db_lists (db base)) (db_lists (db w')) groups.*1 /\
    extends i_id (db_items (db base)) (db_items (db w')) (concat groups.*2) /\
    ls_lists (listsStore w') = toArray (db_lists (db w')).
Proof.
  intros H base. rewrite importBackup_unfold in H.
  destruct (validateBackup _) as [v|e] eqn:Hv; [|discriminate].
  destruct (valid v) eqn:Hvalid; [|discriminate]. simpl in H.
  destruct (valid_backup_arrays _ _ Hv Hvalid) as (_ & [its Hits] & _).
  destruct (restore_ok _ _ _ _ _ Hits H) as (ls & groups & Hls & Hg & H1 & H2).
  exists ls, its, groups. repeat (split; [done|]).
  by eapply restore_loads_lists.
Qed.








End Restoration.

Lemma import_restores_lists_and_items_witness :
  let w' := (sampleImport sampleBackup None usedWorld).2 in
  exists ls its groups,
    lists sampleBackup = Some ls /\ items sampleBackup = Some its /\
    Forall2 (restoredGroup its) ls groups /\
    extends l_id (db_lists (db (afterClear false usedWorld))) (db_lists (db w'))
      groups.*1 /\
    extends i_id (db_items (db (afterClear false usedWorld))) (db_items (db w'))
      (concat groups.*2) /\
    ls_lists (listsStore w') = toArray (db_lists (db w')).
Proof.
  apply (import_restores_lists_and_items sampleUuid sampleClock
           sampleStringifyOrder sampleParseOrder sampleStringifyPreferences
           sampleBackup None usedWorld).
  by vm_compute.
Defined.

(** C1 as stated fails for the quantity: the snapshot holds "Eggs" with
    quantity 6, the import completes, and every item it restored has
    quantity 1, so no restored item carries the name and the quantity of
    that snapshot item. *)
Lemma import_resets_quantity :
  let out := sampleImport sampleBackup None emptyWorld in
  let restored := toArray (db_items (db out.2)) in
  out.1 = Ok tt /\
  (exists it, it ∈ default [] (items sampleBackup) /\
              i_name it = "Eggs" /\ i_quantity it = 6%Z) /\
  List.map (fun it' => (i_name it', i_category it', i_completed it', i_quantity it'))
    restored
  = [("Eggs", "dairy", true, 1%Z);
     ("Treats", "custom_pets_1680000000000", false, 1%Z)] /\
  ~ (forall it', it' ∈ restored ->
       exists it, it ∈ default [] (items sampleBackup) /\
                  i_name it' = i_name it /\ i_category it' = i_category it /\
                  i_completed it' = i_completed it /\
                  i_quantity it' = i_quantity it).
Proof.
  cbv zeta.
  assert (E : toArray (db_items (db (sampleImport sampleBackup None emptyWorld).2))
              = [mkShoppingItem "uuid-1" "uuid-0" "Eggs" 1 None "dairy" true
                   1700000000006 (Some 1700000000007%Z) None None;
                 mkShoppingItem "uuid-2" "uuid-0" "Treats" 1 None
                   "custom_pets_1680000000000" false 1700000000009 None None None])
    by (by vm_compute).
  rewrite E. split; [by vm_compute|]. split.
  { eexists. split; [apply list_elem_of_here|]. by split. }
  split; [reflexivity|].
  intros H. destruct (H _ (list_elem_of_here _ _)) as (it & Hin & Hn & _ & _ & Hq).
  simpl in Hin. apply elem_of_cons in Hin as [->|Hin]; [discriminate Hq|].
  apply list_elem_of_singleton in Hin as ->. discriminate Hn.
Qed.




End RestoreSpec.

(** ** Item names: parsing, sanitizing and the built-in categories *)

Module TextSpec.
Import JSString JSRegExp Categorization Data State App SpecDefs TextShapes.
Import StringFacts RegExpFacts.

(** *** Trimming *)

Lemma trimStart_first s : trimStart s = "" \/ firstNonWs (trimStart s) = true.
Proof.
  induction s as [|c s IH]; [by left|]. simpl.
  destruct (isWhiteSpace c) eqn:Hc; [done|]. right. simpl. by rewrite Hc.
Qed.

Lemma trimEnd_last s : trimEnd s = "" \/ lastNonWs (trimEnd s) = true.
Proof.
  induction s as [|c s IH]; [by left|]. simpl.
  destruct (isWhiteSpace c) eqn:Hc; simpl.
  - destruct (trimEnd s) as [|d t] eqn:E; simpl; [by left|].
    right. by destruct IH.
  - right. destruct (trimEnd s) as [|d t] eqn:E; simpl; [by rewrite Hc|].
    by destruct IH.
Qed.

Lemma trimEnd_first s : firstNonWs s = true -> firstNonWs (trimEnd s) = true.
Proof.
  destruct s as [|c s]; [done|]. simpl. intros Hc.
  apply negb_true_iff in Hc. rewrite Hc. simpl. by rewrite Hc.
Qed.

Lemma trimStart_fixed s : firstNonWs s = true -> trimStart s = s.
Proof.
  destruct s as [|c s]; [done|]. simpl. intros Hc.
  apply negb_true_iff in Hc. by rewrite Hc.
Qed.

Lemma trimEnd_fixed s : lastNonWs s = true -> trimEnd s = s.
Proof.
  induction s as [|c s IH]; [done|]. intros H.
  apply lastNonWs_cons in H as [[-> Hc]|[Hne Hl]]; simpl.
  - by rewrite Hc.
  - rewrite (IH Hl), Hne. by rewrite andb_false_r.
Qed.

Lemma trimmed_trim s : trimmed (trim s) = true.
Proof.
  unfold trim, trimmed.
  destruct (trimStart_first s) as [->|Hf]; [done|].
  destruct (trimEnd_last (trimStart s)) as [->|Hl]; [done|].
  by rewrite (trimEnd_first _ Hf), Hl, orb_true_r.
Qed.

Lemma trimmed_fixed s : trimmed s = true <-> trim s = s.
Proof.
  split.
  - unfold trimmed, trim. destruct s as [|c s]; [done|]. cbn [isEmpty orb].
    intros [Hf Hl]%andb_true_iff.
    by rewrite (trimStart_fixed _ Hf), (trimEnd_fixed _ Hl).
  - intros <-. apply trimmed_trim.
Qed.

(** *** Matches of an expression that ends in a greedy class *)

Lemma endsWith_refl s : endsWith s s.
Proof. by exists "". Qed.

Lemma endsWith_cons c x s : endsWith x s -> endsWith x (String c s).
Proof. intros [pre ->]. by exists (String c pre). Qed.

Lemma append_cons c (a b : string) : String c a +:+ b = String c (a +:+ b).
Proof. reflexivity. Qed.

Lemma endsWith_trans x y z : endsWith x y -> endsWith y z -> endsWith x z.
Proof.
  intros [p ->] [q ->]. exists (q +:+ p).
  induction q as [|c q IH]; [done|]. rewrite !append_cons. by f_equal.
Qed.

Lemma length_append (a b : string) :
  String.length (a +:+ b) = String.length a + String.length b.
Proof.
  induction a as [|c a IH]; [done|]. rewrite append_cons. simpl. by rewrite IH.
Qed.

Lemma lastNonWs_append pre x :
  isEmpty x = false -> lastNonWs (pre +:+ x) = lastNonWs x.
Proof.
  intros Hx. induction pre as [|c pre IH]; [done|].
  rewrite append_cons. cbn [lastNonWs]. rewrite IH.
  destruct (pre +:+ x) as [|d u] eqn:E; [|done].
  destruct pre; [|done]. change ("" +:+ x) with x in E. by subst.
Qed.

Section Matching.
Variable ic : bool.

Lemma plusK_inv {A} p s (k : option ascii -> string -> option A) x :
  plusK p s k = Some x ->
  exists c s', k (Some c) s' = Some x /\ endsWith s' s.
Proof.
  revert x. induction s as [|c s IH]; intros x; [done|]. simpl.
  destruct (p c); [|done].
  destruct (plusK p s k) as [y|] eqn:E.
  - intros [= <-]. destruct (IH y eq_refl) as (d & s' & Hk & Hs).
    exists d, s'. split; [done|]. by apply endsWith_cons.
  - intros Hk. exists c, s. split; [done|].
    apply endsWith_cons, endsWith_refl.
Qed.

(** A match hands to its continuation a position further on in the
    input. *)
Lemma rmatch_inv {A} r : forall prev s (k : option ascii -> string -> option A) x,
  rmatch ic r prev s k = Some x ->
  exists prev' s', k prev' s' = Some x /\ endsWith s' s.
Proof.
  induction r as [|c|p| | |r1 IH1 r2 IH2|r1 IH1 r2 IH2|r IH|p];
    intros prev s k x; simpl.
  - intros H. exists prev, s. split; [done|apply endsWith_refl].
  - destruct s as [|d s]; [done|]. destruct (charMatches ic c d); [|done].
    intros H. exists (Some d), s. split; [done|].
    apply endsWith_cons, endsWith_refl.
  - destruct s as [|d s]; [done|]. destruct (p d); [|done].
    intros H. exists (Some d), s. split; [done|].
    apply endsWith_cons, endsWith_refl.
  - destruct (xorb _ _); [|done].
    intros H. exists prev, s. split; [done|apply endsWith_refl].
  - destruct prev; [done|].
    intros H. exists None, s. split; [done|apply endsWith_refl].
  - intros H. apply IH1 in H as (p1 & s1 & H & Hs1).
    apply IH2 in H as (p2 & s2 & H & Hs2).
    exists p2, s2. split; [done|]. by eapply endsWith_trans.
  - destruct (rmatch ic r1 prev s k) as [y|] eqn:E.
    + intros [= <-]. by apply IH1 in E.
    + apply IH2.
  - destruct (rmatch ic r prev s k) as [y|] eqn:E.
    + intros [= <-]. by apply IH in E.
    + intros H. exists prev, s. split; [done|apply endsWith_refl].
  - intros H. apply plusK_inv in H as (c & s' & H & Hs). by exists (Some c), s'.
Qed.

(** The greedy class leaves nothing of the class behind when nothing
    follows it in the expression. *)
Lemma plusK_greedy p s x :
  plusK p s (fun _ rest => Some rest) = Some x ->
  endsWith x s /\ headNot p x = true.
Proof.
  revert x. induction s as [|c s IH]; intros x; [done|]. simpl.
  destruct (p c) eqn:Hc; [|done].
  destruct (plusK p s (fun _ rest => Some rest)) as [y|] eqn:E.
  - intros [= <-]. destruct (IH y eq_refl) as [Hs Hh].
    split; [by apply endsWith_cons|done].
  - intros [= <-]. split; [apply endsWith_cons, endsWith_refl|].
    destruct s as [|d s]; [done|]. simpl in *.
    destruct (p d); [|done].
    by destruct (plusK p s (fun _ rest => Some rest)).
Qed.

Lemma exec_trailing_class r1 r2 p prev s x :
  exec ic (RSeq r1 (RSeq r2 (RPlus p))) prev s = Some x ->
  endsWith x s /\ headNot p x = true.
Proof.
  unfold exec. simpl. intros H.
  apply rmatch_inv in H as (p1 & s1 & H & Hs1).
  apply rmatch_inv in H as (p2 & s2 & H & Hs2).
  apply plusK_greedy in H as [Hs Hh]. split; [|done].
  eapply endsWith_trans; [|done]. by eapply endsWith_trans.
Qed.

(** An expression anchored with [^] matches at index 0 only. *)
Lemma replaceFrom_anchored_rest r rep s : forall c,
  replaceFrom ic (RSeq RBol r) rep (Some c) s 0 = s.
Proof. induction s as [|d s IH]; intros c; [done|]. simpl. by rewrite IH. Qed.

Lemma replaceFrom_anchored_skip r rep pre rest : forall c,
  replaceFrom ic (RSeq RBol r) rep (Some c) (pre +:+ rest) (String.length pre)
  = rest.
Proof.
  induction pre as [|d pre IH]; intros c.
  - apply replaceFrom_anchored_rest.
  - rewrite append_cons. cbn [String.length replaceFrom]. apply IH.
Qed.

Lemma replaceAll_anchored r t :
  replaceAll ic (RSeq RBol r) "" t = t \/
  exists rest, exec ic (RSeq RBol r) None t = Some rest /\
               replaceAll ic (RSeq RBol r) "" t = rest.
Proof.
  unfold replaceAll. destruct t as [|c t].
  - left. simpl. by destruct (exec ic (RSeq RBol r) None "").
  - cbn [replaceFrom].
    destruct (exec ic (RSeq RBol r) None (String c t)) as [rest|] eqn:E.
    + pose proof E as E'. unfold exec in E'.
      apply rmatch_inv in E' as (p' & s' & [= ->] & [pre Hpre]).
      rewrite Hpre, length_append, Nat.add_sub.
      destruct pre as [|d pre].
      * left. simpl. by rewrite replaceFrom_anchored_rest.
      * right. exists rest. split; [done|]. rewrite append_cons in Hpre.
        injection Hpre as -> ->. cbn [String.length].
        change ("" +:+ ?x) with x. apply replaceFrom_anchored_skip.
    + left. by rewrite replaceFrom_anchored_rest.
Qed.

(** Removing a prefix matched by [^(...)\s+] from a trimmed string
    leaves a trimmed string. *)
Lemma strip_prefix_trimmed a t :
  trimmed t = true ->
  trimmed (replaceAll ic (seqs [RBol; a; RPlus isWhiteSpace]) "" t) = true.
Proof.
  intros Ht. change (seqs [RBol; a; RPlus isWhiteSpace])
    with (RSeq RBol (RSeq a (RPlus isWhiteSpace))).
  destruct (replaceAll_anchored (RSeq a (RPlus isWhiteSpace)) t)
    as [->|(rest & He & ->)]; [done|].
  apply exec_trailing_class in He as [[pre ->] Hh].
  unfold trimmed. destruct rest as [|d rest]; [done|].
  cbn [isEmpty orb]. simpl in Hh. cbn [firstNonWs]. rewrite Hh.
  cbn [andb]. unfold trimmed in Ht.
  rewrite lastNonWs_append in Ht by done.
  destruct (pre +:+ String d rest) eqn:E.
  - destruct pre; discriminate.
  - cbn [isEmpty orb] in Ht. by apply andb_true_iff in Ht as [_ ?].
Qed.

End Matching.

Lemma cleanItem_trimmed item : trimmed (cleanItem item) = true.
Proof.
  unfold cleanItem. cbv zeta.
  unfold reArticlePrefix. apply strip_prefix_trimmed.
  unfold rePhrasePrefix. apply strip_prefix_trimmed.
  unfold reVerbPrefix. apply strip_prefix_trimmed.
  apply trimmed_trim.
Qed.

(** *** De-duplication *)

Lemma existsb_eqb_elem x (l : list string) :
  existsb (String.eqb x) l = true <-> x ∈ l.
Proof.
  rewrite existsb_exists. split.
  - intros (y & Hy & ->%String.eqb_eq). by apply list_elem_of_In.
  - intros H. exists x. split; [by apply list_elem_of_In|apply String.eqb_refl].
Qed.

Lemma setAddAll_NoDup items : forall seen,
  NoDup seen -> NoDup (setAddAll seen items).
Proof.
  induction items as [|x items IH]; intros seen Hs; [done|]. simpl.
  apply IH. destruct (existsb (String.eqb x) seen) eqn:E; [done|].
  apply NoDup_app. split; [done|]. split; [|apply NoDup_singleton].
  intros y Hy ->%list_elem_of_singleton.
  apply existsb_eqb_elem in Hy. congruence.
Qed.

Lemma setAddAll_elem x items : forall seen,
  x ∈ setAddAll seen items <-> x ∈ seen \/ x ∈ items.
Proof.
  induction items as [|y items IH]; intros seen; simpl.
  - split; [by left|]. intros [?|H]; [done|]. by apply not_elem_of_nil in H.
  - rewrite IH, elem_of_cons.
    destruct (existsb (String.eqb y) seen) eqn:E.
    + apply existsb_eqb_elem in E. split; [tauto|].
      intros [?|[->|?]]; tauto.
    + rewrite elem_of_app, list_elem_of_singleton. tauto.
Qed.

Lemma parse_elem input x :
  x ∈ parseItemsFromText input ->
  isEmpty x = false /\ exists segment, x = cleanItem segment.
Proof.
  unfold parseItemsFromText. destruct (isEmpty (trim input)).
  - by intros H%not_elem_of_nil.
  - cbv zeta. unfold arrayFromSet. rewrite setAddAll_elem.
    intros [H%not_elem_of_nil|H]; [done|].
    apply list_elem_of_In, filter_In in H as [H Hne].
    apply negb_true_iff in Hne. split; [done|].
    apply in_map_iff in H as (segment & <- & _). by exists segment.
Qed.

(** X1. Whatever the text, [parseItemsFromText] returns pairwise
    distinct, non-empty names; a text that is empty or only white space
    gives no name at all. *)
Theorem parse_items_distinct_nonempty (input : string) :
  NoDup (parseItemsFromText input) /\
  (forall x, x ∈ parseItemsFromText input -> x <> "") /\
  (trim input = "" -> parseItemsFromText input = []).
Proof.
  split; [|split].
  - unfold parseItemsFromText. destruct (isEmpty (trim input)).
    + apply NoDup_nil_2.
    + apply setAddAll_NoDup, NoDup_nil_2.
  - intros x [Hne _]%parse_elem ->. done.
  - intros H. unfold parseItemsFromText. by rewrite H.
Qed.

(** X2. Every name [parseItemsFromText] returns has no white space at
    either end, also after a filler prefix has been cut off: trimming it
    again changes nothing. *)
Theorem parse_items_trimmed (input x : string) :
  x ∈ parseItemsFromText input -> trim x = x.
Proof.
  intros [_ [segment ->]]%parse_elem.
  apply trimmed_fixed, cleanItem_trimmed.
Qed.

Lemma parse_items_trimmed_witness :
  "milk" ∈ parseItemsFromText "  buy   milk ,add the  " /\ trim "milk" = "milk".
Proof.
  assert (H : "milk" ∈ parseItemsFromText "  buy   milk ,add the  ")
    by (apply list_elem_of_In; vm_compute; auto).
  split; [exact H|]. exact (parse_items_trimmed _ _ H).
Defined.

(** *** [sanitizeItemName] *)

Lemma length_trimStart s : String.length (trimStart s) <= String.length s.
Proof.
  induction s as [|c s IH]; [done|]. simpl.
  destruct (isWhiteSpace c); simpl; lia.
Qed.

Lemma exec_ws_run prev s :
  exec false (RPlus isWhiteSpace) prev s
  = match s with
    | EmptyString => None
    | String c s' => if isWhiteSpace c then Some (trimStart s') else None
    end.
Proof.
  unfold exec. simpl. induction s as [|c s IH]; [done|]. simpl.
  destruct (isWhiteSpace c); [|done]. rewrite IH.
  destruct s as [|d s]; [done|]. simpl. by destruct (isWhiteSpace d).
Qed.

(** A global replace of [\s+] replaces each maximal run once. *)
Lemma replaceFrom_ws_run rep s : forall prev,
  replaceFrom false (RPlus isWhiteSpace) rep prev s 0 = collapseFrom rep false s /\
  replaceFrom false (RPlus isWhiteSpace) rep prev s
    (String.length s - String.length (trimStart s)) = collapseFrom rep true s.
Proof.
  induction s as [|c s IH]; intros prev; [done|].
  assert (H0 : replaceFrom false (RPlus isWhiteSpace) rep prev (String c s) 0
               = collapseFrom rep false (String c s)).
  { cbn [replaceFrom collapseFrom]. rewrite exec_ws_run.
    destruct (isWhiteSpace c) eqn:Hc.
    - pose proof (length_trimStart s). cbn [String.length].
      rewrite Nat.sub_succ_l by done.
      by rewrite (proj2 (IH (Some c))).
    - by rewrite (proj1 (IH (Some c))). }
  split; [done|]. cbn [trimStart].
  destruct (isWhiteSpace c) eqn:Hc.
  - pose proof (length_trimStart s). cbn [String.length collapseFrom].
    rewrite Nat.sub_succ_l by done. rewrite Hc. cbn [replaceFrom].
    apply IH.
  - rewrite Nat.sub_diag, H0. cbn [collapseFrom]. by rewrite Hc.
Qed.

Lemma sanitize_collapse name :
  sanitizeItemName name = collapseFrom " " false (trim name).
Proof. apply replaceFrom_ws_run. Qed.

Lemma collapse_idem s :
  collapseFrom " " false (collapseFrom " " false s) = collapseFrom " " false s /\
  collapseFrom " " true (collapseFrom " " true s) = collapseFrom " " true s.
Proof.
  induction s as [|c s [IH1 IH2]]; [done|]. cbn [collapseFrom].
  destruct (isWhiteSpace c) eqn:Hc.
  - split; [|done]. change (" " +:+ ?x) with (String " " x).
    cbn [collapseFrom]. change (isWhiteSpace " ") with true. cbv iota.
    change (" " +:+ ?x) with (String " " x). by rewrite IH2.
  - cbn [collapseFrom]. rewrite Hc, IH1. done.
Qed.

Lemma collapse_first s :
  lastNonWs s = true -> firstNonWs (collapseFrom " " true s) = true.
Proof.
  induction s as [|c s IH]; [done|]. intros H. cbn [collapseFrom].
  destruct (isWhiteSpace c) eqn:Hc.
  - apply lastNonWs_cons in H as [[_ ?]|[_ H]]; [congruence|]. by apply IH.
  - simpl. by rewrite Hc.
Qed.

Lemma collapse_singleSpaced s : forall inRun,
  s = "" \/ lastNonWs s = true ->
  singleSpaced (collapseFrom " " inRun s) = true.
Proof.
  induction s as [|c s IH]; intros inRun H; [done|].
  destruct H as [|H]; [done|]. cbn [collapseFrom].
  destruct (isWhiteSpace c) eqn:Hc.
  - apply lastNonWs_cons in H as [[_ ?]|[_ H]]; [congruence|].
    destruct inRun; [by apply IH; right|].
    change (" " +:+ ?x) with (String " " x). cbn [singleSpaced].
    change (isWhiteSpace " ") with true. cbv iota.
    rewrite (collapse_first _ H), IH by (by right). done.
  - cbn [singleSpaced]. rewrite Hc. apply IH.
    apply lastNonWs_cons in H as [[-> _]|[_ H]]; [by left|by right].
Qed.

Lemma collapse_last s : forall inRun,
  lastNonWs s = true -> lastNonWs (collapseFrom " " inRun s) = true.
Proof.
  induction s as [|c s IH]; intros inRun H; [done|]. cbn [collapseFrom].
  destruct (isWhiteSpace c) eqn:Hc.
  - apply lastNonWs_cons in H as [[_ ?]|[_ H]]; [congruence|].
    destruct inRun; [by apply IH|].
    change (" " +:+ ?x) with (String " " x).
    specialize (IH true H). simpl.
    by destruct (collapseFrom " " true s).
  - apply lastNonWs_cons in H as [[-> _]|[_ H]]; [simpl; by rewrite Hc|].
    specialize (IH false H). simpl.
    by destruct (collapseFrom " " false s).
Qed.

Lemma collapse_trimmed s :
  trimmed s = true -> trimmed (collapseFrom " " false s) = true.
Proof.
  unfold trimmed. destruct s as [|c s]; [done|]. cbn [isEmpty orb].
  intros [Hf Hl]%andb_true_iff. simpl in Hf. apply negb_true_iff in Hf.
  pose proof (collapse_last _ false Hl) as Hl'. revert Hl'.
  cbn [collapseFrom]. rewrite Hf. intros ->. simpl. by rewrite Hf.
Qed.

Lemma collapse_fixed s :
  singleSpaced s = true ->
  collapseFrom " " false s = s /\
  (firstNonWs s = true -> collapseFrom " " true s = s).
Proof.
  induction s as [|c s IH]; [done|]. cbn [singleSpaced collapseFrom firstNonWs].
  destruct (isWhiteSpace c) eqn:Hc.
  - intros [[Hsp Hf]%andb_true_iff Hs]%andb_true_iff.
    apply Ascii.eqb_eq in Hsp as ->. split; [|done].
    change (" " +:+ ?x) with (String " " x).
    by rewrite (proj2 (IH Hs) Hf).
  - intros Hs. by rewrite (proj1 (IH Hs)).
Qed.

Lemma sanitize_shape name :
  trim (sanitizeItemName name) = sanitizeItemName name /\
  singleSpaced (sanitizeItemName name) = true.
Proof.
  rewrite sanitize_collapse. pose proof (trimmed_trim name) as Ht.
  split; [by apply trimmed_fixed, collapse_trimmed|].
  apply collapse_singleSpaced. unfold trimmed in Ht.
  destruct (trim name); [by left|]. right.
  cbn [isEmpty orb] in Ht. by apply andb_true_iff in Ht as [_ ?].
Qed.

Lemma sanitize_fixed name :
  trim name = name -> singleSpaced name = true -> sanitizeItemName name = name.
Proof.
  intros Ht Hs. rewrite sanitize_collapse, Ht. by apply collapse_fixed.
Qed.

Lemma sanitize_idem name :
  sanitizeItemName (sanitizeItemName name) = sanitizeItemName name.
Proof. destruct (sanitize_shape name). by apply sanitize_fixed. Qed.

(** X3. [sanitizeItemName] is idempotent; its results are the strings
    without white space at either end in which every white-space
    character is a single space between two other characters, and these
    are exactly the names it leaves unchanged. *)
Theorem sanitize_idempotent (name : string) :
  sanitizeItemName (sanitizeItemName name) = sanitizeItemName name /\
  (sanitizeItemName name = name <->
   trim name = name /\ singleSpaced name = true).
Proof.
  split; [apply sanitize_idem|]. split.
  - intros <-. apply sanitize_shape.
  - intros [Ht Hs]. by apply sanitize_fixed.
Qed.

(** *** Keyword categories are built-in categories *)

Lemma scanCategories_elem n entries :
  scanCategories n entries ∈ (List.map fst entries ++ ["other"]).
Proof.
  induction entries as [|[cat kws] entries IH]; simpl.
  - apply list_elem_of_here.
  - destruct (anyKeyword n kws); [apply list_elem_of_here|].
    by apply list_elem_of_further.
Qed.

(** X4. Without a preference, [categorizeItem] always answers with the
    id of one of the ten built-in categories, which the category store
    resolves to that built-in category whatever custom categories it
    holds. *)
Theorem categorize_yields_builtin (itemName : string) (w : World) :
  exists cat, cat ∈ DEFAULT_CATEGORIES /\
    c_id cat = categorizeItem itemName None /\
    getCategoryById w (categorizeItem itemName None) = Some cat.
Proof.
  unfold categorizeItem, keywordCategory. cbn [truthy]. cbv zeta iota.
  pose proof (scanCategories_elem (trim (toLowerCase itemName)) categoryKeywords)
    as H.
  unfold getCategoryById, allCategories.
  revert H. generalize (scanCategories (trim (toLowerCase itemName)) categoryKeywords).
  intros c H. simpl in H. repeat (apply elem_of_cons in H as [->|H]);
    [..|by apply not_elem_of_nil in H];
    (eexists; split; [|split; [|reflexivity]];
       [apply list_elem_of_In; simpl; tauto|reflexivity]).
Qed.

End TextSpec.

(** ** stores/products, stores/preferences, stores/lists and stores/items *)

Module StoreSpec.
Import JSString JSRegExp Categorization Data Validate State App Stores.
Import Effects SpecDefs StoreShapes TextShapes Samples StoreSamples StringFacts TextSpec.
Import BackupSpec RestoreSpec.

(** *** saveProduct *)

Lemma replaceOrPush_find p l :
  List.find (sameBarcode (p_barcode p)) (replaceOrPush p l) = Some p.
Proof.
  unfold sameBarcode. induction l as [|q l IH]; simpl.
  - by rewrite String.eqb_refl.
  - destruct (String.eqb (p_barcode q) (p_barcode p)) eqn:E; simpl.
    + by rewrite String.eqb_refl.
    + by rewrite E.
Qed.

Lemma replaceOrPush_other p l q :
  p_barcode q <> p_barcode p -> q ∈ replaceOrPush p l <-> q ∈ l.
Proof.
  intros Hq. induction l as [|r l IH]; simpl.
  - rewrite list_elem_of_singleton. split; [by intros ->|].
    by intros ?%not_elem_of_nil.
  - destruct (String.eqb_spec (p_barcode r) (p_barcode p)) as [E|E].
    + rewrite !elem_of_cons. split; (intros [->|?]; [congruence|by right]).
    + rewrite !elem_of_cons, IH. done.
Qed.

Lemma replaceOrPush_barcodes p l x :
  x ∈ p_barcode <$> replaceOrPush p l ->
  x = p_barcode p \/ x ∈ p_barcode <$> l.
Proof.
  induction l as [|r l IH]; simpl.
  - intros ->%list_elem_of_singleton. by left.
  - destruct (String.eqb_spec (p_barcode r) (p_barcode p)) as [E|E]; simpl.
    + intros [->|?]%elem_of_cons; [by left|]. right. by apply list_elem_of_further.
    + intros [->|H]%elem_of_cons.
      * right. apply list_elem_of_here.
      * destruct (IH H); [by left|]. right. by apply list_elem_of_further.
Qed.

Lemma replaceOrPush_NoDup p l :
  NoDup (p_barcode <$> l) -> NoDup (p_barcode <$> replaceOrPush p l).
Proof.
  induction l as [|r l IH]; simpl.
  - intros _. apply NoDup_singleton.
  - intros [Hr Hl]%NoDup_cons.
    destruct (String.eqb_spec (p_barcode r) (p_barcode p)) as [E|E]; simpl.
    + apply NoDup_cons. by rewrite <- E.
    + apply NoDup_cons. split; [|by apply IH].
      intros [?|?]%replaceOrPush_barcodes; [congruence|done].
Qed.

Lemma replaceOrPush_length p l :
  length (replaceOrPush p l)
  = if existsb (sameBarcode (p_barcode p)) l then length l else S (length l).
Proof.
  unfold sameBarcode. induction l as [|r l IH]; [done|]. simpl.
  destruct (String.eqb (p_barcode r) (p_barcode p)); simpl; [done|].
  rewrite IH. by destruct (existsb _ l).
Qed.

(** X5. [saveProduct] is an upsert by barcode: it always succeeds, the
    product table and the product store then both hold the new product,
    stamped with the current time, under that barcode; every product
    with another barcode is kept; a store with one product per barcode
    stays so, and it grows by one exactly when the barcode was new. *)
Theorem saveProduct_upserts (Date_now : nat -> Z) (barcode name category : string)
    (w : World) :
  let newProduct := mkProduct barcode name category (Date_now (clockReads w)) in
  let out := saveProduct Date_now barcode name category w in
  let before := ps_products (productsStore w) in
  let after := ps_products (productsStore out.2) in
  out.1 = Ok newProduct /\
  db_products (db out.2) = <[barcode := newProduct]> (db_products (db w)) /\
  List.find (sameBarcode barcode) after = Some newProduct /\
  (forall q, p_barcode q <> barcode -> q ∈ after <-> q ∈ before) /\
  (NoDup (p_barcode <$> before) -> NoDup (p_barcode <$> after)) /\
  length after
  = (if existsb (sameBarcode barcode) before then length before
     else S (length before)).
Proof.
  cbv zeta. unfold saveProduct, productsDB_save, bind, now, modify, ret. cbn.
  set (p := mkProduct barcode name category (Date_now (clockReads w))).
  split; [done|]. split; [done|]. split; [apply (replaceOrPush_find p)|].
  split; [intros q Hq; by apply (replaceOrPush_other p)|].
  split; [apply replaceOrPush_NoDup|apply (replaceOrPush_length p)].
Qed.

(** *** Preferences *)

Lemma isWhiteSpace_toLowerCaseChar c :
  isWhiteSpace (toLowerCaseChar c) = isWhiteSpace c.
Proof. destruct c as [[] [] [] [] [] [] [] []]; reflexivity. Qed.

Lemma toLowerCase_trimStart s :
  toLowerCase (trimStart s) = trimStart (toLowerCase s).
Proof.
  induction s as [|c s IH]; [done|]. simpl.
  rewrite isWhiteSpace_toLowerCaseChar. by destruct (isWhiteSpace c).
Qed.

Lemma isEmpty_toLowerCase s : isEmpty (toLowerCase s) = isEmpty s.
Proof. by destruct s. Qed.

Lemma toLowerCase_trimEnd s :
  toLowerCase (trimEnd s) = trimEnd (toLowerCase s).
Proof.
  induction s as [|c s IH]; [done|]. simpl.
  rewrite isWhiteSpace_toLowerCaseChar, <- IH, isEmpty_toLowerCase.
  by destruct (isWhiteSpace c && isEmpty (trimEnd s)).
Qed.

Lemma toLowerCase_trim s : toLowerCase (trim s) = trim (toLowerCase s).
Proof. unfold trim. by rewrite toLowerCase_trimEnd, toLowerCase_trimStart. Qed.

Lemma trim_idem s : trim (trim s) = trim s.
Proof. apply trimmed_fixed, trimmed_trim. Qed.

(** The normalized name does not depend on the case of the name nor on
    white space around it, and normalizing is idempotent. *)
Lemma normalizeItemName_insensitive name :
  normalizeItemName (toLowerCase name) = normalizeItemName name /\
  normalizeItemName (trim name) = normalizeItemName name /\
  normalizeItemName (normalizeItemName name) = normalizeItemName name.
Proof.
  unfold normalizeItemName. split; [by rewrite toLowerCase_idem|].
  split.
  - by rewrite toLowerCase_trim, trim_idem.
  - by rewrite toLowerCase_trim, toLowerCase_idem, trim_idem.
Qed.

(** X6. A saved preference is found again under every spelling of the
    name that differs only in case or in white space around it (unless
    the category saved is the empty string, which reads as no
    preference); the preferences of all other names are untouched, and
    the preference table holds the row under the normalized name. *)
Theorem savePreference_roundtrip (Date_now : nat -> Z)
    (itemName category other : string) (w : World) :
  normalizeItemName other = normalizeItemName itemName ->
  let out := savePreference Date_now itemName category w in
  out.1 = Ok tt /\
  getPreferredCategory out.2 other
  = (if isEmpty category then None else Some category) /\
  getPreferredCategory out.2 (toLowerCase other)
  = getPreferredCategory out.2 other /\
  getPreferredCategory out.2 (trim other) = getPreferredCategory out.2 other /\
  (forall name, normalizeItemName name <> normalizeItemName itemName ->
     getPreferredCategory out.2 name = getPreferredCategory w name) /\
  db_categoryPreferences (db out.2) !! normalizeItemName itemName
  = Some (mkCategoryPreference (normalizeItemName itemName) category
            (Date_now (clockReads w))).
Proof.
  intros Hn. cbv zeta.
  destruct (normalizeItemName_insensitive other) as (Hl & Ht & _).
  unfold getPreferredCategory. rewrite Hl, Ht, Hn.
  unfold savePreference, action, bind, now, modify. cbn.
  rewrite !lookup_insert_eq. split; [done|]. split; [done|].
  split; [done|]. split; [done|]. split; [|done].
  intros name Hne. by rewrite lookup_insert_ne.
Qed.

Lemma savePreference_roundtrip_witness :
  getPreferredCategory
    (savePreference sampleClock " Oat Milk " "beverages" emptyWorld).2 "OAT MILK"
  = Some "beverages".
Proof.
  exact (proj1 (proj2 (savePreference_roundtrip sampleClock " Oat Milk "
                         "beverages" "OAT MILK" emptyWorld eq_refl))).
Defined.

(** X7. [removePreference] forgets the preference of a name under every
    spelling with the same normalized name, in the store and in the
    table, and leaves the preferences of all other names as they were. *)
Theorem removePreference_forgets (itemName other : string) (w : World) :
  normalizeItemName other = normalizeItemName itemName ->
  let out := removePreference itemName w in
  out.1 = Ok tt /\
  getPreferredCategory out.2 other = None /\
  db_categoryPreferences (db out.2) !! normalizeItemName other = None /\
  (forall name, normalizeItemName name <> normalizeItemName itemName ->
     getPreferredCategory out.2 name = getPreferredCategory w name /\
     db_categoryPreferences (db out.2) !! normalizeItemName name
     = db_categoryPreferences (db w) !! normalizeItemName name).
Proof.
  intros Hn. cbv zeta. unfold getPreferredCategory. rewrite Hn.
  unfold removePreference, action, bind, modify. cbn.
  rewrite !lookup_delete_eq. split; [done|]. split; [done|]. split; [done|].
  intros name Hne. by rewrite !lookup_delete_ne.
Qed.

Lemma removePreference_forgets_witness :
  getPreferredCategory
    (removePreference "milk"
       (savePreference sampleClock "Milk" "beverages" emptyWorld).2).2 " MILK "
  = None.
Proof.
  exact (proj1 (proj2 (removePreference_forgets "milk" " MILK "
    (savePreference sampleClock "Milk" "beverages" emptyWorld).2 eq_refl))).
Defined.

(** Loading the rows of the preference table one after the other. *)
Lemma forOf_set_preferences prefs : forall w,
  forOf prefs (fun pref =>
    modify (preferencesSet (<[cp_itemName pref := cp_category pref]>))) w
  = (Ok tt,
     preferencesSet (fun m =>
       foldl (fun m pref => <[cp_itemName pref := cp_category pref]> m) m prefs) w).
Proof.
  induction prefs as [|p prefs IH]; intros w.
  - by destruct w as [? ? ? ? ? [] ? ? ?].
  - cbn [forOf]. unfold bind, modify at 1. rewrite IH.
    by destruct w as [? ? ? ? ? [] ? ? ?].
Qed.

Lemma loadPreferences_run w :
  loadPreferences w
  = (Ok tt,
     preferencesSetLoading false
       (preferencesSet (fun m =>
          foldl (fun m pref => <[cp_itemName pref := cp_category pref]> m) m
            (toArray (db_categoryPreferences (db w))))
          (preferencesSet (fun _ => ∅)
             (preferencesSetError None (preferencesSetLoading true w))))).
Proof.
  unfold loadPreferences, action. unfold bind at 1, gets.
  unfold bind, modify at 1. by rewrite forOf_set_preferences.
Qed.

Lemma lookup_foldl_preferences (l : list (string * CategoryPreference)) k :
  forall m : gmap string string,
  NoDup l.*1 ->
  (forall kv, kv ∈ l -> cp_itemName kv.2 = kv.1) ->
  foldl (fun m pref => <[cp_itemName pref := cp_category pref]> m) m l.*2 !! k
  = match List.find (fun kv => String.eqb kv.1 k) l with
    | Some kv => Some (cp_category kv.2)
    | None => m !! k
    end.
Proof.
  induction l as [|[k1 v1] l IH]; intros m Hnd Hkey; [done|].
  apply NoDup_cons in Hnd as [Hk1 Hnd]. cbn [fmap list_fmap foldl snd fst].
  rewrite IH; [|done|intros kv Hkv; apply Hkey; by apply list_elem_of_further].
  pose proof (Hkey (k1, v1) (list_elem_of_here _ _)) as E. simpl in E.
  cbn [List.find fst]. destruct (String.eqb_spec k1 k) as [->|Hne].
  - rewrite E, lookup_insert_eq.
    destruct (List.find _ l) as [[k2 v2]|] eqn:F; [|done].
    apply List.find_some in F as [Hin Hk]. simpl in Hk.
    apply String.eqb_eq in Hk as ->. exfalso. apply Hk1.
    apply list_elem_of_fmap. exists (k, v2). split; [done|].
    by apply list_elem_of_In.
  - rewrite E, lookup_insert_ne by done. done.
Qed.

Lemma find_map_to_list {V} (t : gmap string V) k :
  match List.find (fun kv => String.eqb kv.1 k) (map_to_list t) with
  | Some kv => t !! k = Some kv.2
  | None => t !! k = None
  end.
Proof.
  destruct (List.find _ _) as [[k' v]|] eqn:F.
  - apply List.find_some in F as [Hin Hk]. simpl in Hk.
    apply String.eqb_eq in Hk as ->.
    by apply list_elem_of_In, elem_of_map_to_list in Hin.
  - destruct (t !! k) as [v|] eqn:E; [|done].
    apply elem_of_map_to_list, list_elem_of_In in E.
    apply (List.find_none _ _ F) in E. simpl in E.
    by rewrite String.eqb_refl in E.
Qed.

(** X8. The preference store mirrors the preference table:
    [loadPreferences] makes the store hold, for every name, the category
    of the table row of that name, and [savePreference],
    [removePreference] and [clearAll] keep store and table in step. *)
Theorem preferences_mirror_table (Date_now : nat -> Z) (w : World) :
  keyedBy cp_itemName (db_categoryPreferences (db w)) ->
  (let out := loadPreferences w in
   out.1 = Ok tt /\ db out.2 = db w /\ preferencesInSync out.2) /\
  (preferencesInSync w ->
   (forall itemName category,
      let w' := (savePreference Date_now itemName category w).2 in
      preferencesInSync w' /\
      keyedBy cp_itemName (db_categoryPreferences (db w'))) /\
   (forall itemName,
      let w' := (removePreference itemName w).2 in
      preferencesInSync w' /\
      keyedBy cp_itemName (db_categoryPreferences (db w'))) /\
   preferencesInSync (clearAll w).2).
Proof.
  intros Hkey. split; [|intros Hsync; split; [|split]].
  - cbv zeta. rewrite loadPreferences_run. cbn.
    split; [done|]. split; [done|]. intros k. cbn.
    unfold toArray. rewrite lookup_foldl_preferences.
    + pose proof (find_map_to_list (db_categoryPreferences (db w)) k) as F.
      destruct (List.find _ _) as [[k' v]|]; rewrite F; [done|].
      by rewrite lookup_empty.
    + apply NoDup_fst_map_to_list.
    + intros [k' v] Hkv%elem_of_map_to_list. by apply Hkey.
  - intros itemName category. cbv zeta.
    unfold savePreference, action, bind, now, modify. cbn. split.
    + intros k. cbn. rewrite !lookup_insert.
      destruct (decide (normalizeItemName itemName = k)); [done|apply Hsync].
    + intros k v. cbn. rewrite lookup_insert.
      destruct (decide (normalizeItemName itemName = k)) as [<-|].
      * by intros [= <-].
      * apply Hkey.
  - intros itemName. cbv zeta.
    unfold removePreference, action, bind, modify. cbn. split.
    + intros k. cbn. rewrite !lookup_delete.
      destruct (decide (normalizeItemName itemName = k)); [done|apply Hsync].
    + intros k v. cbn. rewrite lookup_delete.
      destruct (decide (normalizeItemName itemName = k)); [done|apply Hkey].
  - unfold clearAll, action, bind, modify. cbn. intros k. cbn.
    by rewrite !lookup_empty.
Qed.

Lemma preferences_mirror_table_witness :
  let w' := (loadPreferences learnedWorld).2 in
  preferencesInSync w' /\ getPreferredCategory w' "Oat Milk" = Some "beverages".
Proof.
  split; [|by vm_compute].
  refine (proj2 (proj2 (proj1 (preferences_mirror_table sampleClock
                                 learnedWorld _)))).
  intros k v.
  change (db_categoryPreferences (db learnedWorld))
    with ({["oat milk" := milkPreference]} : gmap string CategoryPreference).
  by intros [<- <-]%lookup_singleton_Some.
Defined.

(** *** deleteList *)

(** X9. [deleteList] always succeeds and cascades in the database: the
    list row is gone together with exactly the items of that list, and
    the items of every other list are kept. The list store drops the
    list; the item store is not touched, so items of the deleted list
    that were loaded stay in memory. *)
Theorem deleteList_cascades (id : string) (w : World) :
  let out := deleteList id w in
  out.1 = Ok tt /\
  db_lists (db out.2) = delete id (db_lists (db w)) /\
  (forall k it, db_items (db out.2) !! k = Some it <->
     db_items (db w) !! k = Some it /\ i_listId it <> id) /\
  ls_lists (listsStore out.2)
  = List.filter (fun l => negb (sameListId id l)) (ls_lists (listsStore w)) /\
  itemsStore out.2 = itemsStore w.
Proof.
  cbv zeta. unfold deleteList, listsDB_remove, action, bind, modify. cbn.
  split; [done|]. split; [done|]. split; [|done].
  intros k it. by rewrite map_lookup_filter_Some.
Qed.

(** *** toggleItemComplete *)

Lemma toggle_step (Date_now : nat -> Z) listId id w item :
  db_items (db w) !! id = Some item ->
  let out := toggleItemComplete Date_now listId id w in
  out.1 = Ok tt /\
  db_items (db out.2)
  = alter (setCompleted (negb (i_completed item))
             (if i_completed item then None
              else Some (Date_now (clockReads w)))) id (db_items (db w)).
Proof.
  intros Hitem. cbv zeta.
  unfold toggleItemComplete, itemsDB_toggleComplete, action, bind, gets.
  cbn. rewrite Hitem.
  destruct (i_completed item); cbn;
    destruct (List.find _ _) as [it'|]; cbn;
    try destruct (i_completed it'); cbn; done.
Qed.

(** X10. Toggling a stored item always succeeds and flips its completed
    flag in the database, stamping it with the current time when it
    becomes completed and clearing the stamp when it becomes open; no
    other row changes. Toggling twice gives the item back with its
    original flag, but not its original completion time: the stamp is
    absent for an open item and renewed for a completed one. *)
Theorem toggle_item_twice (Date_now : nat -> Z) (listId id : string) (w : World)
    (item : ShoppingItem) :
  db_items (db w) !! id = Some item ->
  let out1 := toggleItemComplete Date_now listId id w in
  let out2 := toggleItemComplete Date_now listId id out1.2 in
  out1.1 = Ok tt /\ out2.1 = Ok tt /\
  db_items (db out1.2)
  = <[id := setCompleted (negb (i_completed item))
              (if i_completed item then None
               else Some (Date_now (clockReads w))) item]> (db_items (db w)) /\
  exists completedAt,
    db_items (db out2.2)
    = <[id := setCompleted (i_completed item) completedAt item]>
        (db_items (db w)) /\
    (is_Some completedAt <-> i_completed item = true).
Proof.
  intros Hitem. cbv zeta.
  destruct (toggle_step Date_now listId id w item Hitem) as [Hok1 Hdb1].
  set (w1 := (toggleItemComplete Date_now listId id w).2) in *.
  set (item1 := setCompleted (negb (i_completed item))
                  (if i_completed item then None
                   else Some (Date_now (clockReads w))) item).
  assert (Hitem1 : db_items (db w1) !! id = Some item1).
  { rewrite Hdb1, lookup_alter, decide_True by done. by rewrite Hitem. }
  destruct (toggle_step Date_now listId id w1 item1 Hitem1) as [Hok2 Hdb2].
  split; [done|]. split; [done|]. split.
  - rewrite Hdb1. apply map_eq. intros k. rewrite lookup_alter, lookup_insert.
    destruct (decide (id = k)) as [<-|]; [by rewrite Hitem|done].
  - exists (if i_completed item then Some (Date_now (clockReads w1)) else None).
    split.
    + rewrite Hdb2, Hdb1. apply map_eq. intros k.
      rewrite !lookup_alter, lookup_insert.
      destruct (decide (id = k)) as [<-|]; [|done].
      rewrite ?decide_True by done.
      rewrite Hitem. cbn. unfold item1, setCompleted. cbn.
      rewrite negb_involutive. by destruct (i_completed item).
    + destruct (i_completed item); cbn.
      * split; [done|]. intros _. by eexists.
      * split; [by intros [? ?]|done].
Qed.

Lemma toggle_item_twice_witness :
  let w1 := (toggleItemComplete sampleClock "B" "i2" milkWorld).2 in
  let w2 := (toggleItemComplete sampleClock "B" "i2" w1).2 in
  i_completed <$> db_items (db w1) !! "i2" = Some false /\
  i_completedAt <$> db_items (db w1) !! "i2" = Some None /\
  i_completed <$> db_items (db w2) !! "i2" = Some true.
Proof.
  destruct (toggle_item_twice sampleClock "B" "i2" milkWorld milkB eq_refl)
    as (_ & _ & H1 & t & H2 & _).
  cbv zeta. rewrite H1, H2, !lookup_insert_eq. done.
Defined.

(** *** removeCompletedItems *)

Lemma filter_completed_none (l : list ShoppingItem) :
  List.filter i_completed (List.filter (fun item => negb (i_completed item)) l)
  = [].
Proof.
  induction l as [|x l IH]; [done|]. simpl.
  destruct (i_completed x) eqn:E; simpl; [done|]. by rewrite E.
Qed.

Lemma length_filter_negb {A} (p : A -> bool) (l : list A) :
  length (List.filter (fun x => negb (p x)) l)
  = length l - length (List.filter p l).
Proof.
  induction l as [|x l IH]; [done|]. simpl.
  pose proof (List.filter_length_le p l).
  destruct (p x); simpl; lia.
Qed.

(** X11. [removeCompletedItems] always succeeds; in the database it
    deletes exactly the completed items of the list, in the store it
    keeps the open items of the list in their order, so that afterwards
    no item of the list counts as completed and the total has dropped by
    the number that were; other lists are not touched. *)
Theorem removeCompleted_clears (listId : string) (w : World) :
  let out := removeCompletedItems listId w in
  out.1 = Ok tt /\
  (forall k it, db_items (db out.2) !! k = Some it <->
     db_items (db w) !! k = Some it /\
     ~ (i_listId it = listId /\ i_completed it = true)) /\
  getItemsByListId out.2 listId
  = List.filter (fun item => negb (i_completed item)) (getItemsByListId w listId) /\
  getCompletedCount out.2 listId = 0 /\
  getTotalCount out.2 listId
  = getTotalCount w listId - getCompletedCount w listId /\
  (forall other, other <> listId ->
     is_items (itemsStore out.2) !! other = is_items (itemsStore w) !! other).
Proof.
  cbv zeta. unfold getCompletedCount, getTotalCount, getItemsByListId.
  unfold removeCompletedItems, itemsDB_removeCompleted, action, bind, gets,
    modify, getItemsByListId. cbn.
  rewrite !lookup_insert_eq. cbn.
  split; [done|]. split; [intros k it; by rewrite map_lookup_filter_Some|].
  split; [done|]. split; [by rewrite filter_completed_none|].
  split; [apply length_filter_negb|].
  intros other Hne. by rewrite lookup_insert_ne.
Qed.

(** X12. [deleteItem] always succeeds, deletes the row of that id from
    the database and the item of that id from the loaded list, and keeps
    every other row and every other loaded item, in order. *)
Theorem deleteItem_removes (listId id : string) (w : World) :
  let out := deleteItem listId id w in
  out.1 = Ok tt /\
  db_items (db out.2) = delete id (db_items (db w)) /\
  getItemsByListId out.2 listId
  = List.filter (fun item => negb (sameId id item)) (getItemsByListId w listId) /\
  List.find (sameId id) (getItemsByListId out.2 listId) = None /\
  (forall other, other <> listId ->
     is_items (itemsStore out.2) !! other = is_items (itemsStore w) !! other).
Proof.
  cbv zeta. unfold getItemsByListId.
  unfold deleteItem, itemsDB_remove, action, bind, gets, modify,
    getItemsByListId. cbn.
  rewrite !lookup_insert_eq. cbn.
  split; [done|]. split; [done|]. split; [done|]. split.
  - destruct (List.find _ _) as [x|] eqn:F; [|done].
    apply List.find_some in F as [[_ Hx]%filter_In Hy]. by rewrite Hy in Hx.
  - intros other Hne. by rewrite lookup_insert_ne.
Qed.

End StoreSpec.

(** ** composables/useBackup: exportBackup, and composables/useShare *)

Module ExportSpec.
Import JSString JSRegExp Categorization Data Validate State App Stores.
Import Effects SpecDefs StoreShapes Samples StoreSamples.
Import BackupSpec RestoreSpec.

Lemma bind_run {A B} (m : M A) (k : A -> M B) w a w1 :
  m w = (Ok a, w1) -> bind m k w = k a w1.
Proof. unfold bind. by intros ->. Qed.

Lemma loadItems_run listId w :
  loadItems listId w
  = (Ok tt,
     itemsSetLoading false
       (itemsSet (<[listId := List.filter (inList listId)
                                (toArray (db_items (db w)))]>)
          (itemsSetError None (itemsSetLoading true w)))).
Proof. reflexivity. Qed.

Lemma elem_of_itemsOfLists d ls i :
  i ∈ itemsOfLists d ls <->
  (exists k, db_items d !! k = Some i) /\ exists l, l ∈ ls /\ i_listId i = l_id l.
Proof.
  unfold itemsOfLists. rewrite list_elem_of_In, in_concat. split.
  - intros (x & Hx & Hi). apply in_map_iff in Hx as (l & <- & Hl).
    apply filter_In in Hi as [Hi Hl']. unfold inList in Hl'.
    apply String.eqb_eq in Hl'. split.
    + apply list_elem_of_In, elem_of_toArray in Hi. done.
    + exists l. split; [by apply list_elem_of_In|done].
  - intros [[k Hk] (l & Hl & Hil)].
    exists (List.filter (inList (l_id l)) (toArray (db_items d))). split.
    + apply in_map_iff. exists l. split; [done|]. by apply list_elem_of_In.
    + apply filter_In. split.
      * apply list_elem_of_In. unfold toArray. apply list_elem_of_fmap.
        exists (k, i). split; [done|]. by apply elem_of_map_to_list.
      * unfold inList. by apply String.eqb_eq.
Qed.

Section Snapshot.
Variable Date_now : nat -> Z.
Variable JSON_parse_order : string -> option (list string).
Variable JSON_parse_preferences : string -> option (list (string * string)).

Local Abbreviation exportBackup :=
  (Stores.exportBackup Date_now JSON_parse_order JSON_parse_preferences).

Lemma loadCustomCategories_total w :
  exists w', loadCustomCategories JSON_parse_order w = (Ok tt, w') /\
    db w' = db w /\ listsStore w' = listsStore w /\
    productsStore w' = productsStore w /\ localStorage w' = localStorage w /\
    clockReads w' = clockReads w /\
    cs_customCategories (categoriesStore w')
    = sortBySortOrder (toArray (db_categories (db w))).
Proof.
  unfold loadCustomCategories, bind, action, gets, modify. simpl.
  destruct (localStorage w !! "categoryOrder") as [text|]; simpl;
    [destruct (isEmpty text); simpl;
     [|destruct (JSON_parse_order text); simpl]|];
    eexists; (split; [reflexivity|]); by repeat split.
Qed.

Lemma collectItems_run ls : forall acc w,
  exists w', collectItems ls acc w = (Ok (acc ++ itemsOfLists (db w) ls), w') /\
    outsideItemStore w' = outsideItemStore w.
Proof.
  induction ls as [|l ls IH]; intros acc w.
  - exists w. unfold itemsOfLists. simpl. by rewrite app_nil_r.
  - cbn [collectItems]. rewrite (bind_run _ _ _ _ _ (loadItems_run (l_id l) w)).
    unfold bind at 1, gets at 1.
    match goal with
    | |- context [collectItems ls ?a ?w1] =>
        destruct (IH a w1) as (w' & -> & Hframe)
    end.
    exists w'. split; [|by rewrite Hframe].
    unfold getItemsByListId. cbn. rewrite lookup_insert_eq. cbn.
    unfold itemsOfLists. cbn. by rewrite <- app_assoc.
Qed.

(** The run of [exportBackup]: the snapshot, field by field. *)
Lemma exportBackup_run (w : World) :
  exists w',
    exportBackup w
    = (Ok (mkBackupData (VStr "1.0.0") (VNum (Date_now (clockReads w)))
             (Some (toArray (db_lists (db w))))
             (Some (itemsOfLists (db w) (toArray (db_lists (db w)))))
             (Some (sortBySortOrder (toArray (db_categories (db w)))))
             (Some (toArray (db_products (db w))))
             (Some (storedOr JSON_parse_preferences w "categoryPreferences"))
             (Some (storedOr JSON_parse_order w "categoryOrder"))), w') /\
    db w' = db w /\ localStorage w' = localStorage w.
Proof.
  unfold Stores.exportBackup.
  rewrite (bind_run _ _ _ _ _ (loadLists_run w)).
  set (w1 := listsSetLoading false _).
  unfold loadProducts, productsDB_getAll.
  unfold bind at 1. unfold bind at 1, gets at 1, modify at 1.
  set (w2 := productsSet _ w1).
  destruct (loadCustomCategories_total w2)
    as (w3 & E3 & Hdb3 & Hls3 & Hps3 & Hlo3 & Hck3 & Hcs3).
  rewrite (bind_run _ _ _ _ _ E3).
  unfold bind at 1, gets at 1.
  destruct (collectItems_run (ls_lists (listsStore w3)) [] w3)
    as (w4 & E4 & Hframe).
  rewrite (bind_run _ _ _ _ _ E4).
  unfold outsideItemStore in Hframe.
  injection Hframe as Hdb4 Hls4 Hcs4 Hps4 _ Hlo4 _ Hck4.
  unfold bind, gets, now, ret, storedOr. cbn.
  rewrite ?Hls4, ?Hcs4, ?Hps4, ?Hlo4, ?Hck4, ?Hdb4, ?Hls3, ?Hps3, ?Hlo3, ?Hck3,
    ?Hcs3, ?Hdb3.
  eexists. split; [reflexivity|]. cbn.
  by rewrite ?Hlo4, ?Hdb4, ?Hlo3, ?Hdb3.
Qed.

(** X13. [exportBackup] always returns a snapshot, and the snapshot
    passes [validateBackup] with no error. It is taken from the
    database, which it leaves as it is: all list rows, all product
    rows, the custom categories, and the items of the exported lists,
    list by list, which are exactly the items whose list exists. The
    preferences and the category order it carries are read from
    localStorage only; the preference table and the preference store do
    not enter the snapshot. *)
Theorem exportBackup_valid (w : World) :
  exists b w',
    exportBackup w = (Ok b, w') /\
    validateBackup (jsOfBackup b) = Ok (mkValidation true []) /\
    db w' = db w /\ localStorage w' = localStorage w /\
    version b = VStr "1.0.0" /\
    timestamp b = VNum (Date_now (clockReads w)) /\
    lists b = Some (toArray (db_lists (db w))) /\
    items b = Some (itemsOfLists (db w) (toArray (db_lists (db w)))) /\
    (forall i, i ∈ itemsOfLists (db w) (toArray (db_lists (db w))) <->
       (exists k, db_items (db w) !! k = Some i) /\
       exists k l, db_lists (db w) !! k = Some l /\ i_listId i = l_id l) /\
    customCategories b = Some (sortBySortOrder (toArray (db_categories (db w)))) /\
    products b = Some (toArray (db_products (db w))) /\
    categoryPreferences b
    = Some (storedOr JSON_parse_preferences w "categoryPreferences") /\
    categoryOrder b = Some (storedOr JSON_parse_order w "categoryOrder").
Proof.
  destruct (exportBackup_run w) as (w' & E & Hdb & Hlo).
  eexists _, w'. split; [exact E|]. cbn.
  split; [reflexivity|]. repeat (split; [done|]).
  split; [|by repeat split].
  intros i. rewrite elem_of_itemsOfLists. split.
  - intros [Hi (l & Hl & El)]. split; [done|].
    apply elem_of_toArray in Hl as [k Hk]. by exists k, l.
  - intros [Hi (k & l & Hk & El)]. split; [done|]. exists l. split; [|done].
    unfold toArray. apply list_elem_of_fmap. exists (k, l). split; [done|].
    by apply elem_of_map_to_list.
Qed.

End Snapshot.

(** *** Exceptions an action can throw *)

Lemma onlyThrows_ret {A} P (a : A) : onlyThrows P (ret a).
Proof. intros w e. discriminate. Qed.
Lemma onlyThrows_gets {A} P (g : World -> A) : onlyThrows P (gets g).
Proof. intros w e. discriminate. Qed.
Lemma onlyThrows_modify P g : onlyThrows P (modify g).
Proof. intros w e. discriminate. Qed.
Lemma onlyThrows_uuid P uuidv4 : onlyThrows P (uuid uuidv4).
Proof. intros w e. discriminate. Qed.
Lemma onlyThrows_now P Date_now : onlyThrows P (now Date_now).
Proof. intros w e. discriminate. Qed.

Lemma onlyThrows_bind {A B} P (m : M A) (k : A -> M B) :
  onlyThrows P m -> (forall a, onlyThrows P (k a)) -> onlyThrows P (bind m k).
Proof.
  intros Hm Hk w e. unfold bind. specialize (Hm w).
  destruct (m w) as [[a|e'] w1]; simpl in *; [apply Hk|].
  intros [= ->]. by apply Hm.
Qed.

Lemma onlyThrows_forOf {A} P (xs : list A) body :
  (forall x, onlyThrows P (body x)) -> onlyThrows P (forOf xs body).
Proof.
  intros H. induction xs as [|x xs IH]; [apply onlyThrows_ret|].
  simpl. apply onlyThrows_bind; [apply H|done].
Qed.

Lemma onlyThrows_action {A} P sl se re (d : A) body :
  onlyThrows P body -> onlyThrows P (action sl se re d body).
Proof.
  intros Hb w e. unfold action. specialize (Hb (se None (sl true w))).
  destruct (body _) as [[a|e'] w1]; simpl in *; [discriminate|].
  destruct re; [|discriminate]. intros [= ->]. by apply Hb.
Qed.

Lemma onlyThrows_tableAddM {V} get upd k (v : V) :
  onlyThrows isConstraintError (tableAddM get upd k v).
Proof.
  intros w e. unfold tableAddM, tableAdd.
  destruct (get (db w) !! k); [|discriminate]. intros [= <-]. by eexists.
Qed.

Ltac onlyThrows_walk :=
  repeat first
    [ apply onlyThrows_ret | apply onlyThrows_gets | apply onlyThrows_modify
    | apply onlyThrows_bind | apply onlyThrows_forOf
    | apply onlyThrows_action | apply onlyThrows_uuid | apply onlyThrows_now
    | apply onlyThrows_tableAddM
    | match goal with
      | |- onlyThrows _ (if ?b then _ else _) => destruct b
      | |- onlyThrows _ (match ?o with _ => _ end) => destruct o
      end
    | progress autounfold with app
    | intros ? ].

Section Accepted.
Variable uuidv4 : nat -> string.
Variable Date_now : nat -> Z.
Variable JSON_stringify_order : list string -> string.
Variable JSON_parse_order : string -> option (list string).
Variable JSON_stringify_preferences : list (string * string) -> string.
Variable JSON_parse_preferences : string -> option (list (string * string)).
Variable JSON_stringify : jsval -> string.
Variable JSON_parse_backup : string -> option BackupData.
Variable syntaxErrorMessage : string -> string.

Local Abbreviation exportBackup :=
  (Stores.exportBackup Date_now JSON_parse_order JSON_parse_preferences).
Local Abbreviation downloadBackup :=
  (Stores.downloadBackup Date_now JSON_parse_order JSON_parse_preferences
     JSON_stringify).
Local Abbreviation importBackup :=
  (App.importBackup uuidv4 Date_now JSON_stringify_order JSON_parse_order
     JSON_stringify_preferences).
Local Abbreviation importBackupFromFile :=
  (Stores.importBackupFromFile uuidv4 Date_now JSON_stringify_order
     JSON_parse_order JSON_stringify_preferences JSON_parse_backup
     syntaxErrorMessage).

(** The contents [b] of an exported snapshot, once read back from the
    file, pass the validation of [importBackup] and give it every array
    it iterates: the import completes, or it stops at a ConstraintError
    of the database. *)
Lemma snapshot_contents_import (w w0 : World) (b : BackupData)
    (options : option bool) (target : World) :
  exportBackup w = (Ok b, w0) ->
  (importBackup b options target).1 = Ok tt \/
  exists msg, (importBackup b options target).1 = Throw (ConstraintError msg).
Proof.
  intros E.
  destruct (exportBackup_run Date_now JSON_parse_order JSON_parse_preferences w)
    as (w' & E' & _).
  rewrite E in E'. injection E' as -> <-.
  rewrite importBackup_unfold.
  change (validateBackup (jsOfBackup _)) with (Ok (mkValidation true [])).
  cbn [valid negb].
  match goal with
  | |- context [App.restore _ _ _ _ _ ?b _ _] =>
      assert (H : onlyThrows isConstraintError
        (App.restore uuidv4 Date_now JSON_stringify_order JSON_parse_order
           JSON_stringify_preferences b (default false options)))
  end.
  { unfold App.restore, restoreList.
    cbn [lists items customCategories products categoryPreferences
         categoryOrder iterable].
    onlyThrows_walk. }
  specialize (H target).
  destruct (App.restore _ _ _ _ _ _ _ target) as [[[]|e] w1]; [by left|].
  right. destruct (H e eq_refl) as [msg ->]. by exists msg.
Qed.

(** The file import of a text that parses: the import of the parsed
    snapshot, with every exception wrapped. *)
Lemma importBackupFromFile_parsed content b options target :
  JSON_parse_backup content = Some b ->
  importBackupFromFile (Some content) options target
  = match importBackup b options target with
    | (Ok a, w') => (Ok a, w')
    | (Throw e, w') =>
        (Throw (Error ("Failed to import backup: " +:+ message e)), w')
    end.
Proof.
  intros H. unfold Stores.importBackupFromFile, tryCatch. rewrite H.
  reflexivity.
Qed.

(** X14. A backup file written by [downloadBackup] is never refused by
    [importBackupFromFile], into whatever state and with either merge
    setting, provided [JSON.parse] reads the written text back as the
    snapshot that was written. The file import then does what
    [importBackup] does on that snapshot: it completes, or the database
    rejects a generated id with a ConstraintError, which is reported as
    the Error 'Failed to import backup: ' with the message of that
    error. It reports neither 'Invalid backup' nor a TypeError, and the
    state it leaves is the one [importBackup] leaves. *)
Theorem backup_file_is_accepted (w : World) (options : option bool)
    (target : World) :
  (forall b, (exportBackup w).1 = Ok b ->
             JSON_parse_backup (JSON_stringify (jsOfBackup b)) = Some b) ->
  exists b json w0,
    exportBackup w = (Ok b, w0) /\
    downloadBackup w = (Ok json, w0) /\
    JSON_parse_backup json = Some b /\
    let direct := importBackup b options target in
    let file := importBackupFromFile (Some json) options target in
    file.2 = direct.2 /\
    (direct.1 = Ok tt /\ file.1 = Ok tt \/
     exists msg,
       direct.1 = Throw (ConstraintError msg) /\
       file.1 = Throw (Error ("Failed to import backup: " +:+ msg))).
Proof.
  intros Hcodec.
  destruct (exportBackup_run Date_now JSON_parse_order JSON_parse_preferences w)
    as (w0 & E & _).
  match type of E with _ = (Ok ?b0, _) => remember b0 as b eqn:Hb end.
  specialize (Hcodec b). rewrite E in Hcodec. specialize (Hcodec eq_refl).
  exists b, (JSON_stringify (jsOfBackup b)), w0.
  split; [exact E|]. split.
  { unfold Stores.downloadBackup. by rewrite (bind_run _ _ _ _ _ E). }
  split; [exact Hcodec|]. cbv zeta.
  pose proof (snapshot_contents_import w w0 b options target E) as Hout.
  rewrite (importBackupFromFile_parsed _ b options target Hcodec).
  destruct (importBackup b options target) as [[[]|e] w1];
    cbn [fst snd] in *.
  - split; [done|]. by left.
  - split; [done|]. right.
    destruct Hout as [Hout|[msg Hout]]; [discriminate Hout|].
    injection Hout as ->. by exists msg.
Qed.

End Accepted.

Lemma backup_file_is_accepted_witness :
  let download :=
    downloadBackup sampleClock sampleParseOrder sampleParsePreferences
      sampleStringify stockedWorld in
  let file :=
    importBackupFromFile sampleUuid sampleClock sampleStringifyOrder
      sampleParseOrder sampleStringifyPreferences sampleParseBackup
      (fun _ => "Unexpected token") (Some "backup.json") (Some true)
      stockedWorld in
  download.1 = Ok "backup.json" /\
  file.1 = Ok tt /\
  length (ls_lists (listsStore stockedWorld)) = 1 /\
  length (ls_lists (listsStore file.2)) = 2 /\
  size (db_items (db file.2)) = 4 /\
  length (cs_customCategories (categoriesStore file.2)) = 2.
Proof.
  destruct (backup_file_is_accepted sampleUuid sampleClock sampleStringifyOrder
              sampleParseOrder sampleStringifyPreferences sampleParsePreferences
              sampleStringify sampleParseBackup (fun _ => "Unexpected token")
              stockedWorld (Some true) stockedWorld)
    as (b & json & w0 & E & D & P & Hw & H).
  - intros b Hb. unfold sampleStringify, sampleParseBackup.
    cbn [String.eqb Ascii.eqb Bool.eqb]. by rewrite Hb.
  - cbv zeta. split; [by vm_compute|].
    assert (json = "backup.json") as -> by (by vm_compute in D; injection D).
    split; [|by repeat split].
    destruct H as [[_ H]|(msg & Hd & _)]; [exact H|].
    exfalso. vm_compute in E. injection E as <- <-. vm_compute in Hd.
    discriminate Hd.
Defined.

(** *** The list exchange format *)

Section Share.
Variable JSON_stringify : jsval -> string.
Variable JSON_parse : string -> option jsval.

Local Abbreviation exportListAsJSON := (Stores.exportListAsJSON JSON_stringify).
Local Abbreviation importListFromJSON := (Stores.importListFromJSON JSON_parse).

Lemma truthy_jsOfList l : truthyV (jsOfList l) = true.
Proof. reflexivity. Qed.

(** X15. What [exportListAsJSON] writes, [importListFromJSON] reads
    back: whenever the JSON codec returns the exported object from its
    own text, the import yields the list and the items that were
    exported. Every failure of [importListFromJSON], whatever its cause,
    is the Error 'Invalid JSON file'. *)
Theorem list_export_roundtrip (exportedAt : string) (shoppingList : ShoppingList)
    (items : list ShoppingItem) :
  JSON_parse (JSON_stringify (exportData exportedAt shoppingList items))
  = Some (exportData exportedAt shoppingList items) ->
  importListFromJSON (exportListAsJSON exportedAt shoppingList items)
  = Ok (mkListExport (jsOfList shoppingList) (VArr (List.map jsOfItem items))) /\
  (forall text e, importListFromJSON text = Throw e ->
     e = Error "Invalid JSON file").
Proof.
  intros Hcodec. split.
  - unfold Stores.importListFromJSON, Stores.exportListAsJSON.
    by rewrite Hcodec.
  - intros text e. unfold Stores.importListFromJSON.
    destruct (JSON_parse text) as [data|]; [|by intros [= <-]].
    destruct data; try (by intros [= <-]);
      destruct (_ || _); by intros [= <-].
Qed.

(** X16. The two file formats do not pass for one another. The object
    of a list export fails [validateBackup] with exactly four errors
    (no timestamp, lists, customCategories or products), and a backup
    snapshot, which has no [list] field, is refused by
    [importListFromJSON]. *)
Theorem exchange_formats_are_disjoint (exportedAt : string)
    (shoppingList : ShoppingList) (items : list ShoppingItem)
    (b : BackupData) (text : string) :
  JSON_parse text = Some (jsOfBackup b) ->
  validateBackup (exportData exportedAt shoppingList items)
  = Ok (mkValidation false
          ["Missing or invalid timestamp field"; "Missing or invalid lists array";
           "Missing or invalid customCategories array";
           "Missing or invalid products array"]) /\
  importListFromJSON text = Throw (Error "Invalid JSON file").
Proof.
  intros Hparse. split; [reflexivity|].
  unfold Stores.importListFromJSON. rewrite Hparse. cbn.
  by rewrite orb_true_r.
Qed.

End Share.

Lemma list_export_roundtrip_witness :
  importListFromJSON
    (fun text => if String.eqb text "milk.json"
                 then Some (exportData "2024-01-01T00:00:00.000Z"
                              (mkShoppingList "B" "Weekend" 1 2 false None)
                              [milkB; breadB])
                 else None)
    (exportListAsJSON (fun _ => "milk.json") "2024-01-01T00:00:00.000Z"
       (mkShoppingList "B" "Weekend" 1 2 false None) [milkB; breadB])
  = Ok (mkListExport (jsOfList (mkShoppingList "B" "Weekend" 1 2 false None))
          (VArr [jsOfItem milkB; jsOfItem breadB])).
Proof.
  exact (proj1 (list_export_roundtrip (fun _ => "milk.json") _
                  "2024-01-01T00:00:00.000Z"
                  (mkShoppingList "B" "Weekend" 1 2 false None) [milkB; breadB]
                  eq_refl)).
Defined.

Lemma exchange_formats_are_disjoint_witness :
  importListFromJSON (fun _ => Some (jsOfBackup sampleBackup)) "backup.json"
  = Throw (Error "Invalid JSON file").
Proof.
  exact (proj2 (exchange_formats_are_disjoint
                  (fun _ => Some (jsOfBackup sampleBackup)) "" 
                  (mkShoppingList "B" "Weekend" 1 2 false None) []
                  sampleBackup "backup.json" eq_refl)).
Defined.

End ExportSpec.

(** ** stores/categories, and what an import does to the preferences *)

Module CategorySpec.
Import JSString JSRegExp Categorization Data Validate State App Stores.
Import Effects SpecDefs StoreShapes Samples StoreSamples.
Import BackupSpec RestoreSpec.

Section Preferences.
Variable uuidv4 : nat -> string.
Variable Date_now : nat -> Z.
Variable JSON_stringify_order : list string -> string.
Variable JSON_parse_order : string -> option (list string).
Variable JSON_stringify_preferences : list (string * string) -> string.

Local Abbreviation importBackup :=
  (App.importBackup uuidv4 Date_now JSON_stringify_order JSON_parse_order
     JSON_stringify_preferences).
Local Abbreviation restore :=
  (App.restore uuidv4 Date_now JSON_stringify_order JSON_parse_order
     JSON_stringify_preferences).

Lemma restore_keeps_preferences backupData merge :
  ensures (same preferenceViews) (restore backupData merge).
Proof. unfold App.restore. ensures_walk ltac:(intros; reflexivity). Qed.

(** X17. An import, completed or failed, merge or replace, never
    changes the learned preferences: the preference store and the
    preference table are as before, so [getPreferredCategory] answers as
    before for every name. The preferences of the snapshot only reach
    the localStorage key "categoryPreferences", which a completed import
    sets to their JSON text. *)
Theorem import_keeps_preferences backupData options w :
  let out := importBackup backupData options w in
  preferencesStore out.2 = preferencesStore w /\
  db_categoryPreferences (db out.2) = db_categoryPreferences (db w) /\
  (forall name, getPreferredCategory out.2 name = getPreferredCategory w name) /\
  (forall prefs, out.1 = Ok tt -> categoryPreferences backupData = Some prefs ->
     localStorage out.2 !! "categoryPreferences"
     = Some (JSON_stringify_preferences prefs)).
Proof.
  cbv zeta.
  assert (K : same preferenceViews w (importBackup backupData options w).2).
  { rewrite importBackup_unfold.
    destruct (validateBackup _) as [v|e]; [|reflexivity].
    destruct (negb (valid v)); [reflexivity|].
    apply restore_keeps_preferences. }
  unfold same, preferenceViews in K. injection K as Hs Hd.
  split; [done|]. split; [done|].
  split; [intros name; unfold getPreferredCategory; by rewrite Hs|].
  intros prefs Hok Hprefs. rewrite importBackup_unfold in *.
  destruct (validateBackup _) as [v|e]; [|discriminate].
  destruct (negb (valid v)); [discriminate|].
  destruct (restore _ _ w) as [r w'] eqn:H. simpl in Hok. subst r. simpl.
  unfold App.restore in H. rewrite Hprefs in H. inv_run.
  repeat match goal with
  | H : ?m ?w = (_, ?w') |- _ =>
      lazymatch m with
      | loadLists => idtac
      | loadProducts => idtac
      | loadCustomCategories _ => idtac
      end;
      let K := fresh "K" in
      assert (K : same (fun w => localStorage w !! "categoryPreferences") w w')
        by (refine (ensures_run _ m w _ w' _ H);
            ensures_walk ltac:(intros; unfold same; cbn;
                                rewrite ?lookup_insert_ne by done; reflexivity));
      clear H
  end.
  unfold same in *. cbn in *.
  repeat match goal with
  | K : localStorage _ !! _ = _ |- _ => rewrite K; clear K
  end.
  destruct (categoryOrder backupData) as [[|? order]|]; cbn in *;
    unfold saveCategoryOrder in *; inv_run; cbn;
    rewrite ?lookup_insert_ne by done; apply lookup_insert_eq.
Qed.

End Preferences.

(** *** createCategory *)

Lemma foldr_max_bound d (l : list Z) :
  (d <= foldr Z.max d l)%Z /\ forall x, x ∈ l -> (x <= foldr Z.max d l)%Z.
Proof.
  induction l as [|y l [IHd IHl]]; simpl.
  - split; [lia|]. by intros x ?%not_elem_of_nil.
  - split; [lia|]. intros x [->|Hx]%elem_of_cons; [lia|].
    specialize (IHl x Hx). lia.
Qed.

Section Create.
Variable Date_now : nat -> Z.
Local Abbreviation createCategory := (App.createCategory Date_now).

(** X18. A category made by [createCategory] gets a sort order above
    that of every category known so far, built-in or custom, and above
    10; it is appended to the categories of the store and added to the
    table under an id built from its name and the time of creation. *)
Theorem createCategory_sorts_last name icon w c w' :
  createCategory name icon w = (Ok c, w') ->
  c = mkCategory (categoryId name (Date_now (clockReads w))) name (Some icon)
        (c_sortOrder c) /\
  (10 < c_sortOrder c)%Z /\
  (forall x, x ∈ allCategories w -> (c_sortOrder x < c_sortOrder c)%Z) /\
  allCategories w' = allCategories w ++ [c] /\
  db_categories (db w') = <[c_id c := c]> (db_categories (db w)).
Proof.
  intros H. unfold App.createCategory in H. inv_run. cbn.
  pose proof (foldr_max_bound (Z.of_nat (length DEFAULT_CATEGORIES))
                (List.map c_sortOrder (allCategories w))) as [Hd Hl].
  split; [done|]. split; [cbn in *; lia|]. split.
  - intros x Hx. cbn. apply Z.lt_succ_r, Hl.
    apply list_elem_of_In, in_map, list_elem_of_In, Hx.
  - split; [|done]. unfold allCategories. by cbn.
Qed.

(** X19. The id of a custom category is fixed by its name and the
    clock: when a category of that id exists already, as when the same
    name is created twice within one reading of the clock,
    [createCategory] throws the ConstraintError with which the table
    rejects the row, records the message of that error, whatever its
    wording, as the error of the store with loading reset, and adds
    nothing to the table or the store. *)
Theorem createCategory_collision name icon w existing :
  db_categories (db w) !! categoryId name (Date_now (clockReads w))
  = Some existing ->
  let out := createCategory name icon w in
  exists e,
    isConstraintError e /\
    out.1 = Throw e /\
    db out.2 = db w /\
    categoryViews out.2 = categoryViews w /\
    cs_error (categoriesStore out.2) = Some (message e) /\
    cs_loading (categoriesStore out.2) = false.
Proof.
  intros Hex. cbv zeta.
  unfold App.createCategory, action, bind, now, gets, tableAddM, tableAdd.
  cbn. rewrite Hex. eexists. split; [by eexists|]. by repeat split.
Qed.

End Create.

Lemma createCategory_sorts_last_witness :
  match createCategory sampleClock "Pets" "P" usedWorld with
  | (Ok c, _) => c_sortOrder c = 12%Z
  | (Throw _, _) => False
  end.
Proof.
  destruct (createCategory sampleClock "Pets" "P" usedWorld)
    as [[c|e] w'] eqn:E; [|by vm_compute in E].
  destruct (createCategory_sorts_last sampleClock "Pets" "P" usedWorld c w' E)
    as (Hc & _).
  vm_compute in E. by injection E as <- <-.
Defined.

Lemma createCategory_collision_witness :
  let w1 := (createCategory (fun _ => 5%Z) "Pets" "P" emptyWorld).2 in
  let out := createCategory (fun _ => 5%Z) "Pets" "Q" w1 in
  List.map c_id (cs_customCategories (categoriesStore w1)) = ["custom_pets_5"] /\
  exists e,
    isConstraintError e /\ out.1 = Throw e /\ db out.2 = db w1 /\
    categoryViews out.2 = categoryViews w1 /\
    cs_error (categoriesStore out.2) = Some (message e) /\
    cs_loading (categoriesStore out.2) = false.
Proof.
  cbv zeta. split; [reflexivity|].
  exact (createCategory_collision (fun _ => 5%Z) "Pets" "Q"
           (createCategory (fun _ => 5%Z) "Pets" "P" emptyWorld).2
           (mkCategory "custom_pets_5" "Pets" (Some "P") 11)
           ltac:(by vm_compute)).
Defined.

(** *** getCategoryDisplay and deleteCategory *)

Lemma find_app_none {A} (p : A -> bool) l1 l2 :
  List.find p l1 = None -> List.find p (l1 ++ l2) = List.find p l2.
Proof.
  induction l1 as [|x l1 IH]; [done|]. simpl. destruct (p x); [done|apply IH].
Qed.

Lemma find_default_none id :
  id ∉ List.map c_id DEFAULT_CATEGORIES ->
  List.find (fun cat => String.eqb (c_id cat) id) DEFAULT_CATEGORIES = None.
Proof.
  intros Hid. destruct (List.find _ _) as [c|] eqn:F; [|done].
  apply List.find_some in F as [Hin Hc]. apply String.eqb_eq in Hc.
  exfalso. apply Hid. rewrite <- Hc. by apply list_elem_of_In, in_map.
Qed.

(** X20. A category id that no category of the store carries is shown
    as "📦 Other". After [deleteCategory] of a custom category, which
    always succeeds, its id is such an id: lookups of it find nothing
    and it is displayed as "📦 Other", while the items that carry it are
    left as they are, in the database and in the item store. *)
Theorem deleted_category_displays_other (id : string) (w : World) :
  id ∉ List.map c_id DEFAULT_CATEGORIES ->
  let out := deleteCategory id w in
  (forall other, getCategoryById w other = None ->
     getCategoryDisplay w other = "📦 Other") /\
  out.1 = Ok tt /\
  db_categories (db out.2) !! id = None /\
  getCategoryById out.2 id = None /\
  getCategoryDisplay out.2 id = "📦 Other" /\
  db_items (db out.2) = db_items (db w) /\
  is_items (itemsStore out.2) = is_items (itemsStore w).
Proof.
  intros Hid. cbv zeta.
  assert (Hother : forall w other, getCategoryById w other = None ->
            getCategoryDisplay w other = "📦 Other").
  { intros w0 other H. unfold getCategoryDisplay. by rewrite H. }
  assert (Hnone : getCategoryById (deleteCategory id w).2 id = None).
  { unfold getCategoryById, allCategories.
    rewrite find_app_none by by apply find_default_none.
    unfold deleteCategory, action, bind, modify. cbn.
    destruct (List.find _ _) as [c|] eqn:F; [|done].
    apply List.find_some in F as [[_ Hc]%filter_In Hc']. by rewrite Hc' in Hc. }
  split; [apply Hother|]. split; [done|].
  split; [unfold deleteCategory, action, bind, modify; cbn;
          apply lookup_delete_eq|].
  split; [done|]. split; [by apply Hother|]. done.
Qed.

Lemma deleted_category_displays_other_witness :
  getCategoryDisplay (deleteCategory "custom_pets_1680000000000" usedWorld).2
    "custom_pets_1680000000000" = "📦 Other".
Proof.
  refine (proj1 (proj2 (proj2 (proj2 (proj2 (deleted_category_displays_other
            "custom_pets_1680000000000" usedWorld _)))))).
  apply (bool_decide_unpack _). by vm_compute.
Defined.

(** *** The saved category order *)

Section Order.
Variable JSON_stringify_order : list string -> string.
Variable JSON_parse_order : string -> option (list string).

Local Abbreviation saveCategoryOrder := (App.saveCategoryOrder JSON_stringify_order).
Local Abbreviation loadCustomCategories := (App.loadCustomCategories JSON_parse_order).

(** X21. A saved category order survives a restart: in any later state
    whose localStorage is the one [saveCategoryOrder] left,
    [loadCustomCategories] puts the saved order back into the store,
    provided the JSON codec reads back the text it wrote. After
    [resetCategoryOrder] nothing is stored, and loading leaves the order
    of the store as it finds it. *)
Theorem category_order_roundtrip (newOrder : list string) (w later : World) :
  JSON_parse_order (JSON_stringify_order newOrder) = Some newOrder ->
  JSON_stringify_order newOrder <> "" ->
  (localStorage later = localStorage (saveCategoryOrder newOrder w).2 ->
   loadedOrder (loadCustomCategories later).2 = newOrder) /\
  loadedOrder (saveCategoryOrder newOrder w).2 = newOrder /\
  loadedOrder (resetCategoryOrder w).2 = [] /\
  persistedOrder (resetCategoryOrder w).2 = None /\
  (localStorage later = localStorage (resetCategoryOrder w).2 ->
   loadedOrder (loadCustomCategories later).2 = loadedOrder later).
Proof.
  intros Hcodec Hne. unfold loadedOrder, persistedOrder.
  split; [|split; [done|split; [done|split]]].
  - intros Hl. unfold App.loadCustomCategories, action, bind, gets, modify.
    cbn. rewrite Hl. cbn. rewrite lookup_insert_eq.
    destruct (JSON_stringify_order newOrder) eqn:E; [done|]. cbn.
    by rewrite Hcodec.
  - cbn. apply lookup_delete_eq.
  - intros Hl. unfold App.loadCustomCategories, action, bind, gets, modify.
    cbn. rewrite Hl. cbn. by rewrite lookup_delete_eq.
Qed.

End Order.

Lemma category_order_roundtrip_witness :
  loadedOrder
    (loadCustomCategories sampleParseOrder
       (updLocalStorage (fun _ =>
          localStorage
            (saveCategoryOrder sampleStringifyOrder ["dairy"; "produce"]
               emptyWorld).2) emptyWorld)).2
  = ["dairy"; "produce"].
Proof.
  refine (proj1 (category_order_roundtrip sampleStringifyOrder sampleParseOrder
            ["dairy"; "produce"] emptyWorld _ eq_refl _) eq_refl).
  discriminate.
Defined.

End CategorySpec.

(** ** The product cache and the handlers of the list view *)

Module ViewSpec.
Import JSString JSRegExp Categorization Data Validate State App Stores.
Import Effects SpecDefs StoreShapes Samples StoreSamples TextSpec StoreSpec.
Import BackupSpec RestoreSpec ExportSpec.

(** *** getProductByBarcode *)

Lemma find_app_some {A} (p : A -> bool) l x :
  List.find p l = None -> p x = true -> List.find p (l ++ [x]) = Some x.
Proof.
  induction l as [|y l IH]; simpl; intros Hn Hx; [by rewrite Hx|].
  destruct (p y); [done|by apply IH].
Qed.

(** X22. [getProductByBarcode] never throws and never writes to the
    database. A product held by the store under the barcode is answered
    from the store, which stays as it is, whatever the table holds;
    otherwise the answer is the row of the table, which is then appended
    to the store, or nothing, which changes nothing. Asking again gives
    the same answer and changes nothing. *)
Theorem getProductByBarcode_caches (barcode : string) (w : World) :
  keyedBy p_barcode (db_products (db w)) ->
  let out := getProductByBarcode barcode w in
  let held := List.find (sameBarcode barcode) (ps_products (productsStore w)) in
  db out.2 = db w /\
  (forall p, held = Some p -> out = (Ok (Some p), w)) /\
  (held = None ->
   out.1 = Ok (db_products (db w) !! barcode) /\
   out.2 = productsSet
             (fun ps => ps ++ option_list (db_products (db w) !! barcode)) w) /\
  getProductByBarcode barcode out.2 = out.
Proof.
  intros Hkey. cbv zeta.
  unfold getProductByBarcode, productsDB_getByBarcode, bind, gets, modify, ret.
  destruct (List.find _ _) as [p|] eqn:F; cbn.
  - rewrite F. split; [done|]. split; [by intros ? [= <-]|]. done.
  - destruct (db_products (db w) !! barcode) as [p|] eqn:E; cbn.
    + rewrite F. cbn. split; [done|]. split; [done|]. split; [done|].
      rewrite (find_app_some _ _ p F); [done|].
      unfold sameBarcode. apply String.eqb_eq. by apply Hkey.
    + rewrite F, E. cbn. split; [done|]. split; [done|]. split; [|done].
      intros _. split; [done|]. destruct w as [? ? ? ? [ps] ? ? ? ?].
      unfold productsSet, updProductsStore. cbn. by rewrite app_nil_r.
Qed.

Lemma getProductByBarcode_held barcode w p :
  List.find (sameBarcode barcode) (ps_products (productsStore w)) = Some p ->
  getProductByBarcode barcode w = (Ok (Some p), w).
Proof.
  intros F. unfold getProductByBarcode, bind, gets. cbn. by rewrite F.
Qed.

Lemma find_sameBarcode barcode ps p :
  List.find (sameBarcode barcode) ps = Some p -> p_barcode p = barcode.
Proof. intros [_ H]%List.find_some. by apply String.eqb_eq. Qed.

Lemma find_updateFirst {A} (p : A -> bool) (f : A -> A) l x :
  List.find p l = Some x -> p (f x) = true ->
  List.find p (updateFirst p f l) = Some (f x).
Proof.
  induction l as [|y l IH]; [done|]. simpl.
  destruct (p y) eqn:E.
  - intros [= ->] Hf. simpl. by rewrite Hf.
  - intros F Hf. simpl. rewrite E. by apply IH.
Qed.

Section Scan.
Variable uuidv4 : nat -> string.
Variable Date_now : nat -> Z.

Local Abbreviation handleScan := (Stores.handleScan uuidv4 Date_now).
Local Abbreviation createItem := (App.createItem uuidv4 Date_now).

(** A run of [createItem] when the next id is free. *)
Lemma createItem_run listId name category quantity unit w :
  db_items (db w) !! uuidv4 (uuidCalls w) = None ->
  let item := mkShoppingItem (uuidv4 (uuidCalls w)) listId name quantity unit
                category false (Date_now (clockReads w)) None None None in
  createItem listId name category quantity unit w
  = (Ok item,
     itemsSetLoading false
       (itemsSet (fun m => <[listId := default [] (m !! listId) ++ [item]]> m)
          (updDb (updDbItems (fun _ => <[i_id item := item]> (db_items (db w))))
             (tickClock
                (tickUuid (itemsSetError None (itemsSetLoading true w))))))).
Proof.
  intros Hfresh. cbv zeta.
  unfold App.createItem, itemsDB_create, action, bind, uuid, now, tableAddM,
    tableAdd, modify, ret.
  cbn. rewrite Hfresh. reflexivity.
Qed.

Lemma updateLastUsed_held barcode w p :
  List.find (sameBarcode barcode) (ps_products (productsStore w)) = Some p ->
  let updated := setLastUsed (Date_now (clockReads w)) p in
  updateLastUsed Date_now barcode w
  = (Ok tt,
     productsSet (updateFirst (sameBarcode barcode) (fun _ => updated))
       (updDb (updDbProducts (<[p_barcode p := updated]>)) (tickClock w))).
Proof.
  intros F. cbv zeta. unfold updateLastUsed.
  rewrite (bind_run _ _ _ _ _ (getProductByBarcode_held _ _ _ F)).
  reflexivity.
Qed.

Lemma handleScan_unknown listId barcode w :
  List.find (sameBarcode barcode) (ps_products (productsStore w)) = None ->
  db_products (db w) !! barcode = None ->
  handleScan listId barcode w = (Ok ScanNotFound, w).
Proof.
  intros F E.
  unfold Stores.handleScan, tryCatch, getProductByBarcode,
    productsDB_getByBarcode, bind, gets, ret.
  cbn. rewrite F. cbn. by rewrite E.
Qed.

(** The scan of a product that the store holds. The category of the
    product is rewritten, at one more reading of the clock, when a
    category is preferred for its name and differs from the one it has. *)
Lemma handleScan_held listId barcode w product :
  List.find (sameBarcode barcode) (ps_products (productsStore w)) = Some product ->
  db_items (db w) !! uuidv4 (uuidCalls w) = None ->
  let out := handleScan listId barcode w in
  let preferred := getPreferredCategory w (p_name product) in
  let category := default (p_category product) preferred in
  let lastRead :=
    match preferred with
    | Some c =>
        if String.eqb c (p_category product) then S (clockReads w)
        else S (S (clockReads w))
    | None => S (clockReads w)
    end in
  let scanned := mkProduct barcode (p_name product) category (Date_now lastRead) in
  out.1 = Ok ScanAdded /\
  db_items (db out.2)
  = <[uuidv4 (uuidCalls w) :=
        mkShoppingItem (uuidv4 (uuidCalls w)) listId (p_name product) 1 None
          category false (Date_now (clockReads w)) None None None]>
      (db_items (db w)) /\
  db_products (db out.2) = <[barcode := scanned]> (db_products (db w)) /\
  List.find (sameBarcode barcode) (ps_products (productsStore out.2))
  = Some scanned /\
  clockReads out.2 = S lastRead.
Proof.
  intros F Hfresh. cbv zeta.
  pose proof (find_sameBarcode _ _ _ F) as Hb.
  destruct (handleScan listId barcode w) as [r w'] eqn:E. cbn [fst snd].
  revert E. unfold Stores.handleScan, tryCatch.
  rewrite (bind_run _ _ _ _ _ (getProductByBarcode_held _ _ _ F)).
  unfold bind at 1, gets at 1.
  rewrite (bind_run _ _ _ _ _ (createItem_run listId _ _ 1 None w Hfresh)).
  cbv zeta. rewrite Hb.
  match goal with
  | |- context [bind (updateLastUsed _ _) _ ?w1] =>
      rewrite (bind_run _ _ _ _ _ (updateLastUsed_held barcode w1 product F))
  end.
  cbv zeta.
  assert (Hupd : forall t,
    setLastUsed t product
    = mkProduct barcode (p_name product) (p_category product) t).
  { intros t. unfold setLastUsed. by rewrite Hb. }
  destruct (getPreferredCategory w (p_name product)) as [pref|] eqn:P;
    cbn [default].
  - destruct (String.eqb_spec pref (p_category product)) as [->|Hne];
      cbn [negb].
    + unfold bind, ret. intros [= <- <-]. cbn. split; [done|]. split; [done|].
      rewrite Hb, Hupd. split; [reflexivity|]. split; [|done].
      rewrite (find_updateFirst _ _ _ _ F); [done|].
      unfold sameBarcode. cbn. apply String.eqb_refl.
    + unfold saveProduct, productsDB_save, bind, now, modify, ret.
      intros [= <- <-]. cbn. split; [done|]. split; [done|].
      rewrite Hb, insert_insert_eq. split; [reflexivity|]. split; [|done].
      match goal with
      | |- List.find _ (replaceOrPush ?p ?l) = _ =>
          apply (replaceOrPush_find p l)
      end.
  - unfold bind, ret. intros [= <- <-]. cbn. split; [done|]. split; [done|].
    rewrite Hb, Hupd. split; [reflexivity|]. split; [|done].
    rewrite (find_updateFirst _ _ _ _ F); [done|].
    unfold sameBarcode. cbn. apply String.eqb_refl.
Qed.

(** X23. Scanning a barcode that neither the product store nor the
    product table knows changes nothing at all and reports that the
    barcode was not found. Scanning the barcode of a product the store
    holds, when the next generated id is free, adds one open item of
    that product's name to the list, stamped with the current reading of
    the clock, in the category preferred for the name or else in the
    product's category. It leaves the product, in the table and in the
    store, with that same category and with a time of last use renewed
    from the clock: the reading that follows the item's, or the one
    after it when the category of the product had to be rewritten. *)
Theorem handleScan_adds_known_product listId barcode w :
  db_items (db w) !! uuidv4 (uuidCalls w) = None ->
  let out := handleScan listId barcode w in
  match List.find (sameBarcode barcode) (ps_products (productsStore w)) with
  | None => db_products (db w) !! barcode = None -> out = (Ok ScanNotFound, w)
  | Some product =>
      let preferred := getPreferredCategory w (p_name product) in
      let category := default (p_category product) preferred in
      let lastRead :=
        match preferred with
        | Some c =>
            if String.eqb c (p_category product) then S (clockReads w)
            else S (S (clockReads w))
        | None => S (clockReads w)
        end in
      let scanned :=
        mkProduct barcode (p_name product) category (Date_now lastRead) in
      out.1 = Ok ScanAdded /\
      db_items (db out.2)
      = <[uuidv4 (uuidCalls w) :=
            mkShoppingItem (uuidv4 (uuidCalls w)) listId (p_name product) 1 None
              category false (Date_now (clockReads w)) None None None]>
          (db_items (db w)) /\
      db_products (db out.2) = <[barcode := scanned]> (db_products (db w)) /\
      List.find (sameBarcode barcode) (ps_products (productsStore out.2))
      = Some scanned /\
      clockReads out.2 = S lastRead
  end.
Proof.
  intros Hfresh. cbv zeta.
  destruct (List.find _ _) as [product|] eqn:F.
  - by apply handleScan_held.
  - by apply handleScan_unknown.
Qed.

End Scan.

Lemma getProductByBarcode_caches_witness :
  getProductByBarcode "4001"
    (productsSet (fun _ => []) scanWorld)
  = (Ok (Some oatMilk), scanWorld).
Proof.
  destruct (getProductByBarcode_caches "4001"
              (productsSet (fun _ => []) scanWorld)) as (_ & _ & H & _).
  - intros k v.
    change (db_products (db (productsSet (fun _ => []) scanWorld)))
      with ({["4001" := oatMilk]} : gmap string Product).
    by intros [<- <-]%lookup_singleton_Some.
  - destruct (H eq_refl) as [H1 H2].
    destruct (getProductByBarcode _ _) as [r w']. cbn in H1, H2.
    by rewrite H1, H2.
Defined.

Lemma handleScan_adds_known_product_witness :
  let out := handleScan sampleUuid sampleClock "A" "4001" scanWorld in
  out.1 = Ok ScanAdded /\
  i_category <$> db_items (db out.2) !! "uuid-0" = Some "beverages" /\
  db_products (db out.2) !! "4001"
  = Some (mkProduct "4001" "Oat Milk" "beverages" (sampleClock 2)) /\
  p_lastUsed oatMilk <> sampleClock 2.
Proof.
  pose proof (handleScan_adds_known_product sampleUuid sampleClock "A" "4001"
                scanWorld eq_refl) as H.
  cbv zeta in H.
  change (List.find (sameBarcode "4001") (ps_products (productsStore scanWorld)))
    with (Some oatMilk) in H.
  cbv beta iota in H. destruct H as (H1 & H2 & H3 & _).
  cbv zeta. split; [exact H1|]. rewrite H2, H3, !lookup_insert_eq.
  split; [by vm_compute|]. split; [by vm_compute|]. by vm_compute.
Defined.

(** *** handleQuickAdd and handleVoiceInput *)

Lemma ensures_forOf_elem {A} R `{!PreOrder R} (xs : list A) body :
  (forall x, x ∈ xs -> ensures R (body x)) -> ensures R (forOf xs body).
Proof.
  induction xs as [|x xs IH]; intros H; [by apply ensures_ret|].
  simpl. apply ensures_bind; [done|apply H, list_elem_of_here|].
  intros _. apply IH. intros y Hy. by apply H, list_elem_of_further.
Qed.

Lemma addsOnly_preorder P :
  (forall w w' it, besideItems w' = besideItems w -> P w' it -> P w it) ->
  PreOrder (addsOnly P).
Proof.
  intros HP. split.
  - intros w. split; [done|]. intros k it ?. by left.
  - intros w1 w2 w3 [Hb1 H1] [Hb2 H2]. split; [congruence|].
    intros k it H3. destruct (H2 k it H3) as [H|H].
    + by apply H1.
    + right. by eapply HP.
Qed.

Section Adding.
Variable uuidv4 : nat -> string.
Variable Date_now : nat -> Z.

Local Abbreviation createItem := (App.createItem uuidv4 Date_now).
Local Abbreviation handleQuickAdd := (Stores.handleQuickAdd uuidv4 Date_now).
Local Abbreviation handleVoiceInput := (Stores.handleVoiceInput uuidv4 Date_now).

(** Whether it returns or throws, [createItem] adds at most the row it
    describes. *)
Lemma createItem_addsOnly P listId name category quantity unit w :
  (forall id addedAt,
     P w (mkShoppingItem id listId name quantity unit category false addedAt
            None None None)) ->
  addsOnly P w (createItem listId name category quantity unit w).2.
Proof.
  intros HP.
  unfold App.createItem, itemsDB_create, action, bind, uuid, now, tableAddM,
    tableAdd, modify, ret.
  cbn. destruct (db_items (db w) !! uuidv4 (uuidCalls w)); cbn.
  - split; [done|]. intros k it ?. by left.
  - split; [done|]. intros k it. cbn. rewrite lookup_insert.
    destruct (decide (uuidv4 (uuidCalls w) = k)); [|by left].
    intros [= <-]. right. apply HP.
Qed.

Lemma createItem_inv listId name category quantity unit w item w' :
  createItem listId name category quantity unit w = (Ok item, w') ->
  db_items (db w) !! uuidv4 (uuidCalls w) = None.
Proof.
  destruct (db_items (db w) !! uuidv4 (uuidCalls w)) eqn:E; [|done].
  unfold App.createItem, itemsDB_create, action, bind, uuid, now, tableAddM,
    tableAdd, modify, ret.
  cbn. by rewrite E.
Qed.

Lemma getPreferredCategory_beside w w' name :
  besideItems w' = besideItems w ->
  getPreferredCategory w' name = getPreferredCategory w name.
Proof.
  unfold besideItems, getPreferredCategory. by intros [= _ _ _ _ _ _ _ -> _].
Qed.

Lemma quickRow_preorder names listId : PreOrder (addsOnly (quickRow names listId)).
Proof.
  apply addsOnly_preorder. intros w w' it Hb [(H1 & H2 & H3 & H4) Hn].
  split; [|done]. split; [done|]. split; [done|]. split; [|done].
  by rewrite <- (getPreferredCategory_beside w w').
Qed.

Lemma quickAdd_step names listId name w :
  name ∈ names ->
  addsOnly (quickRow names listId) w
    (bind (gets (fun w => getPreferredCategory w (sanitizeItemName name)))
       (fun preferredCategory =>
          bind (createItem listId (sanitizeItemName name)
                  (categorizeItem (sanitizeItemName name) preferredCategory)
                  1 None)
            (fun _ => ret tt)) w).2.
Proof.
  intros Hname. unfold bind at 1, gets.
  pose proof (createItem_addsOnly (quickRow names listId) listId
    (sanitizeItemName name)
    (categorizeItem (sanitizeItemName name)
       (getPreferredCategory w (sanitizeItemName name))) 1 None w) as H.
  unfold bind. destruct (createItem _ _ _ _ _ w) as [[item|e] w']; cbn in *;
    apply H; intros id addedAt; (split; [|by exists name]);
    unfold quickAdded;
    cbn [i_listId i_name i_category i_quantity i_unit i_completed];
    by rewrite sanitize_idem.
Qed.

Lemma handleQuickAdd_addsOnly listId input :
  ensures (addsOnly (quickRow (parseItemsFromText (trim input)) listId))
    (handleQuickAdd listId input).
Proof.
  pose proof (quickRow_preorder (parseItemsFromText (trim input)) listId).
  unfold Stores.handleQuickAdd. cbv zeta.
  destruct (isEmpty (trim input)); [by apply ensures_ret|].
  apply ensures_tryCatch; [done| |intros; by apply ensures_ret].
  apply ensures_bind; [done| |intros; by apply ensures_ret].
  apply ensures_forOf_elem; [done|]. intros name Hname w.
  by apply quickAdd_step.
Qed.

(** A completed quick-add loop added one row per name, in order. *)
Lemma quickAdd_loop_ok listId names : forall w w',
  forOf names (fun name =>
    bind (gets (fun w => getPreferredCategory w (sanitizeItemName name)))
      (fun preferredCategory =>
         bind (createItem listId (sanitizeItemName name)
                 (categorizeItem (sanitizeItemName name) preferredCategory)
                 1 None)
           (fun _ => ret tt))) w = (Ok tt, w') ->
  exists new,
    Forall2 (fun name it => i_name it = sanitizeItemName name) names new /\
    extends i_id (db_items (db w)) (db_items (db w')) new /\
    getItemsByListId w' listId = getItemsByListId w listId ++ new.
Proof.
  induction names as [|name names IH]; intros w w' H; cbn [forOf] in H.
  - inv_run. exists []. split; [constructor|]. split; [apply extends_nil|].
    by rewrite app_nil_r.
  - apply bind_ok_inv in H as ([] & w1 & H1 & H).
    apply bind_ok_inv in H1 as (pref & w0 & Hg & H1).
    inv_run.
    match goal with
    | H : App.createItem _ _ _ _ _ _ _ _ = _ |- _ =>
        pose proof (createItem_inv _ _ _ _ _ _ _ _ H) as Hfresh;
        rewrite (createItem_run _ _ _ _ _ _ _ _ Hfresh) in H;
        injection H as <- <-
    end.
    apply IH in H as (new & Hnew & Hext & Hstore).
    match type of Hext with
    | context [<[_ := ?it]> (db_items (db w))] => exists (it :: new)
    end.
    split; [constructor; [|exact Hnew]; reflexivity|].
    split.
    + match goal with
      | |- extends _ _ _ (?it :: _) =>
          change (it :: new) with ([it] ++ new);
          eapply extends_app; [|exact Hext];
          exact (extends_insert i_id (db_items (db w)) it Hfresh)
      end.
    + rewrite Hstore. unfold getItemsByListId. cbn. rewrite lookup_insert_eq.
      cbn. by rewrite <- app_assoc.
Qed.

(** X24. The quick-add field. The handler never throws, and a field
    that is empty or holds only white space changes nothing. Whatever
    happens, it touches only the items: every row of the item table
    afterwards is a row from before or an open item of the list shown,
    one piece, named by the sanitized form of one of the parsed names,
    in the category preferred for that name or else in its keyword
    category. When it clears the field, it has added one such item per
    parsed name, in order, under fresh ids, to the table and to the end
    of the loaded list. *)
Theorem quick_add_creates_items (listId input : string) (w : World) :
  let out := handleQuickAdd listId input w in
  let names := parseItemsFromText (trim input) in
  (out.1 = Ok "" \/ out.1 = Ok input) /\
  (trim input = "" -> out = (Ok input, w)) /\
  besideItems out.2 = besideItems w /\
  (forall k it, db_items (db out.2) !! k = Some it ->
     db_items (db w) !! k = Some it \/ quickRow names listId w it) /\
  (trim input <> "" -> out.1 = Ok "" ->
   exists new,
     Forall2 (fun name it => i_name it = sanitizeItemName name) names new /\
     extends i_id (db_items (db w)) (db_items (db out.2)) new /\
     getItemsByListId out.2 listId = getItemsByListId w listId ++ new).
Proof.
  cbv zeta.
  pose proof (handleQuickAdd_addsOnly listId input w) as [Hb Hrows].
  destruct (handleQuickAdd listId input w) as [r w'] eqn:E.
  cbn [fst snd] in *. revert E.
  unfold Stores.handleQuickAdd, tryCatch. cbv zeta.
  destruct (isEmpty (trim input)) eqn:Hemp.
  - intros [= <- <-]. split; [by right|]. split; [done|]. split; [done|].
    split; [done|]. intros Hne. by destruct (trim input).
  - unfold bind at 1.
    destruct (forOf _ _ w) as [[[]|e] w1] eqn:Hloop; cbn; intros [= <- <-].
    + split; [by left|]. split; [intros He; by rewrite He in Hemp|].
      split; [done|]. split; [done|]. intros _ _.
      by apply quickAdd_loop_ok in Hloop.
    + split; [by right|]. split; [intros He; by rewrite He in Hemp|].
      split; [done|]. split; [done|]. intros Hne [= ->]. by vm_compute in Hemp.
Qed.

Lemma voice_preorder listId : PreOrder (addsOnly (fun _ => voiceAdded listId)).
Proof. apply addsOnly_preorder. by intros. Qed.

Lemma handleVoiceInput_addsOnly listId transcript :
  ensures (addsOnly (fun _ => voiceAdded listId))
    (handleVoiceInput listId transcript).
Proof.
  pose proof (voice_preorder listId).
  unfold Stores.handleVoiceInput. cbv zeta.
  apply ensures_tryCatch; [done| |intros; by apply ensures_ret].
  destruct (length _ =? 0)%nat; [by apply ensures_ret|].
  apply ensures_bind; [done| |intros; by apply ensures_ret].
  apply ensures_forOf; [done|]. intros itemText w.
  pose proof (createItem_addsOnly (fun _ => voiceAdded listId) listId
    (sanitizeItemName itemText)
    (categorizeItem (sanitizeItemName itemText) None) 1 None w) as Hc.
  unfold bind. destruct (createItem _ _ _ _ _ w) as [[item|e] w']; cbn in *;
    apply Hc; intros id addedAt; unfold voiceAdded;
    cbn [i_listId i_name i_category i_quantity i_unit i_completed];
    by rewrite sanitize_idem.
Qed.

(** X25. The voice input. The handler never throws, and a transcript
    from which no name can be parsed changes nothing. Whatever happens,
    it touches only the items, and every row of the item table
    afterwards is a row from before or an open item of the list shown,
    one piece, with a sanitized name, in the keyword category of that
    name: unlike the quick-add field, the voice input never consults
    the learned preferences. When it reports items as added, their
    number is the number of parsed names. *)
Theorem voice_input_ignores_preferences (listId transcript : string) (w : World) :
  let out := handleVoiceInput listId transcript w in
  (exists outcome, out.1 = Ok outcome) /\
  (parseItemsFromText transcript = [] -> out = (Ok VoiceNothing, w)) /\
  (forall n, out.1 = Ok (VoiceAdded n) ->
     n = length (parseItemsFromText transcript) /\ 0 < n) /\
  besideItems out.2 = besideItems w /\
  (forall k it, db_items (db out.2) !! k = Some it ->
     db_items (db w) !! k = Some it \/ voiceAdded listId it).
Proof.
  cbv zeta.
  pose proof (handleVoiceInput_addsOnly listId transcript w) as [Hb Hrows].
  destruct (handleVoiceInput listId transcript w) as [r w'] eqn:E.
  cbn [fst snd] in *. revert E.
  unfold Stores.handleVoiceInput, tryCatch. cbv zeta.
  destruct (parseItemsFromText transcript) as [|name names] eqn:Hp.
  - cbn. intros [= <- <-]. split; [by eexists|]. split; [done|].
    split; [by intros n [=]|]. done.
  - cbn [length Nat.eqb]. unfold bind at 1.
    destruct (forOf _ _ w) as [[[]|e] w1]; cbn; intros [= <- <-].
    + split; [by eexists|]. split; [done|]. split; [|done].
      intros n [= <-]. split; [done|lia].
    + split; [by eexists|]. split; [done|]. split; [by intros n [=]|]. done.
Qed.

End Adding.

End ViewSpec.

(** ** stores/lists: duplicateList *)

Module DuplicateSpec.
Import JSString JSRegExp Categorization Data Validate State App Stores.
Import Effects SpecDefs StoreShapes Samples StoreSamples.
Import BackupSpec RestoreSpec ExportSpec.

Lemma bulkAddRows_ok {V} (key : V -> string) rows : forall t t',
  bulkAddRows key rows t = (t', 0) -> extends key t t' rows.
Proof.
  induction rows as [|r rows IH]; intros t t'; cbn [bulkAddRows].
  - intros [= <-]. apply extends_nil.
  - destruct (t !! key r) eqn:E.
    + destruct (bulkAddRows key rows t). discriminate.
    + intros H%IH. change (r :: rows) with ([r] ++ rows).
      eapply extends_app; [|exact H]. by apply extends_insert.
Qed.

Section Duplicate.
Variable uuidv4 : nat -> string.
Variable Date_now : nat -> Z.
Variable bulkAddMessage : nat -> nat -> string.

Local Abbreviation duplicateList :=
  (Stores.duplicateList uuidv4 Date_now bulkAddMessage).
Local Abbreviation copyItem := (Stores.copyItem uuidv4 Date_now).

Lemma mapM_copyItem_ok newListId items : forall w newItems w',
  mapM (copyItem newListId) items w = (Ok newItems, w') ->
  Forall2 (copyOf newListId) items newItems /\
  db w' = db w /\ listsStore w' = listsStore w /\ itemsStore w' = itemsStore w.
Proof.
  induction items as [|it items IH]; intros w newItems w' H; cbn [mapM] in H.
  - inv_run. split; [constructor|done].
  - unfold Stores.copyItem in H. inv_run.
    match goal with
    | H : mapM _ _ _ = _ |- _ => apply IH in H as (Hf & Hdb & Hls & His)
    end.
    split; [|by rewrite Hdb, Hls, His].
    constructor; [|done]. unfold copyOf. cbn. by repeat split.
Qed.

(** X26. Duplicating a list that is not in the list table throws the
    Error 'List not found', records it as the error of the list store
    and adds nothing. A completed duplication has added one list row,
    named after the original with " (copy)" appended, with the
    original's colour and not archived, and, under fresh ids, one copy
    of every item of the original list, placed in the new list and open
    again; the original list and items are kept, the list store has the
    new list at its end, and the item store is not touched. *)
Theorem duplicateList_copies (id : string) (w : World) :
  (db_lists (db w) !! id = None ->
   let out := duplicateList id w in
   out.1 = Throw (Error "List not found") /\ db out.2 = db w /\
   ls_lists (listsStore out.2) = ls_lists (listsStore w) /\
   ls_error (listsStore out.2) = Some "List not found") /\
  (forall newList w', duplicateList id w = (Ok newList, w') ->
   exists original copies,
     db_lists (db w) !! id = Some original /\
     l_name newList = l_name original +:+ " (copy)" /\
     l_color newList = l_color original /\ l_archived newList = false /\
     db_lists (db w) !! l_id newList = None /\
     db_lists (db w') = <[l_id newList := newList]> (db_lists (db w)) /\
     Forall2 (copyOf (l_id newList))
       (List.filter (inList id) (toArray (db_items (db w)))) copies /\
     extends i_id (db_items (db w)) (db_items (db w')) copies /\
     ls_lists (listsStore w') = ls_lists (listsStore w) ++ [newList] /\
     itemsStore w' = itemsStore w).
Proof.
  split.
  - intros Hnone. cbv zeta.
    unfold Stores.duplicateList, listsDB_duplicate, listsDB_getById, action,
      bind, gets, throw.
    cbn. by rewrite Hnone.
  - intros newList w' H.
    unfold Stores.duplicateList, listsDB_duplicate, listsDB_getById in H.
    inv_run. cbn in *.
    destruct (db_lists (db w) !! id) as [original|] eqn:Horig; [|discriminate].
    inv_run. unfold itemsDB_getByListId in *. inv_run.
    match goal with
    | H : mapM _ _ _ = _ |- _ =>
        apply mapM_copyItem_ok in H as (Hcopies & Hdb & Hls & His)
    end.
    match goal with
    | H : itemsDB_bulkAdd _ _ _ = _ |- _ =>
        unfold itemsDB_bulkAdd in H;
        destruct (bulkAddRows _ _ _) as [t failures] eqn:Hbulk;
        destruct failures; [|discriminate];
        injection H as <-; apply bulkAddRows_ok in Hbulk
    end.
    cbn in *. subst. cbn. rewrite ?Hdb, ?Hls, ?His. rewrite ?Hdb in Hbulk.
    cbn in *.
    eexists original, _. split; [done|]. split; [done|]. split; [done|].
    split; [done|]. split; [done|]. split; [done|].
    split; [exact Hcopies|]. split; [exact Hbulk|]. done.
Qed.

End Duplicate.

Lemma duplicateList_copies_sample :
  let out := duplicateList sampleUuid sampleClock sampleBulkAddMessage "B"
               weekendWorld in
  (l_name <$> (match out.1 with Ok l => Some l | Throw _ => None end))
  = Some "Weekend (copy)" /\
  i_completed <$> db_items (db out.2) !! "uuid-1" = Some false /\
  i_listId <$> db_items (db out.2) !! "uuid-2" = Some "uuid-0" /\
  (duplicateList sampleUuid sampleClock sampleBulkAddMessage "A" weekendWorld).1
  = Throw (Error "List not found").
Proof. by vm_compute. Qed.

End DuplicateSpec.

(** ** stores/products: deleteProduct; stores/lists: renameList,
    archiveList and unarchiveList *)

Module ListSpec.
Import JSString JSRegExp Categorization Data Validate State App Stores.
Import Effects SpecDefs StoreShapes Samples StoreSamples.
Import BackupSpec RestoreSpec ExportSpec ViewSpec.

Lemma find_filter_negb {A} (p : A -> bool) l :
  List.find p (List.filter (fun x => negb (p x)) l) = None.
Proof.
  destruct (List.find _ _) as [x|] eqn:F; [|done].
  apply List.find_some in F as [[_ Hx]%filter_In Hp]. by rewrite Hp in Hx.
Qed.

(** X27. [deleteProduct] always succeeds and removes the product of
    that barcode from the product table and from the product store,
    keeping all others; afterwards the barcode is unknown: a lookup
    finds nothing, and scanning it adds no item and reports that the
    barcode was not found. *)
Theorem deleteProduct_forgets (uuidv4 : nat -> string) (Date_now : nat -> Z)
    (listId barcode : string) (w : World) :
  let out := deleteProduct barcode w in
  out.1 = Ok tt /\
  db_products (db out.2) = delete barcode (db_products (db w)) /\
  ps_products (productsStore out.2)
  = List.filter (fun p => negb (sameBarcode barcode p))
      (ps_products (productsStore w)) /\
  getProductByBarcode barcode out.2 = (Ok None, out.2) /\
  handleScan uuidv4 Date_now listId barcode out.2 = (Ok ScanNotFound, out.2).
Proof.
  cbv zeta.
  assert (F : List.find (sameBarcode barcode)
                (ps_products (productsStore (deleteProduct barcode w).2)) = None)
    by apply find_filter_negb.
  assert (E : db_products (db (deleteProduct barcode w).2) !! barcode = None)
    by apply lookup_delete_eq.
  split; [done|]. split; [done|]. split; [done|]. split.
  - unfold getProductByBarcode, productsDB_getByBarcode, bind, gets, ret.
    rewrite F. cbn [fst snd]. by rewrite E.
  - by apply handleScan_unknown.
Qed.

Section Lists.
Variable Date_now : nat -> Z.

Local Abbreviation renameList := (Stores.renameList Date_now).
Local Abbreviation archiveList := (App.archiveList Date_now).
Local Abbreviation unarchiveList := (Stores.unarchiveList Date_now).

(** X28. [renameList] always succeeds. It gives the list row of that id
    the new name and the current time as its time of update, and the
    new colour only when one is given and is not the empty string;
    id, creation time and archived flag stay, and so do all other rows
    and all items. The list held by the list store is changed the same
    way, with a later reading of the clock. With no row of that id the
    table is left as it is. *)
Theorem renameList_renames (id name : string) (color : option string)
    (w : World) :
  let out := renameList id name color w in
  let renamed updatedAt l :=
    mkShoppingList (l_id l) name (l_createdAt l) updatedAt (l_archived l)
      (if truthy color then color else l_color l) in
  out.1 = Ok tt /\
  db_lists (db out.2)
  = alter (renamed (Date_now (clockReads w))) id (db_lists (db w)) /\
  (db_lists (db w) !! id = None -> db_lists (db out.2) = db_lists (db w)) /\
  db_items (db out.2) = db_items (db w) /\
  getListById out.2 id
  = renamed (Date_now (S (clockReads w))) <$> getListById w id.
Proof.
  cbv zeta.
  unfold Stores.renameList, updateList, listsDB_update, action, bind, now,
    gets, modify, getListById.
  cbn. destruct (List.find (sameListId id) (ls_lists (listsStore w)))
    as [l|] eqn:F; cbn.
  - split; [done|]. split; [done|].
    split; [intros Hn; apply map_eq; intros k; rewrite lookup_alter;
            destruct (decide (id = k)) as [<-|]; [by rewrite Hn|done]|].
    split; [done|].
    rewrite (find_updateFirst _ _ _ _ F); [done|].
    apply List.find_some in F as [_ F]. exact F.
  - rewrite F. split; [done|]. split; [done|].
    split; [intros Hn; apply map_eq; intros k; rewrite lookup_alter;
            destruct (decide (id = k)) as [<-|]; [by rewrite Hn|done]|].
    done.
Qed.

(** X29. Archiving a list and then unarchiving it always succeeds and
    gives back the list row with its archived flag off and nothing
    changed but the time of update; the same holds for the list held
    by the list store. In between, the row is archived. No other list
    row and no item is touched. *)
Theorem unarchive_undoes_archive (id : string) (w : World) (l : ShoppingList) :
  db_lists (db w) !! id = Some l ->
  let out1 := archiveList id w in
  let out2 := unarchiveList id out1.2 in
  out1.1 = Ok tt /\ out2.1 = Ok tt /\
  l_archived <$> db_lists (db out1.2) !! id = Some true /\
  (exists updatedAt,
     db_lists (db out2.2)
     = <[id := mkShoppingList (l_id l) (l_name l) (l_createdAt l) updatedAt
                 false (l_color l)]> (db_lists (db w))) /\
  (exists updatedAt,
     getListById out2.2 id
     = (fun l0 => mkShoppingList (l_id l0) (l_name l0) (l_createdAt l0)
                    updatedAt false (l_color l0)) <$> getListById w id) /\
  db_items (db out2.2) = db_items (db w).
Proof.
  intros Hl. cbv zeta.
  destruct (archiveList id w) as [r1 w1] eqn:E1.
  destruct (unarchiveList id w1) as [r2 w2] eqn:E2. cbn [fst snd].
  revert E1 E2.
  unfold App.archiveList, Stores.unarchiveList, listsDB_archive,
    listsDB_unarchive, action, bind, now, gets, modify, getListById.
  cbn. change (fun l0 => String.eqb (l_id l0) id) with (sameListId id).
  destruct (List.find (sameListId id) (ls_lists (listsStore w)))
    as [l0|] eqn:F; cbn.
  - intros [= <- <-]. cbn.
    assert (Fid : sameListId id l0 = true)
      by (by apply List.find_some in F as [_ F]).
    rewrite (find_updateFirst _ _ _ _ F) by exact Fid. cbn.
    intros [= <- <-]. cbn.
    split; [done|]. split; [done|].
    split; [by rewrite lookup_alter, decide_True, Hl by done|].
    split; [|split; [|done]].
    + eexists. apply map_eq. intros k.
      rewrite !lookup_alter, lookup_insert.
      destruct (decide (id = k)) as [<-|]; [|done].
      rewrite ?decide_True by done. rewrite Hl. reflexivity.
    + eexists.
      erewrite find_updateFirst;
        [|by apply find_updateFirst|exact Fid].
      reflexivity.
  - intros [= <- <-]. cbn. rewrite F. cbn. intros [= <- <-]. cbn.
    rewrite F. split; [done|]. split; [done|].
    split; [by rewrite lookup_alter, decide_True, Hl by done|].
    split; [|split; [by exists 0%Z|done]].
    eexists. apply map_eq. intros k.
    rewrite !lookup_alter, lookup_insert.
    destruct (decide (id = k)) as [<-|]; [|done].
    rewrite ?decide_True by done. rewrite Hl. reflexivity.
Qed.

End Lists.

Lemma unarchive_undoes_archive_witness :
  let w1 := (archiveList sampleClock "B" weekendWorld).2 in
  let w2 := (unarchiveList sampleClock "B" w1).2 in
  l_archived <$> db_lists (db w2) !! "B" = Some false /\
  l_name <$> db_lists (db w2) !! "B" = Some "Weekend".
Proof.
  destruct (unarchive_undoes_archive sampleClock "B" weekendWorld weekendList
              eq_refl) as (_ & _ & _ & [t H] & _).
  cbv zeta. by rewrite H, lookup_insert_eq.
Defined.

End ListSpec.

From stdpp Require Import sorting.

(** ** stores/categories: sortedCategories *)

Module SortSpec.
Import JSString Data State App Stores SpecDefs StoreShapes Samples StoreSamples.

Section Sorting.
Context {A : Type} (key : A -> Z).

Local Abbreviation byKey := (fun a b : A => (key a <= key b)%Z).

Lemma insertByKey_perm x l : insertByKey key x l ≡ₚ x :: l.
Proof.
  induction l as [|y l IH]; [done|]. simpl.
  destruct (key y <? key x)%Z; [|done].
  rewrite IH. apply Permutation_swap.
Qed.

Lemma sortByKey_perm l : sortByKey key l ≡ₚ l.
Proof.
  induction l as [|x l IH]; [done|]. unfold sortByKey in *. simpl.
  by rewrite insertByKey_perm, IH.
Qed.

Lemma insertByKey_sorted x l :
  StronglySorted byKey l -> StronglySorted byKey (insertByKey key x l).
Proof.
  induction l as [|y l IH]; intros Hl; simpl.
  - by repeat constructor.
  - apply StronglySorted_cons in Hl as [Hy Hl].
    destruct (key y <? key x)%Z eqn:E.
    + apply Z.ltb_lt in E. apply StronglySorted_cons. split; [|by apply IH].
      rewrite insertByKey_perm. constructor; [lia|done].
    + apply Z.ltb_ge in E. apply StronglySorted_cons. split.
      * constructor; [done|]. eapply Forall_impl; [exact Hy|].
        intros z Hz. simpl in *. lia.
      * by apply StronglySorted_cons.
Qed.

Lemma sortByKey_sorted l : StronglySorted byKey (sortByKey key l).
Proof.
  induction l as [|x l IH]; [constructor|].
  unfold sortByKey in *. simpl. by apply insertByKey_sorted.
Qed.

(** The sort is stable: a list that is in order already is returned as
    it is. *)
Lemma sortByKey_id l : StronglySorted byKey l -> sortByKey key l = l.
Proof.
  induction l as [|x l IH]; [done|].
  intros [Hx Hl]%StronglySorted_cons. unfold sortByKey in *. simpl.
  rewrite (IH Hl). destruct l as [|y l]; [done|]. simpl.
  apply Forall_cons in Hx as [Hxy _].
  destruct (key y <? key x)%Z eqn:E; [|done]. apply Z.ltb_lt in E. lia.
Qed.

End Sorting.

Lemma StronglySorted_index {A} (R : relation A) l :
  (forall i j x y, i < j -> l !! i = Some x -> l !! j = Some y -> R x y) ->
  StronglySorted R l.
Proof.
  induction l as [|x l IH]; intros H; [constructor|].
  apply StronglySorted_cons. split.
  - apply Forall_forall. intros y [j Hj]%list_elem_of_lookup.
    apply (H 0 (S j)); [lia|done|done].
  - apply IH. intros i j a b Hij Ha Hb. apply (H (S i) (S j)); [lia|done|done].
Qed.

(** *** The index map of a saved order *)

Lemma orderMapFrom_other order : forall index m id,
  id ∉ order -> orderMapFrom index order m !! id = m !! id.
Proof.
  induction order as [|x order IH]; intros index m id Hid; [done|].
  cbn [orderMapFrom]. apply not_elem_of_cons in Hid as [Hne Hid].
  rewrite IH by done. by rewrite lookup_insert_ne.
Qed.

Lemma orderMapFrom_index order : forall index m n id,
  NoDup order -> order !! n = Some id ->
  orderMapFrom index order m !! id = Some (index + Z.of_nat n)%Z.
Proof.
  induction order as [|x order IH]; intros index m n id Hnd Hn; [done|].
  apply NoDup_cons in Hnd as [Hx Hnd]. cbn [orderMapFrom].
  destruct n as [|n]; cbn in Hn.
  - injection Hn as ->. rewrite orderMapFrom_other by done.
    rewrite lookup_insert_eq. f_equal. lia.
  - rewrite (IH _ _ n) by done. f_equal. lia.
Qed.

Lemma rankIn_index order n id :
  NoDup order -> order !! n = Some id -> rankIn order id = Z.of_nat n.
Proof.
  intros Hnd Hn. unfold rankIn, orderMap.
  by rewrite (orderMapFrom_index _ _ _ n).
Qed.

Lemma sortedCategories_unfold w :
  sortedCategories w
  = if (length (cs_categoryOrder (categoriesStore w)) =? 0)%nat
    then sortByKey c_sortOrder (allCategories w)
    else sortByKey (fun a => rankIn (cs_categoryOrder (categoriesStore w)) (c_id a))
           (allCategories w).
Proof. reflexivity. Qed.

(** X30. The categories as displayed. [sortedCategories] always is a
    rearrangement of all categories, built-in and custom. Without a
    saved order it is in ascending sort order, and is the list of all
    categories itself when that list is in ascending sort order
    already. With a saved order that lists every category id once, the
    categories come in exactly that order. *)
Theorem sortedCategories_follow_order (w : World) :
  let order := cs_categoryOrder (categoriesStore w) in
  sortedCategories w ≡ₚ allCategories w /\
  (order = [] -> StronglySorted bySortOrder (sortedCategories w)) /\
  (order = [] -> StronglySorted bySortOrder (allCategories w) ->
   sortedCategories w = allCategories w) /\
  (NoDup order -> c_id <$> allCategories w ≡ₚ order ->
   c_id <$> sortedCategories w = order).
Proof.
  cbv zeta. rewrite sortedCategories_unfold.
  split; [|split; [|split]].
  - destruct (_ =? _)%nat; apply sortByKey_perm.
  - intros ->. apply sortByKey_sorted.
  - intros ->. apply sortByKey_id.
  - intros Hnd Hperm.
    set (order := cs_categoryOrder (categoriesStore w)) in *.
    destruct order as [|o order'] eqn:Ho.
    { apply Permutation_nil_r in Hperm. discriminate. }
    rewrite <- Ho in *. clear Ho o order'.
    cbn [length Nat.eqb].
    replace (length order =? 0)%nat with false
      by (symmetry; apply Nat.eqb_neq; intros E;
          apply nil_length_inv in E; rewrite E in Hperm;
          by apply Permutation_nil_r in Hperm).
    set (rk := fun a : Category => rankIn order (c_id a)).
    assert (Hp : c_id <$> sortByKey rk (allCategories w) ≡ₚ order)
      by (by rewrite sortByKey_perm).
    apply (StronglySorted_unique_strong
             (fun a b => (rankIn order a <= rankIn order b)%Z)); [| | |done].
    + intros x1 x2 H1 H2 H12 H21. rewrite Hp in H1.
      apply list_elem_of_lookup in H1 as [n1 H1].
      apply list_elem_of_lookup in H2 as [n2 H2].
      rewrite (rankIn_index _ _ _ Hnd H1), (rankIn_index _ _ _ Hnd H2) in *.
      assert (n1 = n2) as -> by lia. congruence.
    + apply (StronglySorted_fmap c_id (fun a b => (rk a <= rk b)%Z)); [done|].
      apply sortByKey_sorted.
    + apply StronglySorted_index. intros i j x y Hij Hx Hy.
      rewrite (rankIn_index _ _ _ Hnd Hx), (rankIn_index _ _ _ Hnd Hy). lia.
Qed.

End SortSpec.
